(** * Schema synthesis and deduplication in the MCP generator

    A shallow embedding of the type/validator synthesis engine of
    [packages/generator/src/generator/mcp-generator.ts] (class [MCPGenerator])
    and of [extractComponentNames] in [packages/parser/src/openapi/parser.ts].

    Schemas are the plain JavaScript values the code receives (the result of
    parsing and dereferencing an OpenAPI document); the code is duck-typed, so
    the model keeps them untyped as well and follows JavaScript's rules for
    truthiness, property reads, string conversion and [JSON.stringify].

    The development also covers what surrounds the engine: the naming
    utilities ([toSnakeCase], [sanitizeName], the [camelCase] helper), the
    construction of tools from endpoints ([generateToolName],
    [extractParameters], [endpointToTool], [findEndpointForTool]) and, in the
    parser, the conversion of operations, responses and security schemes of
    OpenAPI 2.0 and 3 documents. *)

From Stdlib Require Import ZArith String Ascii List Bool Lia.
From Stdlib Require Import DecimalString DecimalZ DecimalNat DecimalFacts.
From stdpp Require Import gmap strings list.

Local Open Scope string_scope.

(** ** JavaScript values *)

(** A value as [JSON.parse] (or a YAML loader) builds it.  [JObj] lists the
    own properties in the order [Object.keys] enumerates them: the keys that
    are array indices first, in ascending numeric order, then the other keys
    in the order of their insertion.  Values of this type are finite trees:
    they are the schemas without circular references.

    Numbers are integers.  The model follows JavaScript on the safe integers
    (magnitude at most [2^53 - 1], see [safe_integers] below), which a
    JavaScript number represents exactly and prints in plain decimal
    notation.  Fractions, [-0], [NaN] and the infinities have no counterpart
    in the model. *)
#[local] Unset Elimination Schemes.
Inductive json : Type :=
  | JNull
  | JBool (b : bool)
  | JNum (n : Z)
  | JStr (s : string)
  | JArr (elems : list json)
  | JObj (fields : list (string * json)).
#[local] Set Elimination Schemes.

(** [!v]: the falsy values are [null], [false], [0] and the empty string;
    [undefined] (an absent property) is falsy too. *)
Definition truthy (v : json) : bool :=
  match v with
  | JNull => false
  | JBool b => b
  | JNum n => negb (n =? 0)%Z
  | JStr s => negb (String.eqb s "")
  | JArr _ | JObj _ => true
  end.

Definition truthy_opt (o : option json) : bool :=
  match o with Some v => truthy v | None => false end.

(** [typeof v === 'object'] for a truthy [v]: arrays and objects. *)
Definition is_object (v : json) : bool :=
  match v with JArr _ | JObj _ => true | _ => false end.

Fixpoint assoc {V : Type} (k : string) (l : list (string * V)) : option V :=
  match l with
  | [] => None
  | (k', x) :: l' => if String.eqb k' k then Some x else assoc k l'
  end.

(** [v.k] for one of the keys the generator reads ([type], [enum], [items],
    [properties], [nullable], [required], [description]) on a value that is
    not [null]: only a plain object can own such a property, the read gives
    [undefined] ([None]) on every other value. *)
Definition prop (k : string) (v : json) : option json :=
  match v with
  | JObj fields => assoc k fields
  | _ => None
  end.

(** [v.type === t]. *)
Definition type_is (t : string) (v : json) : bool :=
  match prop "type" v with
  | Some (JStr s) => String.eqb s t
  | _ => false
  end.

(** ** Strings *)

Definition str1 (c : ascii) : string := String c EmptyString.

(** [Array.prototype.join]. *)
Fixpoint join (sep : string) (l : list string) : string :=
  match l with
  | [] => ""
  | x :: l' =>
      match l' with
      | [] => x
      | _ :: _ => x +:+ sep +:+ join sep l'
      end
  end.

(** [Number.prototype.toString] on a safe integer: its decimal digits, after
    a minus sign when it is negative.  (Beyond the safe integers JavaScript
    rounds to a double and, from [10^21] on, prints an exponent; these
    numbers are outside the model.) *)
Definition Number_toString (n : Z) : string :=
  NilZero.string_of_int (Z.to_int n).

(** The decimal digits of a counter, as a template literal prints it. *)
Definition Nat_toString (n : nat) : string :=
  NilZero.string_of_uint (Nat.to_uint n).

(** Indices ["0"], ["1"], ... paired with the elements, as [Object.entries]
    enumerates an array or a string. *)
Fixpoint indexed {A : Type} (i : nat) (l : list A) : list (string * A) :=
  match l with
  | [] => []
  | x :: l' => (Nat_toString i, x) :: indexed (S i) l'
  end.

Fixpoint chars (s : string) : list json :=
  match s with
  | EmptyString => []
  | String c s' => JStr (str1 c) :: chars s'
  end.

(** [Object.entries(v)] for a value that is neither [null] nor [undefined]. *)
Definition Object_entries (v : json) : list (string * json) :=
  match v with
  | JObj fields => fields
  | JArr elems => indexed 0 elems
  | JStr s => indexed 0 (chars s)
  | _ => []
  end.

Definition Object_keys (v : json) : list string := map fst (Object_entries v).

(** [String(v)], the conversion a template literal applies. *)
Fixpoint ToString (v : json) : string :=
  match v with
  | JNull => "null"
  | JBool true => "true"
  | JBool false => "false"
  | JNum n => Number_toString n
  | JStr s => s
  | JArr elems =>
      join "," (map (fun x => match x with JNull => "" | _ => ToString x end) elems)
  | JObj _ => "[object Object]"
  end.

(** ** JSON.stringify *)

Definition dquote : ascii := "034"%char.
Definition backslash : ascii := "092"%char.

Definition hexdigit (n : nat) : ascii :=
  ascii_of_nat (if (n <? 10)%nat then 48 + n else 87 + n).

(** One code unit of a quoted JSON string (QuoteJSONString of ECMA-262). *)
Definition QuoteJSONChar (c : ascii) : string :=
  let n := nat_of_ascii c in
  if (n =? 8)%nat then "\b"
  else if (n =? 9)%nat then "\t"
  else if (n =? 10)%nat then "\n"
  else if (n =? 12)%nat then "\f"
  else if (n =? 13)%nat then "\r"
  else if (n =? 34)%nat then String backslash (str1 dquote)
  else if (n =? 92)%nat then "\\"
  else if (n <? 32)%nat then
    "\u00" +:+ String (hexdigit (n / 16)) (str1 (hexdigit (n mod 16)))
  else str1 c.

Fixpoint QuoteJSONBody (s : string) : string :=
  match s with
  | EmptyString => EmptyString
  | String c s' => QuoteJSONChar c +:+ QuoteJSONBody s'
  end.

Definition QuoteJSONString (s : string) : string :=
  String dquote (QuoteJSONBody s +:+ str1 dquote).

(** [JSON.stringify(v)] with no replacer and no indentation.  On a finite
    tree it always returns a string. *)
Fixpoint JSON_stringify (v : json) : string :=
  match v with
  | JNull => "null"
  | JBool true => "true"
  | JBool false => "false"
  | JNum n => Number_toString n
  | JStr s => QuoteJSONString s
  | JArr elems => "[" +:+ join "," (map JSON_stringify elems) +:+ "]"
  | JObj fields =>
      "{" +:+ join ","
                (map (fun kv => QuoteJSONString (fst kv) +:+ ":" +:+ JSON_stringify (snd kv))
                     fields)
          +:+ "}"
  end.

(** The numbers on which the model and JavaScript agree: the safe integers,
    from [Number.MIN_SAFE_INTEGER] to [Number.MAX_SAFE_INTEGER]. *)
Definition MAX_SAFE_INTEGER : Z := 2 ^ 53 - 1.

Definition safe_integer (n : Z) : bool := (Z.abs n <=? MAX_SAFE_INTEGER)%Z.

(** Every number in a value is a safe integer. *)
Fixpoint safe_integers (v : json) : bool :=
  match v with
  | JNum n => safe_integer n
  | JArr elems => forallb safe_integers elems
  | JObj fields => forallb (fun kv => safe_integers (snd kv)) fields
  | _ => true
  end.

(** [s.includes(x)] on strings. *)
Fixpoint String_includes (s x : string) : bool :=
  if String.prefix x s then true
  else match s with
       | EmptyString => false
       | String _ s' => String_includes s' x
       end.

(** [s.replace(/'/g, "\\'")]. *)
Fixpoint escapeQuotes (s : string) : string :=
  match s with
  | EmptyString => EmptyString
  | String c s' =>
      if Ascii.eqb c "'"%char then String backslash (String c (escapeQuotes s'))
      else String c (escapeQuotes s')
  end.

Definition nl : string := str1 "010"%char.

(** ['  '.repeat(n)]. *)
Fixpoint repeat_indent (n : nat) : string :=
  match n with
  | O => ""
  | S n' => "  " +:+ repeat_indent n'
  end.

(** ** Exceptions *)

Inductive exn : Type :=
  | TypeError (msg : string).

Inductive result (A : Type) : Type :=
  | Ok (a : A)
  | Throw (e : exn).
Arguments Ok {A} a.
Arguments Throw {A} e.

(** [v.k] where [v] may be [null]: reading a property of [null] throws. *)
Definition read (k : string) (v : json) : result (option json) :=
  match v with
  | JNull => Throw (TypeError "Cannot read properties of null")
  | _ => Ok (prop k v)
  end.

(** The value of [v.k] when it is truthy. *)
Definition tprop (k : string) (v : json) : option json :=
  match prop k v with
  | Some x => if truthy x then Some x else None
  | None => None
  end.

(** [required.includes(propName)]: membership in an array, substring test on
    a string; any other truthy value has no [includes] method. *)
Definition includes (required : json) (propName : string) : result bool :=
  match required with
  | JArr elems =>
      Ok (existsb (fun e => match e with JStr s => String.eqb s propName | _ => false end)
                  elems)
  | JStr s => Ok (String_includes s propName)
  | _ => Throw (TypeError "required.includes is not a function")
  end.

(** [s.required || []]. *)
Definition required_or_empty (s : json) : json :=
  match tprop "required" s with
  | Some r => r
  | None => JArr []
  end.

(** [s.enum.map(v => `'${v}'`)]. *)
Definition enumLiterals (e : json) : result (list string) :=
  match e with
  | JArr vs => Ok (map (fun v => "'" +:+ ToString v +:+ "'") vs)
  | _ => Throw (TypeError "s.enum.map is not a function")
  end.

(** ** The generator's state *)

(** A JavaScript [Map] with string keys: the entries in insertion order. *)
Section JSMap.
Context {V : Type}.

Definition Map_get (k : string) (m : list (string * V)) : option V := assoc k m.

Definition Map_has (k : string) (m : list (string * V)) : bool :=
  match Map_get k m with Some _ => true | None => false end.

(** [m.set(k, v)]: a present key keeps its position, a new key goes last. *)
Fixpoint Map_set (k : string) (v : V) (m : list (string * V)) : list (string * V) :=
  match m with
  | [] => [(k, v)]
  | (k', v') :: m' =>
      if String.eqb k' k then (k, v) :: m' else (k', v') :: Map_set k v m'
  end.

(** [Array.from(m.values())]. *)
Definition Map_values (m : list (string * V)) : list V := map snd m.

End JSMap.

(** A value of [extractedSchemas]. *)
Record extracted : Type := { schema : json; name : string }.

(** The three private fields the synthesis reads and writes:
    [extractedSchemas], [schemaCounter], [componentSchemas]. *)
Record MCPGenerator : Type := {
  extractedSchemas : list (string * extracted);
  schemaCounter : nat;
  componentSchemas : gmap string string
}.

(** A method body: it runs on [this], and returns a value and the updated
    [this], or throws. *)
Definition M (A : Type) : Type := MCPGenerator -> result (A * MCPGenerator).

Definition ret {A : Type} (a : A) : M A := fun this => Ok (a, this).

Definition bind {A B : Type} (m : M A) (k : A -> M B) : M B :=
  fun this =>
    match m this with
    | Ok (a, this') => k a this'
    | Throw e => Throw e
    end.

Definition lift {A : Type} (r : result A) : M A :=
  fun this =>
    match r with
    | Ok a => Ok (a, this)
    | Throw e => Throw e
    end.

Notation "'let*' x ':=' m 'in' k" := (bind m (fun x => k))
  (at level 10, x name, m at level 100, k at level 200).

(** [l.map(f)] where [f] runs on [this]. *)
Fixpoint mapM {A B : Type} (f : A -> M B) (l : list A) : M (list B) :=
  match l with
  | [] => ret []
  | x :: l' =>
      let* y := f x in
      let* ys := mapM f l' in
      ret (y :: ys)
  end.

(** [this.componentSchemas[schemaKey]] when it is truthy: a name that is not
    the empty string.  A key is the serialization of a truthy value, so it
    never names a property inherited from [Object.prototype]. *)
Definition componentName_of (this : MCPGenerator) (schemaKey : string) : option string :=
  match componentSchemas this !! schemaKey with
  | Some n => if String.eqb n "" then None else Some n
  | None => None
  end.

(** ** Extraction policy and registration *)

Definition shouldExtractNestedSchema (schema : json) : bool :=
  match tprop "properties" schema with
  | None => false
  | Some properties =>
      let propCount := length (Object_keys properties) in
      (3 <=? propCount)%nat
  end.

(** [`NestedType${this.schemaCounter}`]. *)
Definition fallbackName (counter : nat) : string :=
  "NestedType" +:+ Nat_toString counter.

Definition extractNestedSchema (schema_ : json) : M string := fun this =>
  let schemaKey := JSON_stringify schema_ in
  match componentName_of this schemaKey with
  | Some componentName =>
      if Map_has schemaKey (extractedSchemas this) then Ok (componentName, this)
      else
        Ok (componentName,
            {| extractedSchemas :=
                 Map_set schemaKey {| schema := schema_; name := componentName |}
                         (extractedSchemas this);
               schemaCounter := schemaCounter this;
               componentSchemas := componentSchemas this |})
  | None =>
      match Map_get schemaKey (extractedSchemas this) with
      | Some e => Ok (name e, this)
      | None =>
          let counter := S (schemaCounter this) in
          let name_ := fallbackName counter in
          Ok (name_,
              {| extractedSchemas :=
                   Map_set schemaKey {| schema := schema_; name := name_ |}
                           (extractedSchemas this);
                 schemaCounter := counter;
                 componentSchemas := componentSchemas this |})
      end
  end.

(** ** The validator synthesizer *)

(** The recursive methods are written in two parts: the body of the method,
    which receives the results of its recursive calls on the sub-schemas as
    arguments, and the fixpoint that ties them.  The unfolding lemmas
    ([schemaToZodType_eq], [schemaToTypeScript_eq]) restate each method in
    the shape of its source. *)
Section Recursion.
Context {B : Type} (self : json -> B).

(** The recursive call on [v.k], if [v] has the property. *)
Fixpoint assoc_with (k : string) (l : list (string * json)) : option B :=
  match l with
  | [] => None
  | (k', x) :: l' => if String.eqb k' k then Some (self x) else assoc_with k l'
  end.

Fixpoint indexed_with (i : nat) (l : list json) : list (string * B) :=
  match l with
  | [] => []
  | x :: l' => (Nat_toString i, self x) :: indexed_with (S i) l'
  end.

(** The recursive calls on the values of [Object.entries(v)]; [on_char] is
    the result on a one-character string. *)
Definition entries_with (on_char : B) (v : json) : list (string * B) :=
  match v with
  | JObj fields => map (fun kv => (fst kv, self (snd kv))) fields
  | JArr elems => indexed_with 0 elems
  | JStr s => indexed 0 (map (fun _ => on_char) (chars s))
  | _ => []
  end.

End Recursion.

(** Body of [schemaToZodType]; [rec_items] is [this.schemaToZodType(s.items)]. *)
Definition schemaToZodType_body (s : json) (rec_items : M string) : M string :=
  if negb (truthy s) || negb (is_object s) then ret "unknown()"
  else
    let* zodType :=
      match tprop "enum" s with
      | Some enum =>
          let* values := lift (enumLiterals enum) in
          ret ("enum([" +:+ join ", " values +:+ "])")
      | None =>
          if type_is "string" s then ret "string()"
          else if type_is "integer" s || type_is "number" s then ret "number()"
          else if type_is "boolean" s then ret "boolean()"
          else if type_is "array" s then
            match tprop "items" s with
            | Some itemSchema =>
                if type_is "object" itemSchema
                   && truthy_opt (prop "properties" itemSchema)
                   && shouldExtractNestedSchema itemSchema
                then
                  let* extractedName := extractNestedSchema itemSchema in
                  ret ("array(" +:+ extractedName +:+ "Schema)")
                else
                  let* itemType := rec_items in
                  ret ("array(z." +:+ itemType +:+ ")")
            | None => ret "array(z.unknown())"
            end
          else if type_is "object" s then
            if truthy_opt (prop "properties" s) then
              if shouldExtractNestedSchema s then
                let* extractedName := extractNestedSchema s in
                ret (extractedName +:+ "Schema")
              else ret "record(z.unknown())"
            else ret "record(z.unknown())"
          else ret "unknown()"
      end in
    ret (if truthy_opt (prop "nullable" s) then zodType +:+ ".nullable()" else zodType).

Definition or_default {A : Type} (d : A) (o : option A) : A :=
  match o with Some a => a | None => d end.

Fixpoint schemaToZodType (schema_ : json) : M string :=
  match schema_ with
  | JObj fields =>
      schemaToZodType_body schema_
        (or_default (ret "unknown()") (assoc_with schemaToZodType "items" fields))
  | _ => schemaToZodType_body schema_ (ret "unknown()")
  end.

(** ** The type synthesizer *)

(** Body of [schemaToTypeScript]; [rec_items] is
    [this.schemaToTypeScript(s.items)] and [rec_props] pairs each key of
    [Object.entries(s.properties)] with [this.schemaToTypeScript(propSchema)]. *)
Definition schemaToTypeScript_body (s : json) (rec_items : M string)
    (rec_props : list (string * M string)) : M string :=
  if negb (truthy s) || negb (is_object s) then ret "unknown"
  else
    let* tsType :=
      match tprop "enum" s with
      | Some enum =>
          let* values := lift (enumLiterals enum) in
          ret (join " | " values)
      | None =>
          if type_is "string" s then ret "string"
          else if type_is "integer" s || type_is "number" s then ret "number"
          else if type_is "boolean" s then ret "boolean"
          else if type_is "array" s then
            let* itemType :=
              (if truthy_opt (prop "items" s) then rec_items else ret "unknown") in
            ret (itemType +:+ "[]")
          else if type_is "object" s then
            if truthy_opt (prop "properties" s) then
              if shouldExtractNestedSchema s then
                let* extractedName := extractNestedSchema s in
                ret extractedName
              else
                let* props :=
                  mapM (fun entry =>
                          let* propType := snd entry in
                          ret (fst entry +:+ ": " +:+ propType))
                       rec_props in
                ret ("{ " +:+ join "; " props +:+ " }")
            else ret "Record<string, unknown>"
          else ret "unknown"
      end in
    ret (if truthy_opt (prop "nullable" s) then tsType +:+ " | null" else tsType).

Fixpoint schemaToTypeScript (schema_ : json) : M string :=
  match schema_ with
  | JObj fields =>
      schemaToTypeScript_body schema_
        (or_default (ret "unknown") (assoc_with schemaToTypeScript "items" fields))
        (or_default [] (assoc_with (entries_with schemaToTypeScript (ret "unknown"))
                                   "properties" fields))
  | _ => schemaToTypeScript_body schema_ (ret "unknown") []
  end.

(** ** Declarations *)

(** One iteration of the loop of [generateInterface]: the text appended to
    [result] for the property [propName]. *)
Definition interfaceProperty (required : json) (indentStr : string)
    (entry : string * json) : M string :=
  let propName := fst entry in
  let propSchema := snd entry in
  let* isRequired := lift (includes required propName) in
  let* optional :=
    (if negb isRequired then ret "?"
     else
       let* nullable := lift (read "nullable" propSchema) in
       ret (if truthy_opt nullable then "?" else "")) in
  let* tsType := schemaToTypeScript propSchema in
  let* description := lift (read "description" propSchema) in
  let comment :=
    match description with
    | Some d =>
        if truthy d then indentStr +:+ "  /** " +:+ ToString d +:+ " */" +:+ nl else ""
    | None => ""
    end in
  ret (comment +:+ indentStr +:+ "  " +:+ propName +:+ optional +:+ ": " +:+ tsType
               +:+ ";" +:+ nl).

Definition generateInterface (name_ : string) (schema_ : json) (indent : nat) : M string :=
  if negb (truthy schema_) || negb (is_object schema_) then ret ""
  else
    let s := schema_ in
    let indentStr := repeat_indent indent in
    match (if type_is "object" s then tprop "properties" s else None) with
    | Some properties =>
        let required := required_or_empty s in
        let* lines := mapM (interfaceProperty required indentStr) (Object_entries properties) in
        ret (indentStr +:+ "export interface " +:+ name_ +:+ " {" +:+ nl
               +:+ String.concat "" lines
               +:+ indentStr +:+ "}" +:+ nl)
    | None =>
        match (if type_is "array" s then tprop "items" s else None) with
        | Some items =>
            let* itemType := schemaToTypeScript items in
            ret (indentStr +:+ "export type " +:+ name_ +:+ " = " +:+ itemType +:+ "[];" +:+ nl)
        | None => ret ""
        end
    end.

(** [propDesc ? `.describe('${propDesc.replace(/'/g, "\\'")}')` : '']. *)
Definition describe_of (propSchema : json) : result string :=
  match tprop "description" propSchema with
  | Some (JStr d) => Ok (".describe('" +:+ escapeQuotes d +:+ "')")
  | Some _ => Throw (TypeError "propDesc.replace is not a function")
  | None => Ok ""
  end.

(** The callback of [generateZodSchema]: one line of the [z.object]. *)
Definition zodProperty (required : json) (entry : string * json) : M string :=
  let propName := fst entry in
  let propSchema := snd entry in
  let* zodType := schemaToZodType propSchema in
  let* isRequired := lift (includes required propName) in
  let optional := if isRequired then "" else ".optional()" in
  let* describe := lift (describe_of propSchema) in
  ret ("  " +:+ propName +:+ ": z." +:+ zodType +:+ optional +:+ describe +:+ ",").

Definition generateZodSchema (name_ : string) (schema_ : json) : M string :=
  if negb (truthy schema_) || negb (is_object schema_) then ret ""
  else
    let s := schema_ in
    match (if type_is "object" s then tprop "properties" s else None) with
    | Some properties =>
        let required := required_or_empty s in
        let* props := mapM (zodProperty required) (Object_entries properties) in
        ret ("export const " +:+ name_ +:+ "Schema = z.object({" +:+ nl
               +:+ join nl props +:+ nl +:+ "});")
    | None =>
        match (if type_is "array" s then tprop "items" s else None) with
        | Some items =>
            let* itemType := schemaToZodType items in
            ret ("export const " +:+ name_ +:+ "Schema = z.array(z." +:+ itemType +:+ ");")
        | None => ret ""
        end
    end.

(** ** Response deduplication and the generated declarations *)

Definition bindR {A B : Type} (r : result A) (k : A -> result B) : result B :=
  match r with
  | Ok a => k a
  | Throw e => Throw e
  end.

(** A value of [responseSchemaMap]. *)
Record responseGroup (S : Type) : Type := { names : list string; group_schema : S }.
Arguments names {S} _.
Arguments group_schema {S} _.

(** The loop that fills [responseSchemaMap], for any representation [S] of
    schemas with its [JSON.stringify] and its truthiness.  Each tool is given
    by its [responseSchema] (if any) and its [responseTypeName]. *)
Section ResponseGrouping.
Context {S : Type} (stringify : S -> result string) (truthyS : S -> bool).

(** The body of the loop: [existing.names.push(...)] or a new group. *)
Definition addResponse (tool : option S * string)
    (responseSchemaMap : list (string * responseGroup S)) :
    result (list (string * responseGroup S)) :=
  match fst tool with
  | Some responseSchema =>
      if truthyS responseSchema then
        bindR (stringify responseSchema) (fun schemaKey =>
          match Map_get schemaKey responseSchemaMap with
          | Some existing =>
              Ok (Map_set schemaKey
                    {| names := names existing ++ [snd tool];
                       group_schema := group_schema existing |}
                    responseSchemaMap)
          | None =>
              Ok (Map_set schemaKey
                    {| names := [snd tool]; group_schema := responseSchema |}
                    responseSchemaMap)
          end)
      else Ok responseSchemaMap
  | None => Ok responseSchemaMap
  end.

Fixpoint groupResponses (tools : list (option S * string))
    (responseSchemaMap : list (string * responseGroup S)) :
    result (list (string * responseGroup S)) :=
  match tools with
  | [] => Ok responseSchemaMap
  | tool :: tools' =>
      bindR (addResponse tool responseSchemaMap) (groupResponses tools')
  end.

End ResponseGrouping.

(** [l.filter(i => i)] on strings: the empty string is dropped. *)
Definition nonempty (l : list string) : list string :=
  List.filter (fun i => negb (String.eqb i "")) l.

Definition get_this : M MCPGenerator := fun this => Ok (this, this).

(** [`export type ${alias} = ${referenceName};`]. *)
Definition aliasDeclaration (referenceName alias : string) : string :=
  "export type " +:+ alias +:+ " = " +:+ referenceName +:+ ";".

(** The callback that turns one group of [responseSchemaMap] into its
    declaration: the interface code and the alias lines, before they are
    joined. *)
Definition responseDeclarations (g : responseGroup json) : M (string * list string) :=
  let schemaKey := JSON_stringify (group_schema g) in
  let* this := get_this in
  let componentName := componentName_of this schemaKey in
  let canonicalName := or_default (hd "undefined" (names g)) componentName in
  let alreadyExtracted := Map_has schemaKey (extractedSchemas this) in
  let* interfaceCode :=
    (if alreadyExtracted then ret ""
     else generateInterface canonicalName (group_schema g) 0) in
  let* this' := get_this in
  let referenceName :=
    match (if alreadyExtracted then Map_get schemaKey (extractedSchemas this') else None) with
    | Some e => if String.eqb (name e) "" then canonicalName else name e
    | None => canonicalName
    end in
  let namesToAlias :=
    if alreadyExtracted then names g
    else match componentName with
         | Some _ => names g
         | None => tl (names g)
         end in
  let aliases :=
    map (aliasDeclaration referenceName)
        (List.filter (fun n => negb (String.eqb n referenceName)) namesToAlias) in
  ret (interfaceCode, aliases).

(** [[interfaceCode, aliases].filter(Boolean).join('\n')]. *)
Definition responseInterface (g : responseGroup json) : M string :=
  let* d := responseDeclarations g in
  ret (join nl (nonempty [fst d; join nl (snd d)])).

(** A parameter of a tool, as [extractParameters] stored it: the fields
    [generateTypeScriptFiles] copies into the schema it rebuilds. *)
Record MCPToolParameter : Type := {
  param_type : string;
  param_enum : option json;
  param_items : option json
}.

(** The schema object rebuilt for [schemaToZodType]. *)
Definition parameterSchema (p : MCPToolParameter) : json :=
  JObj ([("type", JStr (param_type p))]
          ++ (if truthy_opt (param_enum p) then [("enum", or_default JNull (param_enum p))] else [])
          ++ (if truthy_opt (param_items p) then [("items", or_default JNull (param_items p))] else [])).

(** What [generateTypeScriptFiles] uses of a tool and its endpoint:
    [parameters] are the values of [Object.entries(tool.inputSchema.properties)]
    in that order, [responseSchema] is the schema of the 200 (or else 201)
    JSON response, and [responseTypeName] is [getResponseTypeName(endpoint)]. *)
Record tool : Type := {
  parameters : list MCPToolParameter;
  responseSchema : option json;
  responseTypeName : string
}.

(** The interfaces and validators handed to the template. *)
Record templateData : Type := {
  zodTypes : list (list string);
  responseInterfaces : string;
  nestedZodSchemas : string
}.

(** [Array.from(this.extractedSchemas.values()).map(...)]: the array is
    built before the callback runs, so entries registered by the callback
    are not visited. *)
Definition nestedInterfaceDeclarations : M (list string) :=
  let* this := get_this in
  mapM (fun e => generateInterface (name e) (schema e) 0)
       (Map_values (extractedSchemas this)).

(** The same for the validators, after the interfaces were generated. *)
Definition nestedZodDeclarations : M (list string) :=
  let* this := get_this in
  mapM (fun e => generateZodSchema (name e) (schema e))
       (Map_values (extractedSchemas this)).

(** The part of [generateTypeScriptFiles] that builds the interfaces and the
    validators: the validator of every parameter, the groups of responses,
    the declarations of the groups, then those of the extracted schemas. *)
Definition generateTypeScriptFiles (tools : list tool) : M templateData :=
  let* zods :=
    mapM (fun t => mapM (fun p => schemaToZodType (parameterSchema p)) (parameters t))
         tools in
  let* responseSchemaMap :=
    lift (groupResponses (fun s => Ok (JSON_stringify s)) truthy
            (map (fun t => (responseSchema t, responseTypeName t)) tools) []) in
  let* perGroup := mapM responseInterface (Map_values responseSchemaMap) in
  let responseInterfaces_ := join (nl +:+ nl) (nonempty perGroup) in
  let* nested := nestedInterfaceDeclarations in
  let nestedInterfaces := join nl (nonempty nested) in
  let* nestedZod := nestedZodDeclarations in
  let allInterfaces := join (nl +:+ nl) (nonempty [nestedInterfaces; responseInterfaces_]) in
  ret {| zodTypes := zods;
         responseInterfaces := allInterfaces;
         nestedZodSchemas := join (nl +:+ nl) (nonempty nestedZod) |}.

(** ** A generation run *)

Inductive outcome (A : Type) : Type :=
  | Generated (a : A)
  | GenerationError (message : string) (error : exn).
Arguments Generated {A} a.
Arguments GenerationError {A} message error.

(** The [try]/[catch] of [generate]: whatever is thrown inside becomes a
    [GenerationError]. *)
Definition catch_generate {A : Type} (r : result A) : outcome A :=
  match r with
  | Ok a => Generated a
  | Throw e => GenerationError "Failed to generate MCP server" e
  end.

(** The state [generate] starts from: [extractedSchemas.clear()],
    [schemaCounter = 0], [componentSchemas = components?.schemas || {}]. *)
Definition reset (components : gmap string string) : MCPGenerator :=
  {| extractedSchemas := []; schemaCounter := 0; componentSchemas := components |}.

(** [generate] for the TypeScript target, as far as types and validators go
    (the analysis by the model, the templates and the formatting are left
    out). *)
Definition generate (components : gmap string string) (tools : list tool) :
    outcome templateData :=
  catch_generate
    (match generateTypeScriptFiles tools (reset components) with
     | Ok (data, _) => Ok data
     | Throw e => Throw e
     end).

(** ** The parser's component name index *)

(** [k in v]. *)
Definition js_in (k : string) (v : json) : result bool :=
  match v with
  | JObj fields => Ok (match assoc k fields with Some _ => true | None => false end)
  | JArr _ => Ok false
  | _ => Throw (TypeError "Cannot use 'in' operator")
  end.

Definition extractComponentNames (api : json) : result (gmap string string) :=
  bindR (js_in "components" api) (fun hasComponents =>
    match (if hasComponents then tprop "components" api else None) with
    | Some components =>
        bindR (js_in "schemas" components) (fun hasSchemas =>
          if hasSchemas then
            match prop "schemas" components with
            | Some JNull | None => Throw (TypeError "Cannot convert undefined or null to object")
            | Some schemas =>
                Ok (fold_left
                      (fun componentMap entry =>
                         if truthy (snd entry) && is_object (snd entry)
                         then <[JSON_stringify (snd entry) := fst entry]> componentMap
                         else componentMap)
                      (Object_entries schemas) (∅ : gmap string string))
            end
          else Ok ∅)
    | None => Ok ∅
    end).

(** ** Runs and their invariants *)

(** The guard under which [schemaToTypeScript] and [schemaToZodType] call
    [extractNestedSchema]: [type === 'object'], truthy [properties] and
    [shouldExtractNestedSchema]. *)
Definition hoistable (s : json) : bool :=
  type_is "object" s && shouldExtractNestedSchema s.

(** The states of a run: the synthesis changes [this] only through calls of
    [extractNestedSchema] on hoistable schemas. *)
Inductive steps : MCPGenerator -> MCPGenerator -> Prop :=
  | steps_refl this : steps this this
  | steps_extract this this1 s n this2 :
      steps this this1 ->
      hoistable s = true ->
      extractNestedSchema s this1 = Ok (n, this2) ->
      steps this this2.

Definition reachable (components : gmap string string) (this : MCPGenerator) : Prop :=
  steps (reset components) this.

(** A method keeps the run inside [steps]. *)
Definition preserves {A : Type} (m : M A) : Prop :=
  forall this a this', m this = Ok (a, this') -> steps this this'.

(** What holds of [extractedSchemas] in every state of a run. *)
Record table_ok (this : MCPGenerator) : Prop := {
  keys_unique : List.NoDup (map fst (extractedSchemas this));
  keys_fingerprint :
    forall k e, In (k, e) (extractedSchemas this) ->
      k = JSON_stringify (schema e) /\ hoistable (schema e) = true;
  names_origin :
    forall k e, In (k, e) (extractedSchemas this) ->
      match componentName_of this k with
      | Some n => name e = n
      | None => exists i, 1 <= i <= schemaCounter this /\ name e = fallbackName i
      end;
  fallback_distinct :
    forall k1 e1 k2 e2,
      In (k1, e1) (extractedSchemas this) -> In (k2, e2) (extractedSchemas this) ->
      componentName_of this k1 = None -> componentName_of this k2 = None ->
      name e1 = name e2 -> k1 = k2
}.

(** The number of entries [extractedSchemas] holds for a key. *)
Definition entries_for (k : string) (this : MCPGenerator) : nat :=
  length (List.filter (fun kv => String.eqb (fst kv) k) (extractedSchemas this)).

(** No two keys of the table carry the same name. *)
Definition names_unique (this : MCPGenerator) : Prop :=
  forall k1 e1 k2 e2,
    In (k1, e1) (extractedSchemas this) -> In (k2, e2) (extractedSchemas this) ->
    name e1 = name e2 -> k1 = k2.

(** A component index under which generated and component names cannot
    meet: no two fingerprints share a component name, and no component is
    called [NestedTypeN]. *)
Definition index_separated (components : gmap string string) : Prop :=
  (forall k1 k2 n, components !! k1 = Some n -> components !! k2 = Some n -> k1 = k2)
  /\ (forall k i, components !! k <> Some (fallbackName i)).

(** A validator declaration for [n]: [export const nSchema = z.object({ ... });]. *)
Definition validatorDeclaration (n body : string) : string :=
  "export const " +:+ n +:+ "Schema = z.object({" +:+ nl +:+ body +:+ nl +:+ "});".

(** The primitive types the synthesizers emit for a schema without structure. *)
Definition generic_primitive (t : string) : Prop :=
  In t ["string"; "number"; "boolean"; "unknown"; "string()"; "number()"; "boolean()"; "unknown()"].

(** ** Schemas typed as the casts declare *)

(** The fields the generator reads have the types its casts declare:
    [enum] and [required] are arrays and [description] is a string when they
    are truthy, and no property of [properties] is [null]. *)
Definition fields_typed (s : json) : bool :=
  match tprop "enum" s with Some (JArr _) | None => true | Some _ => false end
  && match tprop "required" s with Some (JArr _) | None => true | Some _ => false end
  && match tprop "description" s with Some (JStr _) | None => true | Some _ => false end
  && match tprop "properties" s with
     | Some properties =>
         forallb (fun kv => match snd kv with JNull => false | _ => true end)
                 (Object_entries properties)
     | None => true
     end.

(** The values [Object.entries(v)] enumerates all satisfy [typed]. *)
Definition entries_typed (typed : json -> bool) (v : json) : bool :=
  match v with
  | JObj fields => forallb (fun kv => typed (snd kv)) fields
  | JArr elems => forallb typed elems
  | _ => true
  end.

(** A schema typed as the casts declare, together with the schemas the
    synthesizers reach from it: its [items] and the values of its
    [properties].  The names of the properties are free: [properties] is a
    map from names to schemas and is not read as a schema itself, so a
    property may be called [description], [enum] or [required]. *)
Fixpoint well_typed (v : json) : bool :=
  match v with
  | JObj fields =>
      fields_typed v
      && forallb (fun kv =>
                    if String.eqb (fst kv) "items" then well_typed (snd kv)
                    else if String.eqb (fst kv) "properties"
                         then entries_typed well_typed (snd kv)
                         else true)
                 fields
  | _ => true
  end.


(** ** Statements of the specification *)

(** Structural equality of schema nodes in the words of the specification
    (the code has no such relation, it compares serializations): two nodes
    are structurally equal when they have the same shape, the same property
    set and the same nested shapes, whatever the order of the properties and
    of the names listed in [required]. *)
Inductive struct_eq : json -> json -> Prop :=
  | struct_eq_refl v : struct_eq v v
  | struct_eq_trans u v w : struct_eq u v -> struct_eq v w -> struct_eq u w
  | struct_eq_swap k1 v1 k2 v2 before after :
      k1 <> k2 ->
      struct_eq (JObj (before ++ (k1, v1) :: (k2, v2) :: after))
                (JObj (before ++ (k2, v2) :: (k1, v1) :: after))
  | struct_eq_field k v v' before after :
      struct_eq v v' ->
      struct_eq (JObj (before ++ (k, v) :: after)) (JObj (before ++ (k, v') :: after))
  | struct_eq_item v v' before after :
      struct_eq v v' ->
      struct_eq (JArr (before ++ v :: after)) (JArr (before ++ v' :: after))
  | struct_eq_required r r' before after :
      Permutation r r' ->
      struct_eq (JObj (before ++ ("required", JArr r) :: after))
                (JObj (before ++ ("required", JArr r') :: after)).

(** The extraction policy in the words of the specification (section 4.3):
    at least 3 properties, or a fingerprint known to the Component Name
    Index, or a fingerprint already in the Type Table. *)
Definition spec_shouldExtract (this : MCPGenerator) (s : json) : Prop :=
  (exists properties, prop "properties" s = Some properties
                      /\ 3 <= length (Object_keys properties))
  \/ is_Some (componentSchemas this !! JSON_stringify s)
  \/ Map_has (JSON_stringify s) (extractedSchemas this) = true.

(** ** Schemas with circular references *)

(** Dereferencing a recursive [$ref] leaves an object graph with a cycle.
    Such a graph is a tree whose leaves may point back to an enclosing
    object: [VBack n] is the object or array [n] levels up. *)
Module Cyclic.

#[local] Unset Elimination Schemes.
Inductive value : Type :=
  | VNull
  | VBool (b : bool)
  | VNum (n : Z)
  | VStr (s : string)
  | VArr (elems : list value)
  | VObj (fields : list (string * value))
  | VBack (n : nat).
#[local] Set Elimination Schemes.

Fixpoint all_some {A : Type} (l : list (option A)) : option (list A) :=
  match l with
  | [] => Some []
  | Some x :: l' => match all_some l' with Some xs => Some (x :: xs) | None => None end
  | None :: _ => None
  end.

(** The finite tree a value is, when nothing in it points back. *)
Fixpoint tree (v : value) : option json :=
  match v with
  | VNull => Some JNull
  | VBool b => Some (JBool b)
  | VNum n => Some (JNum n)
  | VStr s => Some (JStr s)
  | VArr elems =>
      match all_some (map tree elems) with
      | Some ts => Some (JArr ts)
      | None => None
      end
  | VObj fields =>
      match all_some (map (fun kv => match tree (snd kv) with
                                     | Some t => Some (fst kv, t)
                                     | None => None
                                     end) fields) with
      | Some ts => Some (JObj ts)
      | None => None
      end
  | VBack _ => None
  end.

(** [JSON.stringify] keeps the objects it is inside of on a stack and throws
    a [TypeError] when it meets one of them again. *)
Definition JSON_stringify (v : value) : result string :=
  match tree v with
  | Some t => Ok (JSON_stringify t)
  | None => Throw (TypeError "Converting circular structure to JSON")
  end.

Definition truthy (v : value) : bool :=
  match v with
  | VNull => false
  | VBool b => b
  | VNum n => negb (n =? 0)%Z
  | VStr s => negb (String.eqb s "")
  | VArr _ | VObj _ | VBack _ => true
  end.

(** [extractNestedSchema] starts with [JSON.stringify(schema)], outside any
    [try]. *)
Definition extractNestedSchema (v : value) : M string :=
  bind (lift (JSON_stringify v)) (fun _ =>
    match tree v with
    | Some t => extractNestedSchema t
    | None => lift (Throw (TypeError "Converting circular structure to JSON"))
    end).

(** [generate] up to the loop that fills [responseSchemaMap], for tools
    without parameters; [rest] is what [generate] does with the map. *)
Definition generate {A : Type} (tools : list (option value * string))
    (rest : list (string * responseGroup value) -> result A) : outcome A :=
  catch_generate (bindR (groupResponses JSON_stringify truthy tools []) rest).

(** [Node: { type: object, properties: { value: string, next: Node } }]. *)
Definition node : value :=
  VObj [("type", VStr "object");
        ("properties",
         VObj [("value", VObj [("type", VStr "string")]);
               ("next", VBack 1)])].

End Cyclic.

(** ** Example schemas *)

(** An object with two properties. *)
Definition point : json :=
  JObj [("type", JStr "object");
        ("properties",
         JObj [("x", JObj [("type", JStr "number")]);
               ("y", JObj [("type", JStr "number")])])].

(** An enum without values. *)
Definition emptyEnum : json := JObj [("type", JStr "string"); ("enum", JArr [])].

(** [id] is required, [name] is not, [tag] is required and nullable. *)
Definition item : json :=
  JObj [("type", JStr "object");
        ("properties",
         JObj [("id", JObj [("type", JStr "number")]);
               ("name", JObj [("type", JStr "string")]);
               ("tag", JObj [("type", JStr "string"); ("nullable", JBool true)])]);
        ("required", JArr [JStr "id"; JStr "tag"])].

(** An object with three string properties. *)
Definition obj3 (a b c : string) : json :=
  JObj [("type", JStr "object");
        ("properties",
         JObj [(a, JObj [("type", JStr "string")]);
               (b, JObj [("type", JStr "string")]);
               (c, JObj [("type", JStr "string")])])].

(** An index whose only component is called [NestedType1]. *)
Definition clashing_index : gmap string string :=
  <[JSON_stringify (obj3 "a" "b" "c") := "NestedType1"]> ∅.

(** The state after an unnamed schema, then the component, were hoisted. *)
Definition clashing_state : MCPGenerator :=
  {| extractedSchemas :=
       [(JSON_stringify (obj3 "x" "y" "z"),
         {| schema := obj3 "x" "y" "z"; name := "NestedType1" |});
        (JSON_stringify (obj3 "a" "b" "c"),
         {| schema := obj3 "a" "b" "c"; name := "NestedType1" |})];
     schemaCounter := 1;
     componentSchemas := clashing_index |}.

(** A component of three properties, and the index that names it. *)
Definition repository : json :=
  JObj [("type", JStr "object");
        ("properties",
         JObj [("id", JObj [("type", JStr "number")]);
               ("name", JObj [("type", JStr "string")]);
               ("private", JObj [("type", JStr "boolean")])])].

Definition repository_index : gmap string string :=
  <[JSON_stringify repository := "Repository"]> ∅.

(** The same two properties, inserted in the two orders. *)
Definition pair_ab : json :=
  JObj [("type", JStr "object");
        ("properties",
         JObj [("a", JObj [("type", JStr "string")]);
               ("b", JObj [("type", JStr "number")])])].

Definition pair_ba : json :=
  JObj [("type", JStr "object");
        ("properties",
         JObj [("b", JObj [("type", JStr "number")]);
               ("a", JObj [("type", JStr "string")])])].

(** ** Reading a serialization back *)

(** Used to show that the serialization determines the value. *)
Definition hexval (c : ascii) : nat :=
  let n := nat_of_ascii c in if (n <? 58)%nat then n - 48 else n - 87.

(** Reads back one quoted code unit from the front of a string. *)
Definition unquote1 (s : string) : option (ascii * string) :=
  match s with
  | String c r =>
      if Ascii.eqb c backslash then
        match r with
        | String e r' =>
            if Ascii.eqb e "b" then Some (ascii_of_nat 8, r')
            else if Ascii.eqb e "t" then Some (ascii_of_nat 9, r')
            else if Ascii.eqb e "n" then Some (ascii_of_nat 10, r')
            else if Ascii.eqb e "f" then Some (ascii_of_nat 12, r')
            else if Ascii.eqb e "r" then Some (ascii_of_nat 13, r')
            else if Ascii.eqb e "u" then
              match r' with
              | String _ (String _ (String h1 (String h2 r''))) =>
                  Some (ascii_of_nat (16 * hexval h1 + hexval h2), r'')
              | _ => None
              end
            else Some (e, r')
        | EmptyString => None
        end
      else Some (c, r)
  | EmptyString => None
  end.

(** What may follow a value inside a serialization: nothing, or one of
    [,], [\]] and [}]. *)
Definition delimited (x : string) : Prop :=
  match x with
  | EmptyString => True
  | String c _ => c = ","%char \/ c = "]"%char \/ c = "}"%char
  end.

Definition is_digit (c : ascii) : bool :=
  let n := nat_of_ascii c in ((48 <=? n) && (n <=? 57))%nat.

(** The first character of a serialization tells the kind of the value. *)
Definition kind (v : json) : nat :=
  match v with
  | JNull => 0 | JBool _ => 1 | JNum _ => 2 | JStr _ => 3 | JArr _ => 4 | JObj _ => 5
  end.

Definition kind_of_head (c : ascii) : nat :=
  if Ascii.eqb c "n" then 0
  else if Ascii.eqb c "t" || Ascii.eqb c "f" then 1
  else if Ascii.eqb c "-" || is_digit c then 2
  else if Ascii.eqb c dquote then 3
  else if Ascii.eqb c "[" then 4
  else if Ascii.eqb c "{" then 5
  else 6.

(** ** Names of tools and of the server *)

(** The strings of the model are the JavaScript strings whose code units
    are all below 256.  On these, [toLowerCase] maps [A]-[Z] and the
    capital letters of Latin-1 (192 to 222, the multiplication sign 215
    apart) to the code unit 32 above, and leaves every other code unit.
    JavaScript's [toLowerCase] covers all of Unicode, and some code units
    of 256 and more lower-case to a letter of [a-z] (U+212A, the Kelvin
    sign, gives [k]; U+0130 gives [i] and a combining dot).  Such strings
    are outside the model, and the statements below are worded so as to
    hold of them too: they speak of the letters and digits of the
    lower-cased argument, or of what follows when the argument holds a
    letter of [A-Za-z] or a digit. *)
Definition is_upper (c : ascii) : bool :=
  let n := nat_of_ascii c in ((65 <=? n) && (n <=? 90))%nat.

Definition is_lower (c : ascii) : bool :=
  let n := nat_of_ascii c in ((97 <=? n) && (n <=? 122))%nat.

Definition toLowerCase_unit (c : ascii) : ascii :=
  let n := nat_of_ascii c in
  if is_upper c || ((192 <=? n) && (n <=? 222) && negb (n =? 215))%nat
  then ascii_of_nat (n + 32)
  else c.

Fixpoint toLowerCase (s : string) : string :=
  match s with
  | EmptyString => EmptyString
  | String c s' => String (toLowerCase_unit c) (toLowerCase s')
  end.

(** [s.replace(/([A-Z])/g, '_$1')]. *)
Fixpoint underscoreCapitals (s : string) : string :=
  match s with
  | EmptyString => EmptyString
  | String c s' =>
      if is_upper c then String "_" (String c (underscoreCapitals s'))
      else String c (underscoreCapitals s')
  end.

(** The three replacements [toSnakeCase] and [sanitizeName] share; [sep] is
    [_] in the first and [-] in the second. *)
Section Separator.
Variable sep : ascii.

(** The class [[a-z0-9<sep>]]. *)
Definition kept (c : ascii) : bool := is_lower c || is_digit c || Ascii.eqb c sep.

(** [s.replace(/[^a-z0-9<sep>]/g, '<sep>')]. *)
Fixpoint replaceOthers (s : string) : string :=
  match s with
  | EmptyString => EmptyString
  | String c s' => String (if kept c then c else sep) (replaceOthers s')
  end.

(** [s.replace(/<sep>+/g, '<sep>')]: every run of separators becomes one. *)
Fixpoint squeeze (s : string) : string :=
  match s with
  | EmptyString => EmptyString
  | String c s' =>
      if Ascii.eqb c sep then
        match s' with
        | String d _ => if Ascii.eqb d sep then squeeze s' else String c (squeeze s')
        | EmptyString => String c EmptyString
        end
      else String c (squeeze s')
  end.

Definition dropFirst (s : string) : string :=
  match s with
  | String c s' => if Ascii.eqb c sep then s' else s
  | EmptyString => EmptyString
  end.

Fixpoint dropLast (s : string) : string :=
  match s with
  | EmptyString => EmptyString
  | String c s' =>
      match s' with
      | EmptyString => if Ascii.eqb c sep then EmptyString else s
      | String _ _ => String c (dropLast s')
      end
  end.

(** [s.replace(/^<sep>|<sep>$/g, '')]: a separator at the start and one at
    the end are removed (a string that is one separator matches once). *)
Definition trimOne (s : string) : string := dropLast (dropFirst s).

Fixpoint all_units (p : ascii -> bool) (s : string) : bool :=
  match s with
  | EmptyString => true
  | String c s' => p c && all_units p s'
  end.

(** Two separators in a row somewhere in [s]. *)
Fixpoint doubled (s : string) : bool :=
  match s with
  | EmptyString => false
  | String c s' =>
      match s' with
      | String d _ => (Ascii.eqb c sep && Ascii.eqb d sep) || doubled s'
      | EmptyString => false
      end
  end.

Definition starts (s : string) : bool :=
  match s with
  | String c _ => Ascii.eqb c sep
  | EmptyString => false
  end.

Fixpoint ends (s : string) : bool :=
  match s with
  | EmptyString => false
  | String c s' =>
      match s' with
      | EmptyString => Ascii.eqb c sep
      | String _ _ => ends s'
      end
  end.

(** Words of lower-case letters and digits joined by single separators:
    only [[a-z0-9<sep>]], no separator first or last, no two in a row. *)
Definition normal (s : string) : bool :=
  all_units kept s && negb (doubled s) && negb (starts s) && negb (ends s).

End Separator.

Definition toSnakeCase (str : string) : string :=
  trimOne "_" (squeeze "_" (replaceOthers "_" (toLowerCase (underscoreCapitals str)))).

Definition sanitizeName (name_ : string) : string :=
  trimOne "-" (squeeze "-" (replaceOthers "-" (toLowerCase name_))).

(** [letter.toUpperCase()] for a [letter] of [[a-z]]. *)
Definition toUpperCase_letter (c : ascii) : ascii := ascii_of_nat (nat_of_ascii c - 32).

(** The Handlebars helper [camelCase]:
    [str.replace(/_([a-z])/g, (_, letter) => letter.toUpperCase())]. *)
Fixpoint camelCase (str : string) : string :=
  match str with
  | EmptyString => EmptyString
  | String c s' =>
      if Ascii.eqb c "_" then
        match s' with
        | String letter s'' =>
            if is_lower letter then String (toUpperCase_letter letter) (camelCase s'')
            else String c (camelCase s')
        | EmptyString => String c EmptyString
        end
      else String c (camelCase s')
  end.

(** The code units of [s] that satisfy [p], in order. *)
Fixpoint keep_units (p : ascii -> bool) (s : string) : string :=
  match s with
  | EmptyString => EmptyString
  | String c s' => if p c then String c (keep_units p s') else keep_units p s'
  end.

Definition is_lower_or_digit (c : ascii) : bool := is_lower c || is_digit c.

Definition is_alphanumeric (c : ascii) : bool := is_upper c || is_lower c || is_digit c.

(** [s.replace(/<x>/g, '')]. *)
Fixpoint removeAll (x : ascii) (s : string) : string :=
  match s with
  | EmptyString => EmptyString
  | String c s' => if Ascii.eqb c x then removeAll x s' else String c (removeAll x s')
  end.

(** [s.split(sep)] for a separator of one character. *)
Fixpoint String_split (sep : ascii) (s : string) : list string :=
  match s with
  | EmptyString => [""]
  | String c s' =>
      if Ascii.eqb c sep then "" :: String_split sep s'
      else match String_split sep s' with
           | x :: l => String c x :: l
           | [] => [str1 c]
           end
  end.

(** [a || b] where [a] is an optional string. *)
Definition or_string (a : option string) (b : string) : string :=
  match a with
  | Some s => if String.eqb s "" then b else s
  | None => b
  end.

(** ** Endpoints *)

(** An endpoint of the unified [APISchema], with the fields and the types
    [APIEndpoint] declares; the schemas stay the untyped values they are. *)
Record APIParameter : Type := {
  parameter_name : string;
  parameter_in : string;
  parameter_required : bool;
  parameter_description : option string;
  parameter_schema : json
}.

Record APIRequestBody : Type := {
  body_required : bool;
  body_content : json
}.

Record APIResponse : Type := {
  response_description : string;
  response_content : option json
}.

(** [responses] is only looked up by status code. *)
Record APIEndpoint : Type := {
  endpoint_path : string;
  endpoint_method : string;
  endpoint_operationId : option string;
  endpoint_summary : option string;
  endpoint_description : option string;
  endpoint_tags : list string;
  endpoint_parameters : list APIParameter;
  endpoint_requestBody : option APIRequestBody;
  endpoint_responses : gmap string APIResponse;
  endpoint_security : option json;
  endpoint_deprecated : bool
}.

Definition generateToolName (endpoint : APIEndpoint) : string :=
  let fromPath :=
    let method := toLowerCase (endpoint_method endpoint) in
    let pathParts :=
      join "_" (List.filter (fun p => negb (String.eqb p "") && negb (String.prefix "{" p))
                            (String_split "/" (endpoint_path endpoint))) in
    toSnakeCase (method +:+ "_" +:+ pathParts) in
  match endpoint_operationId endpoint with
  | Some operationId => if String.eqb operationId "" then fromPath else toSnakeCase operationId
  | None => fromPath
  end.

(** [apiSchema.endpoints.find(...)]: the first endpoint whose generated name
    is [toolName]. *)
Definition findEndpointForTool (toolName : string) (endpoints : list APIEndpoint) :
    option APIEndpoint :=
  List.find (fun e => String.eqb (generateToolName e) toolName) endpoints.

(** ** Parameters of a tool *)

Definition schemaToType (schema_ : json) : string :=
  if negb (truthy schema_) || negb (is_object schema_) then "string"
  else if type_is "integer" schema_ || type_is "number" schema_ then "number"
  else if type_is "boolean" schema_ then "boolean"
  else if type_is "object" schema_ then "object"
  else if type_is "array" schema_ then "array"
  else "string".

Definition typeToJsonSchemaType (type : string) : string :=
  if String.eqb type "string" then "string"
  else if String.eqb type "number" then "number"
  else if String.eqb type "boolean" then "boolean"
  else if String.eqb type "object" then "object"
  else if String.eqb type "array" then "array"
  else "string".

(** The five values of [MCPToolParameter['type']]. *)
Definition parameterTypes : list string := ["string"; "number"; "boolean"; "object"; "array"].

(** A parameter as [extractParameters] builds it; [tp_fields] holds its
    [type], [enum] and [items]. *)
Record toolParameter : Type := {
  tp_name : string;
  tp_description : json;
  tp_required : bool;
  tp_fields : MCPToolParameter
}.

(** [v?.k]. *)
Definition optional_chain (k : string) (v : json) : option json :=
  match v with
  | JNull => None
  | _ => prop k v
  end.

(** The parameter pushed for a path, query or header parameter. *)
Definition declaredParameter (param : APIParameter) : toolParameter :=
  let schema_ := parameter_schema param in
  {| tp_name := parameter_name param;
     tp_description :=
       JStr (or_string (parameter_description param) (parameter_name param +:+ " parameter"));
     tp_required := parameter_required param;
     tp_fields := {| param_type := schemaToType schema_;
                     param_enum := optional_chain "enum" schema_;
                     param_items := optional_chain "items" schema_ |} |}.

(** The parameter pushed for the property [name] of the request body. *)
Definition bodyParameter (required : json) (entry : string * json) : result toolParameter :=
  let name_ := fst entry in
  let propSchema := snd entry in
  bindR (read "description" propSchema) (fun description =>
  bindR (includes required name_) (fun isRequired =>
    Ok {| tp_name := name_;
          tp_description :=
            match description with
            | Some d => if truthy d then d else JStr (name_ +:+ " from request body")
            | None => JStr (name_ +:+ " from request body")
            end;
          tp_required := isRequired;
          tp_fields := {| param_type := schemaToType propSchema;
                          param_enum := prop "enum" propSchema;
                          param_items := prop "items" propSchema |} |})).

(** A loop whose body may throw. *)
Fixpoint mapR {A B : Type} (f : A -> result B) (l : list A) : result (list B) :=
  match l with
  | [] => Ok []
  | x :: l' => bindR (f x) (fun y => bindR (mapR f l') (fun ys => Ok (y :: ys)))
  end.

(** [content['application/json'] || content['application/x-www-form-urlencoded']
    || Object.values(content)[0]]. *)
Definition bodyContent (content : json) : option json :=
  match tprop "application/json" content with
  | Some c => Some c
  | None =>
      match tprop "application/x-www-form-urlencoded" content with
      | Some c => Some c
      | None => head (map snd (Object_entries content))
      end
  end.

Definition extractParameters (endpoint : APIEndpoint) : result (list toolParameter) :=
  let params := map declaredParameter (endpoint_parameters endpoint) in
  match endpoint_requestBody endpoint with
  | Some requestBody =>
      if truthy (body_content requestBody) then
        match bodyContent (body_content requestBody) with
        | Some content =>
            if truthy content && is_object content then
              match prop "schema" content with
              | Some schema_ =>
                  bindR (read "properties" schema_) (fun p =>
                    match p with
                    | Some properties =>
                        if truthy properties then
                          bindR (mapR (bodyParameter (required_or_empty schema_))
                                      (Object_entries properties))
                                (fun fromBody => Ok (params ++ fromBody)%list)
                        else Ok params
                    | None => Ok params
                    end)
              | None => Ok params
              end
            else Ok params
        | None => Ok params
        end
      else Ok params
  | None => Ok params
  end.

(** ** Tools *)

(** The array indices among the property keys: the canonical decimal form
    of an integer below [2^32 - 1]. *)
Definition arrayIndex (k : string) : option N :=
  match NilZero.uint_of_string k with
  | Some u =>
      let n := N.of_uint u in
      if String.eqb (NilZero.string_of_uint (N.to_uint n)) k && (n <? 4294967295)%N
      then Some n
      else None
  | None => None
  end.

Definition is_arrayIndex (k : string) : bool :=
  match arrayIndex k with Some _ => true | None => false end.

(** An object built by the code, as the list of its properties in the
    order [Object.entries] enumerates them: the array indices in ascending
    order, then the other keys in the order they were created. *)
Section Objects.
Context {V : Type}.

(** The properties whose keys are not array indices. *)
Definition namedEntries (o : list (string * V)) : list (string * V) :=
  List.filter (fun kv => negb (is_arrayIndex (fst kv))) o.

Fixpoint insertIndex (n : N) (k : string) (v : V) (o : list (string * V)) : list (string * V) :=
  match o with
  | [] => [(k, v)]
  | (k', v') :: o' =>
      match arrayIndex k' with
      | Some n' => if (n' <? n)%N then (k', v') :: insertIndex n k v o' else (k, v) :: o
      | None => (k, v) :: o
      end
  end.

(** [o[k] = v]. *)
Definition Object_set (k : string) (v : V) (o : list (string * V)) : list (string * V) :=
  if Map_has k o then Map_set k v o
  else match arrayIndex k with
       | Some n => insertIndex n k v o
       | None => (o ++ [(k, v)])%list
       end.

Definition Object_fromEntries (entries : list (string * V)) : list (string * V) :=
  fold_left (fun o kv => Object_set (fst kv) (snd kv) o) entries [].

End Objects.

(** The order of [Object.keys]: the array indices first, in ascending
    order (each above [lower]), then the other keys. *)
Fixpoint enumeratedFrom (lower : option N) (keys : list string) : bool :=
  match keys with
  | [] => true
  | k :: keys' =>
      match arrayIndex k with
      | Some n =>
          match lower with Some m => (m <? n)%N | None => true end
          && enumeratedFrom (Some n) keys'
      | None => forallb (fun k' => negb (is_arrayIndex k')) keys'
      end
  end.

Definition enumerated {V : Type} (o : list (string * V)) : bool :=
  enumeratedFrom None (map fst o).

(** An [MCPTool]; [tool_properties] and [tool_required] are the
    [properties] and [required] of its [inputSchema], whose [type] is the
    constant ['object']. *)
Record MCPTool : Type := {
  tool_name : string;
  tool_description : string;
  tool_properties : list (string * toolParameter);
  tool_required : list string;
  tool_handler : string
}.

Definition endpointToTool (endpoint : APIEndpoint) : result MCPTool :=
  let toolName := generateToolName endpoint in
  bindR (extractParameters endpoint) (fun parameters_ =>
    Ok {| tool_name := toolName;
          tool_description :=
            or_string (endpoint_summary endpoint)
              (or_string (endpoint_description endpoint)
                 ("Call " +:+ endpoint_method endpoint +:+ " " +:+ endpoint_path endpoint));
          tool_properties := Object_fromEntries (map (fun p => (tp_name p, p)) parameters_);
          tool_required := map tp_name (List.filter tp_required parameters_);
          tool_handler := removeAll "_" toolName |}).

(** [r?.content?.['application/json']?.schema]. *)
Definition jsonSchemaOf (r : option APIResponse) : option json :=
  match r with
  | Some resp =>
      match response_content resp with
      | Some content =>
          match optional_chain "application/json" content with
          | Some media => optional_chain "schema" media
          | None => None
          end
      | None => None
      end
  | None => None
  end.

(** The [responseSchema] [generateTypeScriptFiles] takes from the endpoint
    it found for a tool: that of the 200 response, or else of the 201. *)
Definition responseSchemaOf (endpoint : option APIEndpoint) : option json :=
  match endpoint with
  | Some e =>
      let responses := endpoint_responses e in
      match jsonSchemaOf (responses !! "200") with
      | Some s => if truthy s then Some s else jsonSchemaOf (responses !! "201")
      | None => jsonSchemaOf (responses !! "201")
      end
  | None => None
  end.

(** ** The parser's operations *)

(** The operations of a validated document, with the fields the parser
    reads, typed as [openapi-types] declares them.  [p_type] is read for
    OpenAPI 2.0 only. *)
Record ParameterObject : Type := {
  p_name : string;
  p_in : string;
  p_required : option bool;
  p_description : option string;
  p_schema : option json;
  p_type : option json
}.

Record V2ResponseObject : Type := {
  v2_response_description : string;
  v2_response_schema : option json
}.

(** [v2_responses] and [v3_responses] are [Object.entries(operation.responses)]. *)
Record V2OperationObject : Type := {
  v2_operationId : option string;
  v2_summary : option string;
  v2_description : option string;
  v2_tags : option (list string);
  v2_parameters : option (list ParameterObject);
  v2_responses : list (string * V2ResponseObject);
  v2_deprecated : option bool
}.

Record V3ResponseObject : Type := {
  v3_response_description : string;
  v3_response_content : option json
}.

Record V3RequestBodyObject : Type := {
  v3_body_required : option bool;
  v3_body_content : option json
}.

Record V3OperationObject : Type := {
  v3_operationId : option string;
  v3_summary : option string;
  v3_description : option string;
  v3_tags : option (list string);
  v3_parameters : option (list ParameterObject);
  v3_requestBody : option V3RequestBodyObject;
  v3_responses : list (string * V3ResponseObject);
  v3_security : option json;
  v3_deprecated : option bool
}.

(** [{ k: v }] where [v] may be [undefined]: such a property reads and
    serializes as an absent one. *)
Definition optional_field (k : string) (v : option json) : list (string * json) :=
  match v with
  | Some x => [(k, x)]
  | None => []
  end.

(** [v || d]. *)
Definition or_json (v : option json) (d : json) : json :=
  match v with
  | Some x => if truthy x then x else d
  | None => d
  end.

Definition parseV2Parameter (p : ParameterObject) : APIParameter :=
  {| parameter_name := p_name p;
     parameter_in := p_in p;
     parameter_required := or_default false (p_required p);
     parameter_description := p_description p;
     parameter_schema := or_json (p_schema p) (JObj (optional_field "type" (p_type p))) |}.

(** The value [parseV2Responses] stores under a status code. *)
Definition parseV2Response (resp : V2ResponseObject) : APIResponse :=
  {| response_description := v2_response_description resp;
     response_content :=
       match v2_response_schema resp with
       | Some schema_ =>
           if truthy schema_ then Some (JObj [("application/json", schema_)]) else None
       | None => None
       end |}.

Definition parseV2Responses (responses : list (string * V2ResponseObject)) :
    gmap string APIResponse :=
  fold_left (fun result_ entry => <[fst entry := parseV2Response (snd entry)]> result_)
            responses ∅.

Definition parseV2Operation (path : string) (method : string)
    (operation : V2OperationObject) : APIEndpoint :=
  let parameters_ := map parseV2Parameter (or_default [] (v2_parameters operation)) in
  let requestBody :=
    match v2_parameters operation with
    | Some ps => List.find (fun p => String.eqb (p_in p) "body") ps
    | None => None
    end in
  {| endpoint_path := path;
     endpoint_method := method;
     endpoint_operationId := v2_operationId operation;
     endpoint_summary := v2_summary operation;
     endpoint_description := v2_description operation;
     endpoint_tags := or_default [] (v2_tags operation);
     endpoint_parameters := parameters_;
     endpoint_requestBody :=
       match requestBody with
       | Some b =>
           Some {| body_required := or_default false (p_required b);
                   body_content :=
                     JObj [("application/json", or_json (p_schema b) (JObj []))] |}
       | None => None
       end;
     endpoint_responses := parseV2Responses (v2_responses operation);
     endpoint_security := None;
     endpoint_deprecated := or_default false (v2_deprecated operation) |}.

Definition parseV3Parameter (p : ParameterObject) : APIParameter :=
  {| parameter_name := p_name p;
     parameter_in := p_in p;
     parameter_required := or_default false (p_required p);
     parameter_description := p_description p;
     parameter_schema := or_json (p_schema p) (JObj []) |}.

(** The value [parseV3Responses] stores under a status code. *)
Definition parseV3Response (resp : V3ResponseObject) : APIResponse :=
  {| response_description := v3_response_description resp;
     response_content := v3_response_content resp |}.

Definition parseV3Responses (responses : list (string * V3ResponseObject)) :
    gmap string APIResponse :=
  fold_left (fun result_ entry => <[fst entry := parseV3Response (snd entry)]> result_)
            responses ∅.

Definition parseV3Operation (path : string) (method : string)
    (operation : V3OperationObject) : APIEndpoint :=
  {| endpoint_path := path;
     endpoint_method := method;
     endpoint_operationId := v3_operationId operation;
     endpoint_summary := v3_summary operation;
     endpoint_description := v3_description operation;
     endpoint_tags := or_default [] (v3_tags operation);
     endpoint_parameters := map parseV3Parameter (or_default [] (v3_parameters operation));
     endpoint_requestBody :=
       match v3_requestBody operation with
       | Some b =>
           Some {| body_required := or_default false (v3_body_required b);
                   body_content := or_json (v3_body_content b) (JObj []) |}
       | None => None
       end;
     endpoint_responses := parseV3Responses (v3_responses operation);
     endpoint_security := v3_security operation;
     endpoint_deprecated := or_default false (v3_deprecated operation) |}.

(** ** Authentication *)

(** [APISchema['authentication']]. *)
Record authentication : Type := {
  auth_type : string;
  auth_config : option json
}.

Definition noAuth : authentication := {| auth_type := "none"; auth_config := None |}.

(** [const [_firstKey, first] = Object.entries(o)[0]]: destructuring
    [undefined] throws. *)
Definition firstEntry (o : json) : result json :=
  match Object_entries o with
  | (_, first) :: _ => Ok first
  | [] => Throw (TypeError "undefined is not iterable")
  end.

(** [securityDefinitions] is [api.securityDefinitions]. *)
Definition parseV2Auth (securityDefinitions : option json) : result authentication :=
  match securityDefinitions with
  | Some defs =>
      if negb (truthy defs) || (length (Object_keys defs) =? 0)%nat then Ok noAuth
      else
        bindR (firstEntry defs) (fun firstDef =>
        bindR (read "type" firstDef) (fun _ =>
          if type_is "apiKey" firstDef then
            Ok {| auth_type := "apiKey";
                  auth_config :=
                    Some (JObj (optional_field "name" (prop "name" firstDef)
                                  ++ optional_field "in" (prop "in" firstDef))) |}
          else if type_is "oauth2" firstDef then
            Ok {| auth_type := "oauth2";
                  auth_config :=
                    Some (JObj (optional_field "flow" (prop "flow" firstDef)
                                  ++ optional_field "scopes" (prop "scopes" firstDef))) |}
          else if type_is "basic" firstDef then Ok {| auth_type := "basic"; auth_config := None |}
          else Ok noAuth))
  | None => Ok noAuth
  end.

(** [securitySchemes] is [api.components?.securitySchemes]. *)
Definition parseV3Auth (securitySchemes : option json) : result authentication :=
  match securitySchemes with
  | Some schemes =>
      if negb (truthy schemes) then Ok noAuth
      else
        bindR (firstEntry schemes) (fun scheme =>
        bindR (read "type" scheme) (fun _ =>
          if type_is "apiKey" scheme then
            Ok {| auth_type := "apiKey";
                  auth_config :=
                    Some (JObj (optional_field "name" (prop "name" scheme)
                                  ++ optional_field "in" (prop "in" scheme))) |}
          else if type_is "http" scheme then
            match prop "scheme" scheme with
            | Some (JStr s) =>
                if String.eqb s "bearer" then
                  Ok {| auth_type := "bearer";
                        auth_config :=
                          Some (JObj (optional_field "bearerFormat"
                                                     (prop "bearerFormat" scheme))) |}
                else if String.eqb s "basic" then
                  Ok {| auth_type := "basic"; auth_config := None |}
                else Ok noAuth
            | _ => Ok noAuth
            end
          else if type_is "oauth2" scheme then
            Ok {| auth_type := "oauth2"; auth_config := prop "flows" scheme |}
          else Ok noAuth))
  | None => Ok noAuth
  end.

(** ** Vocabulary of the statements about runs *)

(** The names of the entries of the table whose key has no component
    name, in the order of the table. *)
Definition fallbackNames (this : MCPGenerator) : list string :=
  map (fun kv => name (snd kv))
      (List.filter (fun kv => match componentName_of this (fst kv) with
                              | Some _ => false
                              | None => true
                              end)
                   (extractedSchemas this)).

(** All the names [responseSchemaMap] holds, group after group. *)
Definition allNames {S : Type} (m : list (string * responseGroup S)) : list string :=
  concat (map (fun kv => names (snd kv)) m).

(** [if (tool.responseSchema)]. *)
Definition hasResponse {S : Type} (truthyS : S -> bool) (t : option S * string) : bool :=
  match fst t with
  | Some s => truthyS s
  | None => false
  end.





(** ** Example endpoints and operations *)

(** [GET /users/{id}], with an [operationId]. *)
Definition getUser : APIEndpoint :=
  {| endpoint_path := "/users/{id}";
     endpoint_method := "GET";
     endpoint_operationId := Some "getUser";
     endpoint_summary := Some "Get a user";
     endpoint_description := None;
     endpoint_tags := [];
     endpoint_parameters :=
       [{| parameter_name := "id";
           parameter_in := "path";
           parameter_required := true;
           parameter_description := None;
           parameter_schema := JObj [("type", JStr "integer")] |}];
     endpoint_requestBody := None;
     endpoint_responses := ∅;
     endpoint_security := None;
     endpoint_deprecated := false |}.

(** [GET /users], without one. *)
Definition listUsers : APIEndpoint :=
  {| endpoint_path := "/users";
     endpoint_method := "GET";
     endpoint_operationId := None;
     endpoint_summary := None;
     endpoint_description := None;
     endpoint_tags := [];
     endpoint_parameters := [];
     endpoint_requestBody := None;
     endpoint_responses := ∅;
     endpoint_security := None;
     endpoint_deprecated := false |}.

(** An OpenAPI 2.0 operation whose body and whose 200 response are [item]. *)
Definition addItem_v2 : V2OperationObject :=
  {| v2_operationId := Some "addItem";
     v2_summary := None;
     v2_description := None;
     v2_tags := None;
     v2_parameters :=
       Some [{| p_name := "body";
                p_in := "body";
                p_required := Some true;
                p_description := None;
                p_schema := Some item;
                p_type := None |}];
     v2_responses :=
       [("200", {| v2_response_description := "The item"; v2_response_schema := Some item |})];
     v2_deprecated := None |}.

(** [{ 'application/json': { schema: item } }]. *)
Definition jsonItem : json := JObj [("application/json", JObj [("schema", item)])].

(** An OpenAPI 3 operation with a path parameter [id], whose body and whose
    200 response are [item]: [id] is also a property of the body. *)
Definition updateItem_v3 : V3OperationObject :=
  {| v3_operationId := Some "updateItem";
     v3_summary := None;
     v3_description := None;
     v3_tags := None;
     v3_parameters :=
       Some [{| p_name := "id";
                p_in := "path";
                p_required := Some true;
                p_description := Some "The item to update";
                p_schema := Some (JObj [("type", JStr "string")]);
                p_type := None |}];
     v3_requestBody :=
       Some {| v3_body_required := Some true; v3_body_content := Some jsonItem |};
     v3_responses :=
       [("200", {| v3_response_description := "The item"; v3_response_content := Some jsonItem |})];
     v3_security := None;
     v3_deprecated := None |}.

Definition updateItem : APIEndpoint := parseV3Operation "/items/{id}" "PUT" updateItem_v3.

(** A document with two components of the same shape. *)
Definition twoNames : json :=
  JObj [("components",
         JObj [("schemas", JObj [("User", repository); ("Owner", repository)])])].

(** A tool whose response is a list of [repository]. *)
Definition listRepositories : tool :=
  {| parameters := [];
     responseSchema := Some (JObj [("type", JStr "array"); ("items", repository)]);
     responseTypeName := "ListRepositoriesResponse" |}.


(** Hoistable schemas nested three deep, and a response that holds the
    outermost of them. *)
Definition innermost : json := obj3 "x" "y" "z".

Definition middle : json :=
  JObj [("type", JStr "object");
        ("properties",
         JObj [("inner", innermost);
               ("b", JObj [("type", JStr "string")]);
               ("c", JObj [("type", JStr "string")])])].

Definition outermost : json :=
  JObj [("type", JStr "object");
        ("properties",
         JObj [("middle", middle);
               ("d", JObj [("type", JStr "string")]);
               ("e", JObj [("type", JStr "string")])])].

Definition deepResponse : tool :=
  {| parameters := [];
     responseSchema :=
       Some (JObj [("type", JStr "object"); ("properties", JObj [("outer", outermost)])]);
     responseTypeName := "GetDeepResponse" |}.

(** An array whose items are a hoistable object schema with an [enum]. *)
Definition enumItems : json :=
  JObj [("type", JStr "array");
        ("items",
         JObj [("type", JStr "object");
               ("enum", JArr [JStr "a"; JStr "b"]);
               ("properties",
                JObj [("x", JObj [("type", JStr "string")]);
                      ("y", JObj [("type", JStr "string")]);
                      ("z", JObj [("type", JStr "string")])])])].

(** An object schema whose properties are called [description], [enum] and
    [required]. *)
Definition review : json :=
  JObj [("type", JStr "object");
        ("description", JStr "A review");
        ("properties",
         JObj [("description", JObj [("type", JStr "string")]);
               ("enum", JObj [("type", JStr "array");
                              ("items", JObj [("type", JStr "string")])]);
               ("required", JObj [("type", JStr "boolean")])]);
        ("required", JArr [JStr "description"])].

(** * Properties *)

(** ** The data model and the monad *)

(** Induction principle that reaches the values nested in arrays and objects. *)
Lemma json_ind' (P : json -> Prop)
  (Hnull : P JNull)
  (Hbool : forall b, P (JBool b))
  (Hnum : forall n, P (JNum n))
  (Hstr : forall s, P (JStr s))
  (Harr : forall elems, Forall P elems -> P (JArr elems))
  (Hobj : forall fields, Forall (fun kv => P (snd kv)) fields -> P (JObj fields)) :
  forall v, P v.
Proof.
  fix IH 1. intros [ | b | n | s | elems | fields ].
  - exact Hnull.
  - apply Hbool.
  - apply Hnum.
  - apply Hstr.
  - apply Harr. induction elems as [ | x xs IHxs ]; constructor; [ apply IH | exact IHxs ].
  - apply Hobj. induction fields as [ | [k x] xs IHxs ]; constructor; [ apply IH | exact IHxs ].
Qed.

(** The same, reaching one level further: the values of
    [Object.entries] of each property. *)
Lemma json_ind_entries (P : json -> Prop)
  (Hnull : P JNull)
  (Hbool : forall b, P (JBool b))
  (Hnum : forall n, P (JNum n))
  (Hstr : forall s, P (JStr s))
  (Harr : forall elems, Forall P elems -> P (JArr elems))
  (Hobj : forall fields,
      Forall (fun kv => P (snd kv)
                        /\ Forall (fun kv' => P (snd kv')) (Object_entries (snd kv)))
             fields ->
      P (JObj fields)) :
  forall v, P v.
Proof.
  assert (Hindexed : forall (l : list json) i,
             Forall P l -> Forall (fun kv => P (snd kv)) (indexed i l)).
  { intros l i H. revert i. induction H as [ | x l Hx _ IHl ]; intros i; simpl;
      constructor; auto. }
  assert (H : forall v, P v /\ Forall (fun kv => P (snd kv)) (Object_entries v)).
  { induction v as [ | b | n | s | elems IH | fields IH ] using json_ind';
      cbn [Object_entries]; split; auto.
    - apply Hindexed. induction s as [ | c s IHs ]; simpl; constructor; auto.
    - apply Harr. eapply List.Forall_impl; [ | exact IH ]. intros x Hx. apply Hx.
    - apply Hindexed. eapply List.Forall_impl; [ | exact IH ]. intros x Hx. apply Hx.
    - eapply List.Forall_impl; [ | exact IH ]. intros x Hx. apply Hx. }
  intros v. apply H.
Qed.

Lemma bind_Ok {A B : Type} (m : M A) (k : A -> M B) this b this2 :
  bind m k this = Ok (b, this2) <->
  exists a this1, m this = Ok (a, this1) /\ k a this1 = Ok (b, this2).
Proof.
  unfold bind. split.
  - destruct (m this) as [[a this1] | e]; [ | discriminate ]. eauto.
  - intros (a & this1 & -> & Hk). exact Hk.
Qed.

Lemma lift_Ok {A : Type} (r : result A) this a this' :
  lift r this = Ok (a, this') <-> r = Ok a /\ this' = this.
Proof.
  unfold lift. destruct r as [a0 | e]; split.
  - intros [= -> ->]. auto.
  - intros [[= ->] ->]. reflexivity.
  - discriminate.
  - intros [[=] _].
Qed.

Lemma steps_trans this1 this2 this3 :
  steps this1 this2 -> steps this2 this3 -> steps this1 this3.
Proof.
  intros H12 H23. induction H23 as [ | this2 this3 s n this4 _ IH Hs He ]; [ exact H12 | ].
  exact (steps_extract _ _ _ _ _ (IH H12) Hs He).
Qed.

Lemma preserves_ret {A : Type} (a : A) : preserves (ret a).
Proof. intros this a' this' [= _ <-]. constructor. Qed.

Lemma preserves_lift {A : Type} (r : result A) : preserves (lift r).
Proof. intros this a this' H. apply lift_Ok in H as [_ ->]. constructor. Qed.

Lemma preserves_get_this : preserves get_this.
Proof. intros this a this' [= _ <-]. constructor. Qed.

Lemma preserves_bind {A B : Type} (m : M A) (k : A -> M B) :
  preserves m -> (forall a, preserves (k a)) -> preserves (bind m k).
Proof.
  intros Hm Hk this b this2 H. apply bind_Ok in H as (a & this1 & H1 & H2).
  eapply steps_trans; [ eapply Hm | eapply Hk ]; eauto.
Qed.

Lemma preserves_extract s : hoistable s = true -> preserves (extractNestedSchema s).
Proof. intros Hs this n this' H. eapply steps_extract; eauto. constructor. Qed.

Lemma preserves_mapM {A B : Type} (f : A -> M B) (l : list A) :
  Forall (fun x => preserves (f x)) l -> preserves (mapM f l).
Proof.
  induction 1 as [ | x l Hx _ IH ]; simpl.
  - apply preserves_ret.
  - apply preserves_bind; [ exact Hx | intros y ].
    apply preserves_bind; [ exact IH | intros ys ]. apply preserves_ret.
Qed.

(** ** The recursive methods, in the shape of their source *)

Lemma assoc_with_assoc {B : Type} (self : json -> B) k l :
  assoc_with self k l = option_map self (assoc k l).
Proof.
  induction l as [ | [k' x] l IH ]; simpl; [ reflexivity | ].
  destruct (String.eqb k' k); [ reflexivity | exact IH ].
Qed.

Lemma indexed_with_indexed {B : Type} (self : json -> B) i l :
  indexed_with self i l = indexed i (map self l).
Proof.
  revert i. induction l as [ | x l IH ]; intros i; simpl; [ reflexivity | ].
  now rewrite IH.
Qed.

Lemma indexed_map {A B : Type} (f : A -> B) i l :
  indexed i (map f l) = map (fun kv => (fst kv, f (snd kv))) (indexed i l).
Proof.
  revert i. induction l as [ | x l IH ]; intros i; simpl; [ reflexivity | ].
  now rewrite IH.
Qed.

(** [schemaToZodType] recurses on [s.items] only. *)
Lemma schemaToZodType_eq s :
  schemaToZodType s =
  schemaToZodType_body s
    (match prop "items" s with
     | Some items => schemaToZodType items
     | None => ret "unknown()"
     end).
Proof.
  destruct s; try reflexivity.
  cbn [schemaToZodType prop]. rewrite assoc_with_assoc.
  destruct (assoc "items" fields); reflexivity.
Qed.

(** [schemaToTypeScript] recurses on [s.items] and on the values of
    [Object.entries(s.properties)]. *)
Lemma schemaToTypeScript_eq s :
  schemaToTypeScript s =
  schemaToTypeScript_body s
    (match prop "items" s with
     | Some items => schemaToTypeScript items
     | None => ret "unknown"
     end)
    (match prop "properties" s with
     | Some properties =>
         map (fun kv => (fst kv, schemaToTypeScript (snd kv))) (Object_entries properties)
     | None => []
     end).
Proof.
  destruct s; try reflexivity.
  cbn [schemaToTypeScript prop]. rewrite !assoc_with_assoc.
  assert (Hentries : forall properties,
             entries_with schemaToTypeScript (ret "unknown") properties =
             map (fun kv => (fst kv, schemaToTypeScript (snd kv))) (Object_entries properties)).
  { intros [ | b | n | s | elems | props ]; try reflexivity; cbn [entries_with Object_entries].
    - rewrite <- indexed_map. f_equal.
      induction s as [ | c s IHs ]; [ reflexivity | ].
      cbn [chars map]. rewrite IHs. reflexivity.
    - now rewrite indexed_with_indexed, indexed_map. }
  destruct (assoc "items" fields) as [items | ];
    destruct (assoc "properties" fields) as [properties | ]; cbn [option_map or_default];
    rewrite ?Hentries; reflexivity.
Qed.

(** ** Every method stays inside a run *)

Ltac preserves_step :=
  match goal with
  | H : preserves ?m |- preserves ?m => exact H
  | |- preserves (ret _) => apply preserves_ret
  | |- preserves (lift _) => apply preserves_lift
  | |- preserves get_this => apply preserves_get_this
  | |- preserves (bind _ _) => apply preserves_bind; [ | intros ? ]
  | |- preserves (extractNestedSchema _) => apply preserves_extract
  | |- preserves (if ?b then _ else _) => destruct b eqn:?
  | |- preserves (match ?x with _ => _ end) => destruct x eqn:?
  end.

Ltac hoistable_tac :=
  unfold hoistable;
  repeat match goal with
         | H : (_ && _)%bool = true |- _ => apply andb_true_iff in H as [? ?]
         end;
  apply andb_true_iff; split; assumption.

Lemma assoc_In {V : Type} k (l : list (string * V)) x :
  assoc k l = Some x -> In (k, x) l.
Proof.
  induction l as [ | [k' y] l IH ]; simpl; [ discriminate | ].
  destruct (String.eqb_spec k' k) as [-> | _].
  - intros [= ->]. now left.
  - intros H. right. auto.
Qed.

Lemma schemaToZodType_body_preserves s r :
  preserves r -> preserves (schemaToZodType_body s r).
Proof.
  intros Hr. unfold schemaToZodType_body.
  repeat preserves_step; hoistable_tac.
Qed.

Lemma schemaToZodType_preserves s : preserves (schemaToZodType s).
Proof.
  induction s as [ | | | | elems _ | fields IH ] using json_ind';
    rewrite schemaToZodType_eq; apply schemaToZodType_body_preserves;
    try apply preserves_ret.
  cbn [prop]. destruct (assoc "items" fields) as [items | ] eqn:Hitems;
    [ | apply preserves_ret ].
  apply assoc_In in Hitems. rewrite List.Forall_forall in IH. exact (IH _ Hitems).
Qed.

Lemma schemaToTypeScript_body_preserves s r rp :
  preserves r -> Forall (fun e => preserves (snd e)) rp ->
  preserves (schemaToTypeScript_body s r rp).
Proof.
  intros Hr Hrp. unfold schemaToTypeScript_body.
  repeat preserves_step; try hoistable_tac.
  apply preserves_mapM. eapply List.Forall_impl; [ | exact Hrp ].
  intros e He. cbn beta in *. repeat preserves_step.
Qed.

Lemma schemaToTypeScript_preserves s : preserves (schemaToTypeScript s).
Proof.
  induction s as [ | | | | elems _ | fields IH ] using json_ind_entries;
    rewrite schemaToTypeScript_eq; apply schemaToTypeScript_body_preserves;
    try apply preserves_ret; try constructor.
  - cbn [prop]. destruct (assoc "items" fields) as [items | ] eqn:Hitems;
      [ | apply preserves_ret ].
    apply assoc_In in Hitems. rewrite List.Forall_forall in IH. apply (IH _ Hitems).
  - cbn [prop]. destruct (assoc "properties" fields) as [properties | ] eqn:Hprops;
      [ | constructor ].
    apply assoc_In in Hprops. rewrite List.Forall_forall in IH.
    destruct (IH _ Hprops) as [_ Hentries]. cbn [snd] in Hentries.
    rewrite List.Forall_map. exact Hentries.
Qed.

(** ** Strings and names *)

Lemma append_cons (x : ascii) (a b : string) : String x a +:+ b = String x (a +:+ b).
Proof. reflexivity. Qed.

Lemma append_nil_l (a : string) : "" +:+ a = a.
Proof. reflexivity. Qed.

Lemma append_assoc (a b c : string) : (a +:+ b) +:+ c = a +:+ (b +:+ c).
Proof.
  induction a as [ | x a IH ]; [ reflexivity | ].
  rewrite !append_cons. f_equal. exact IH.
Qed.

Lemma append_inv_head (a b c : string) : a +:+ b = a +:+ c -> b = c.
Proof.
  induction a as [ | x a IH ]; [ auto | ].
  rewrite !append_cons. intros [= H]. auto.
Qed.

Lemma append_nil_r (a : string) : a +:+ "" = a.
Proof.
  induction a as [ | x a IH ]; [ reflexivity | ].
  rewrite append_cons. f_equal. exact IH.
Qed.

Lemma Nat_toString_inj i j : Nat_toString i = Nat_toString j -> i = j.
Proof.
  unfold Nat_toString. intros H.
  assert (Hnonnil : forall n, Nat.to_uint n <> Decimal.Nil).
  { intros n. rewrite <- (Unsigned.of_to n) at 1. rewrite Unsigned.to_of.
    apply unorm_nonnil. }
  apply Unsigned.to_uint_inj.
  assert (Some (Nat.to_uint i) = Some (Nat.to_uint j)) as [= E]; [ | exact E ].
  rewrite <- (NilZero.usu _ (Hnonnil i)), <- (NilZero.usu _ (Hnonnil j)).
  now rewrite H.
Qed.

Lemma fallbackName_inj i j : fallbackName i = fallbackName j -> i = j.
Proof. unfold fallbackName. intros H. apply append_inv_head in H. now apply Nat_toString_inj. Qed.

(** ** The table of extracted schemas *)

Lemma Map_get_None_notin {V : Type} k (m : list (string * V)) :
  Map_get k m = None <-> ~ In k (map fst m).
Proof.
  unfold Map_get. induction m as [ | [k' v] m IH ]; simpl; [ tauto | ].
  destruct (String.eqb_spec k' k) as [-> | Hne].
  - split; [ discriminate | intros H; exfalso; apply H; now left ].
  - rewrite IH. tauto.
Qed.

Lemma Map_set_fresh {V : Type} k (v : V) m :
  Map_get k m = None -> Map_set k v m = (m ++ [(k, v)])%list.
Proof.
  unfold Map_get. induction m as [ | [k' v'] m IH ]; simpl; [ reflexivity | ].
  destruct (String.eqb k' k); [ discriminate | ]. intros H. now rewrite IH.
Qed.

(** [extractNestedSchema] does not throw, and either leaves [this] as it is
    or appends one entry for the key of its argument. *)
Lemma extractNestedSchema_cases s this :
  exists n this',
    extractNestedSchema s this = Ok (n, this')
    /\ componentSchemas this' = componentSchemas this
    /\ (match componentName_of this (JSON_stringify s) with
        | Some c => n = c
        | None => True
        end)
    /\ ((exists e, Map_get (JSON_stringify s) (extractedSchemas this) = Some e
                   /\ this' = this
                   /\ (componentName_of this (JSON_stringify s) = None -> n = name e))
        \/ (Map_get (JSON_stringify s) (extractedSchemas this) = None
            /\ extractedSchemas this' =
               (extractedSchemas this
                  ++ [(JSON_stringify s, {| schema := s; name := n |})])%list
            /\ (match componentName_of this (JSON_stringify s) with
                | Some _ => schemaCounter this' = schemaCounter this
                | None => schemaCounter this' = S (schemaCounter this)
                          /\ n = fallbackName (S (schemaCounter this))
                end))).
Proof.
  unfold extractNestedSchema.
  destruct (componentName_of this (JSON_stringify s)) as [c | ] eqn:Hc.
  - unfold Map_has.
    destruct (Map_get (JSON_stringify s) (extractedSchemas this)) as [e | ] eqn:Hget.
    + exists c, this. repeat split; auto. left. exists e. repeat split; auto. discriminate.
    + eexists _, _. split; [ reflexivity | ]. cbn. repeat split; auto.
      right. repeat split; auto. now apply Map_set_fresh.
  - destruct (Map_get (JSON_stringify s) (extractedSchemas this)) as [e | ] eqn:Hget.
    + exists (name e), this. repeat split; auto. left. exists e. auto.
    + eexists _, _. split; [ reflexivity | ]. cbn. repeat split; auto.
      right. repeat split; auto. now apply Map_set_fresh.
Qed.

Lemma componentName_of_stable this this' k :
  componentSchemas this' = componentSchemas this ->
  componentName_of this' k = componentName_of this k.
Proof. unfold componentName_of. now intros ->. Qed.

Lemma steps_componentSchemas this this' :
  steps this this' -> componentSchemas this' = componentSchemas this.
Proof.
  induction 1 as [ | this this1 s n this2 _ IH Hs He ]; [ reflexivity | ].
  destruct (extractNestedSchema_cases s this1) as (n' & this' & E & Hc & _).
  rewrite E in He. injection He as -> ->. congruence.
Qed.

(** Entries are appended, never changed or removed. *)
Lemma steps_grows this this' :
  steps this this' ->
  exists new, extractedSchemas this' = (extractedSchemas this ++ new)%list.
Proof.
  induction 1 as [ | this this1 s n this2 _ [new IH] Hs He ]; [ exists []; now rewrite app_nil_r | ].
  destruct (extractNestedSchema_cases s this1) as (n' & this' & E & _ & _ & Hcases).
  rewrite E in He. injection He as -> ->.
  destruct Hcases as [(e & _ & -> & _) | (_ & Htab & _)].
  - now exists new.
  - eexists. rewrite Htab, IH, <- app_assoc. reflexivity.
Qed.

Lemma table_ok_reset components : table_ok (reset components).
Proof. split; cbn; try constructor; intros; contradiction. Qed.

Lemma table_ok_extract s this n this' :
  table_ok this -> hoistable s = true ->
  extractNestedSchema s this = Ok (n, this') -> table_ok this'.
Proof.
  intros [Hnd Hfp Horig Hdist] Hs He.
  destruct (extractNestedSchema_cases s this) as (n' & this1 & E & Hcomp & Hn & Hcases).
  rewrite E in He. injection He as -> ->.
  destruct Hcases as [(e & _ & -> & _) | (Hget & Htab & Hcnt)]; [ now split | ].
  assert (Hname : forall k, componentName_of this' k = componentName_of this k)
    by (intros k; now apply componentName_of_stable).
  assert (Hle : schemaCounter this <= schemaCounter this')
    by (destruct (componentName_of this (JSON_stringify s)); lia).
  split; rewrite Htab.
  - rewrite map_app. cbn. apply List.NoDup_app.
    + exact Hnd.
    + repeat constructor. intros [].
    + intros k Hk [Hin | []]. subst k.
      now apply Map_get_None_notin in Hget.
  - intros k e Hin. apply in_app_or in Hin as [Hin | [[= <- <-] | []]]; auto.
  - intros k e Hin. rewrite Hname. apply in_app_or in Hin as [Hin | [[= <- <-] | []]].
    + specialize (Horig k e Hin). destruct (componentName_of this k); [ exact Horig | ].
      destruct Horig as (i & Hi & Hnm). exists i. split; [ lia | exact Hnm ].
    + cbn. destruct (componentName_of this (JSON_stringify s)); [ exact Hn | ].
      destruct Hcnt as [Hcnt ->]. exists (S (schemaCounter this)). split; [ lia | reflexivity ].
  - intros k1 e1 k2 e2 Hin1 Hin2. rewrite !Hname. intros Hc1 Hc2 Hnm.
    apply in_app_or in Hin1 as [Hin1 | [[= <- <-] | []]];
      apply in_app_or in Hin2 as [Hin2 | [[= <- <-] | []]]; eauto.
    + exfalso. specialize (Horig k1 e1 Hin1). rewrite Hc1 in Horig.
      destruct Horig as (i & Hi & Hnm1). rewrite Hc2 in Hcnt. destruct Hcnt as [_ ->].
      cbn in Hnm. rewrite Hnm1 in Hnm. apply fallbackName_inj in Hnm. lia.
    + exfalso. specialize (Horig k2 e2 Hin2). rewrite Hc2 in Horig.
      destruct Horig as (i & Hi & Hnm2). rewrite Hc1 in Hcnt. destruct Hcnt as [_ ->].
      cbn in Hnm. rewrite Hnm2 in Hnm. apply fallbackName_inj in Hnm. lia.
Qed.

Lemma table_ok_steps this this' : table_ok this -> steps this this' -> table_ok this'.
Proof.
  intros Hok. induction 1 as [ | this this1 s n this2 _ IH Hs He ]; [ exact Hok | ].
  exact (table_ok_extract _ _ _ _ (IH Hok) Hs He).
Qed.

Lemma table_ok_reachable components this : reachable components this -> table_ok this.
Proof. apply table_ok_steps, table_ok_reset. Qed.

(** ** Objects built property by property *)

Section ObjectFacts.
Context {V : Type}.
Implicit Types (o : list (string * V)) (k : string) (v : V).

Lemma Map_get_set_eq k v o : Map_get k (Map_set k v o) = Some v.
Proof.
  unfold Map_get. induction o as [ | [k' v'] o IH ]; cbn [Map_set assoc].
  - now rewrite String.eqb_refl.
  - destruct (String.eqb k' k) eqn:E; cbn [assoc]; [ now rewrite String.eqb_refl | ].
    now rewrite E.
Qed.

Lemma Map_get_set_ne k k' v o : k' <> k -> Map_get k' (Map_set k v o) = Map_get k' o.
Proof.
  intros Hne. unfold Map_get. induction o as [ | [k2 v2] o IH ]; cbn [Map_set assoc].
  - destruct (String.eqb_spec k k'); [ congruence | reflexivity ].
  - destruct (String.eqb_spec k2 k) as [-> | _]; cbn [assoc].
    + destruct (String.eqb_spec k k'); [ congruence | ].
      destruct (String.eqb_spec k k'); [ congruence | reflexivity ].
    + now rewrite IH.
Qed.

Lemma Map_set_keys k v o :
  Map_has k o = true -> map fst (Map_set k v o) = map fst o.
Proof.
  unfold Map_has, Map_get. induction o as [ | [k' v'] o IH ]; cbn [Map_set assoc map fst];
    [ discriminate | ].
  destruct (String.eqb_spec k' k) as [-> | _]; cbn [map fst]; [ reflexivity | ].
  intros H. now rewrite IH.
Qed.

Lemma insertIndex_get_eq n k v o : Map_get k o = None -> Map_get k (insertIndex n k v o) = Some v.
Proof.
  unfold Map_get. induction o as [ | [k' v'] o IH ]; cbn [insertIndex assoc].
  - now rewrite String.eqb_refl.
  - destruct (String.eqb k' k) eqn:E; [ discriminate | ]. intros H.
    destruct (arrayIndex k') as [n' | ]; [ destruct (n' <? n)%N | ]; cbn [assoc];
      rewrite ?E, ?String.eqb_refl; auto.
Qed.

Lemma insertIndex_get_ne n k k' v o : k' <> k -> Map_get k' (insertIndex n k v o) = Map_get k' o.
Proof.
  intros Hne. unfold Map_get.
  assert (Hk : String.eqb k k' = false) by (destruct (String.eqb_spec k k'); congruence).
  induction o as [ | [k2 v2] o IH ]; cbn [insertIndex assoc].
  - now rewrite Hk.
  - destruct (arrayIndex k2) as [n' | ]; [ destruct (n' <? n)%N | ]; cbn [assoc];
      rewrite ?Hk, ?IH; reflexivity.
Qed.

Lemma insertIndex_keys n k v o : Permutation (map fst (insertIndex n k v o)) (k :: map fst o).
Proof.
  induction o as [ | [k' v'] o IH ]; cbn [insertIndex map fst]; [ reflexivity | ].
  destruct (arrayIndex k') as [n' | ]; [ destruct (n' <? n)%N | ]; cbn [map fst];
    try reflexivity.
  rewrite IH. apply perm_swap.
Qed.

(** Reading back the property that was just set. *)
Lemma Object_set_get_eq k v o : Map_get k (Object_set k v o) = Some v.
Proof.
  unfold Object_set, Map_has. destruct (Map_get k o) eqn:E.
  - apply Map_get_set_eq.
  - destruct (arrayIndex k); [ now apply insertIndex_get_eq | ].
    unfold Map_get in *. revert E. induction o as [ | [k' v'] o IH ]; cbn [app assoc].
    + now rewrite String.eqb_refl.
    + destruct (String.eqb k' k); [ discriminate | exact IH ].
Qed.

Lemma Object_set_get_ne k k' v o : k' <> k -> Map_get k' (Object_set k v o) = Map_get k' o.
Proof.
  intros Hne. unfold Object_set. destruct (Map_has k o).
  - now apply Map_get_set_ne.
  - destruct (arrayIndex k); [ now apply insertIndex_get_ne | ].
    unfold Map_get. induction o as [ | [k2 v2] o IH ]; cbn [app assoc].
    + destruct (String.eqb_spec k k'); [ congruence | reflexivity ].
    + now rewrite IH.
Qed.

Lemma Map_has_In k o : Map_has k o = true <-> In k (map fst o).
Proof.
  unfold Map_has, Map_get. induction o as [ | [k' v'] o IH ]; cbn [assoc map fst In].
  - split; [ discriminate | tauto ].
  - destruct (String.eqb_spec k' k) as [-> | Hne]; [ tauto | ].
    rewrite IH. split; [ tauto | intros [ | ]; [ congruence | assumption ] ].
Qed.

Lemma Object_set_NoDup k v o : List.NoDup (map fst o) -> List.NoDup (map fst (Object_set k v o)).
Proof.
  intros Hnd. unfold Object_set. destruct (Map_has k o) eqn:Hhas.
  - now rewrite Map_set_keys.
  - assert (Hnotin : ~ In k (map fst o)).
    { rewrite <- Map_has_In. congruence. }
    destruct (arrayIndex k).
    + eapply Permutation_NoDup; [ symmetry; apply insertIndex_keys | ].
      now apply List.NoDup_cons.
    + rewrite map_app. cbn [map fst].
      eapply Permutation_NoDup; [ apply Permutation_cons_append | ].
      now apply List.NoDup_cons.
Qed.

Lemma find_app {A : Type} (f : A -> bool) (a b : list A) :
  List.find f (a ++ b) =
  match List.find f a with
  | Some x => Some x
  | None => List.find f b
  end.
Proof.
  induction a as [ | x a IHa ]; cbn [app List.find]; [ reflexivity | ].
  destruct (f x); [ reflexivity | exact IHa ].
Qed.

(** Setting the entries one after the other: the last entry of a key is
    the one found under it. *)
Lemma Object_fold_get k (l : list (string * V)) o :
  Map_get k (fold_left (fun o kv => Object_set (fst kv) (snd kv) o) l o) =
  match List.find (fun kv => String.eqb (fst kv) k) (rev l) with
  | Some kv => Some (snd kv)
  | None => Map_get k o
  end.
Proof.
  revert o. induction l as [ | [k' v'] l IH ]; intros o; cbn [fold_left rev]; [ reflexivity | ].
  rewrite IH. cbn [fst snd]. rewrite find_app.
  destruct (List.find _ (rev l)) as [kv | ]; [ reflexivity | ].
  cbn [List.find fst]. destruct (String.eqb_spec k' k) as [-> | Hne].
  - apply Object_set_get_eq.
  - apply Object_set_get_ne. congruence.
Qed.

Lemma Object_fold_NoDup (l : list (string * V)) o :
  List.NoDup (map fst o) ->
  List.NoDup (map fst (fold_left (fun o kv => Object_set (fst kv) (snd kv) o) l o)).
Proof.
  revert o. induction l as [ | kv l IH ]; intros o Ho; cbn [fold_left]; [ exact Ho | ].
  now apply IH, Object_set_NoDup.
Qed.

End ObjectFacts.


Section EnumerationFacts.
Context {V : Type}.
Implicit Types (o : list (string * V)) (k : string) (v : V).

Lemma arrayIndex_inj k1 k2 n : arrayIndex k1 = Some n -> arrayIndex k2 = Some n -> k1 = k2.
Proof.
  unfold arrayIndex.
  destruct (NilZero.uint_of_string k1) as [u1 | ]; [ | discriminate ].
  destruct (NilZero.uint_of_string k2) as [u2 | ]; [ | discriminate ].
  destruct (String.eqb_spec (NilZero.string_of_uint (N.to_uint (N.of_uint u1))) k1) as [E1 | ];
    [ | discriminate ].
  destruct (String.eqb_spec (NilZero.string_of_uint (N.to_uint (N.of_uint u2))) k2) as [E2 | ];
    [ | discriminate ].
  cbn [andb]. destruct (_ <? _)%N; [ | discriminate ]. destruct (_ <? _)%N; [ | discriminate ].
  intros [= H1] [= H2]. rewrite <- E1, <- E2, H1, H2. reflexivity.
Qed.

Lemma Map_has_set_ne k k' v o : k' <> k -> Map_has k' (Map_set k v o) = Map_has k' o.
Proof. intros H. unfold Map_has. now rewrite Map_get_set_ne. Qed.

Lemma Map_has_insertIndex_ne n k k' v o :
  k' <> k -> Map_has k' (insertIndex n k v o) = Map_has k' o.
Proof. intros H. unfold Map_has. now rewrite insertIndex_get_ne. Qed.

Lemma Map_set_comm k1 k2 v1 v2 o :
  k1 <> k2 -> Map_has k1 o = true ->
  Map_set k1 v1 (Map_set k2 v2 o) = Map_set k2 v2 (Map_set k1 v1 o).
Proof.
  intros Hne. unfold Map_has, Map_get.
  induction o as [ | [k' v'] o IH ]; cbn [assoc Map_set]; [ discriminate | ].
  destruct (String.eqb_spec k' k1) as [-> | H1].
  - intros _. destruct (String.eqb_spec k1 k2) as [ | _ ]; [ contradiction | ].
    cbn [Map_set]. rewrite String.eqb_refl.
    destruct (String.eqb_spec k1 k2) as [ | _ ]; [ contradiction | reflexivity ].
  - intros H. destruct (String.eqb_spec k' k2) as [-> | H2]; cbn [Map_set].
    + destruct (String.eqb_spec k2 k1) as [ | _ ]; [ congruence | ].
      now rewrite String.eqb_refl.
    + destruct (String.eqb_spec k' k1) as [ | _ ]; [ contradiction | ].
      destruct (String.eqb_spec k' k2) as [ | _ ]; [ contradiction | ].
      now rewrite IH.
Qed.

(** Replacing the value of a present key leaves the keys where they are. *)
Lemma Map_set_insertIndex n k1 k2 v1 v2 o :
  k1 <> k2 -> Map_has k1 o = true ->
  Map_set k1 v1 (insertIndex n k2 v2 o) = insertIndex n k2 v2 (Map_set k1 v1 o).
Proof.
  intros Hne. unfold Map_has, Map_get.
  induction o as [ | [k' v'] o IH ]; cbn [assoc]; [ discriminate | ].
  assert (Hk21 : String.eqb k2 k1 = false) by (destruct (String.eqb_spec k2 k1); congruence).
  destruct (String.eqb_spec k' k1) as [-> | H1]; intros H; cbn [insertIndex Map_set].
  - rewrite String.eqb_refl. cbn [insertIndex].
    destruct (arrayIndex k1) as [n' | ]; [ destruct (n' <? n)%N | ]; cbn [Map_set];
      rewrite ?Hk21, ?String.eqb_refl; reflexivity.
  - destruct (String.eqb_spec k' k1) as [ | _ ]; [ contradiction | ]. cbn [insertIndex].
    destruct (arrayIndex k') as [n' | ]; [ destruct (n' <? n)%N | ]; cbn [Map_set];
      rewrite ?Hk21; destruct (String.eqb_spec k' k1) as [ | _ ]; try contradiction;
      rewrite ?IH by exact H; reflexivity.
Qed.

Lemma insertIndex_comm n1 n2 k1 k2 v1 v2 o :
  arrayIndex k1 = Some n1 -> arrayIndex k2 = Some n2 -> n1 <> n2 ->
  insertIndex n1 k1 v1 (insertIndex n2 k2 v2 o) = insertIndex n2 k2 v2 (insertIndex n1 k1 v1 o).
Proof.
  intros H1 H2 Hne.
  induction o as [ | [k' v'] o IH ]; cbn [insertIndex].
  - rewrite H1, H2. destruct (N.ltb_spec n2 n1), (N.ltb_spec n1 n2); try reflexivity; lia.
  - destruct (arrayIndex k') as [n' | ] eqn:E'.
    + destruct (N.ltb_spec n' n1), (N.ltb_spec n' n2);
        repeat (cbn [insertIndex]; rewrite ?E', ?H1, ?H2);
        repeat match goal with
               | |- context [(?a <? ?b)%N] => destruct (N.ltb_spec a b)
               end; try lia; rewrite ?IH; reflexivity.
    + repeat (cbn [insertIndex]; rewrite ?E', ?H1, ?H2).
      destruct (N.ltb_spec n2 n1), (N.ltb_spec n1 n2); try lia;
        repeat (cbn [insertIndex]; rewrite ?E', ?H1, ?H2); reflexivity.
Qed.

(** The order in which two array indices are set does not show. *)
Lemma Object_set_comm_index k1 k2 v1 v2 o :
  k1 <> k2 -> is_arrayIndex k1 = true -> is_arrayIndex k2 = true ->
  Object_set k1 v1 (Object_set k2 v2 o) = Object_set k2 v2 (Object_set k1 v1 o).
Proof.
  unfold is_arrayIndex. intros Hne Hk1 Hk2.
  destruct (arrayIndex k1) as [n1 | ] eqn:E1; [ clear Hk1 | discriminate ].
  destruct (arrayIndex k2) as [n2 | ] eqn:E2; [ clear Hk2 | discriminate ].
  assert (Hn : n1 <> n2) by (intros ->; apply Hne; eapply arrayIndex_inj; eauto).
  unfold Object_set. rewrite E1, E2.
  destruct (Map_has k1 o) eqn:Hh1, (Map_has k2 o) eqn:Hh2;
    rewrite ?Map_has_set_ne, ?Map_has_insertIndex_ne, ?Hh1, ?Hh2 by congruence.
  - now apply Map_set_comm.
  - now apply Map_set_insertIndex.
  - symmetry. apply Map_set_insertIndex; congruence.
  - now apply insertIndex_comm.
Qed.

Lemma Map_set_app_present k v o (l : list (string * V)) :
  Map_has k o = true -> Map_set k v (o ++ l) = (Map_set k v o ++ l)%list.
Proof.
  unfold Map_has, Map_get. induction o as [ | [k' v'] o IH ]; cbn [assoc app Map_set];
    [ discriminate | ].
  destruct (String.eqb k' k); [ reflexivity | ]. intros H. now rewrite IH.
Qed.

Lemma Map_has_app_ne k k' v o :
  k' <> k -> Map_has k' (o ++ [(k, v)]) = Map_has k' o.
Proof.
  intros Hne. unfold Map_has, Map_get. induction o as [ | [k2 v2] o IH ]; cbn [app assoc].
  - destruct (String.eqb_spec k k'); [ congruence | reflexivity ].
  - destruct (String.eqb k2 k'); [ reflexivity | exact IH ].
Qed.

Lemma insertIndex_app_named n k v o k' v' :
  arrayIndex k' = None ->
  insertIndex n k v (o ++ [(k', v')]) = (insertIndex n k v o ++ [(k', v')])%list.
Proof.
  intros Hk'. induction o as [ | [k2 v2] o IH ]; cbn [app insertIndex].
  - now rewrite Hk'.
  - destruct (arrayIndex k2) as [n2 | ]; [ destruct (n2 <? n)%N | ]; cbn [app];
      rewrite ?IH; reflexivity.
Qed.

(** Nor does the order in which an array index and another key are set. *)
Lemma Object_set_comm_mixed k1 k2 v1 v2 o :
  is_arrayIndex k1 = true -> is_arrayIndex k2 = false ->
  Object_set k1 v1 (Object_set k2 v2 o) = Object_set k2 v2 (Object_set k1 v1 o).
Proof.
  unfold is_arrayIndex. intros Hk1 Hk2.
  destruct (arrayIndex k1) as [n1 | ] eqn:E1; [ clear Hk1 | discriminate ].
  destruct (arrayIndex k2) as [ | ] eqn:E2; [ discriminate | clear Hk2 ].
  assert (Hne : k1 <> k2) by congruence.
  unfold Object_set. rewrite E1, E2.
  destruct (Map_has k1 o) eqn:Hh1, (Map_has k2 o) eqn:Hh2;
    rewrite ?Map_has_set_ne, ?Map_has_insertIndex_ne, ?Map_has_app_ne, ?Hh1, ?Hh2 by congruence.
  - now apply Map_set_comm.
  - now apply Map_set_app_present.
  - symmetry. apply Map_set_insertIndex; congruence.
  - now apply insertIndex_app_named.
Qed.

(** The keys that are not array indices keep the order of their insertion. *)
Lemma namedEntries_insertIndex n k v o :
  arrayIndex k = Some n -> namedEntries (insertIndex n k v o) = namedEntries o.
Proof.
  intros Hk. unfold namedEntries.
  assert (Hdrop : negb (is_arrayIndex k) = false) by (unfold is_arrayIndex; now rewrite Hk).
  induction o as [ | [k' v'] o IH ]; cbn [insertIndex List.filter fst].
  - now rewrite Hdrop.
  - destruct (arrayIndex k') as [n' | ] eqn:E'; [ destruct (n' <? n)%N | ];
      cbn [List.filter fst]; rewrite ?Hdrop, ?IH; reflexivity.
Qed.

Lemma Object_set_keys_fresh k v o :
  Map_has k o = false -> Permutation (map fst (Object_set k v o)) (k :: map fst o).
Proof.
  intros H. unfold Object_set. rewrite H. destruct (arrayIndex k).
  - apply insertIndex_keys.
  - rewrite map_app. cbn [map fst]. symmetry. apply Permutation_cons_append.
Qed.

Lemma namedEntries_fold (l : list (string * V)) o :
  List.NoDup (map fst o ++ map fst l) ->
  namedEntries (fold_left (fun o kv => Object_set (fst kv) (snd kv) o) l o)
  = (namedEntries o ++ namedEntries l)%list.
Proof.
  revert o. induction l as [ | [k v] l IH ]; intros o Hnd; cbn [fold_left fst snd].
  - unfold namedEntries at 3. cbn. now rewrite app_nil_r.
  - cbn [map fst] in Hnd. pose proof (List.NoDup_remove _ _ _ Hnd) as [_ Hnotin].
    assert (Hfresh : Map_has k o = false).
    { destruct (Map_has k o) eqn:E; [ | reflexivity ]. apply Map_has_In in E.
      exfalso. apply Hnotin, in_or_app. now left. }
    rewrite IH.
    + unfold Object_set. rewrite Hfresh.
      assert (Hk : namedEntries ((k, v) :: l)
                   = if is_arrayIndex k then namedEntries l else (k, v) :: namedEntries l).
      { unfold namedEntries. cbn [List.filter fst]. now destruct (is_arrayIndex k). }
      rewrite Hk.
      pose proof (eq_refl : is_arrayIndex k
                            = match arrayIndex k with Some _ => true | None => false end)
        as Hidx.
      destruct (arrayIndex k) as [n | ] eqn:Ek; rewrite Hidx.
      * now rewrite (namedEntries_insertIndex n).
      * unfold namedEntries. rewrite List.filter_app. cbn [List.filter fst]. rewrite Hidx.
        cbn [negb]. now rewrite <- app_assoc.
    + eapply Permutation_NoDup; [ | exact Hnd ].
      rewrite (Object_set_keys_fresh k v o Hfresh). cbn [app]. symmetry. apply Permutation_middle.
Qed.

Lemma enumeratedFrom_insertIndex n k v o lower :
  arrayIndex k = Some n ->
  match lower with Some m => (m <? n)%N | None => true end = true ->
  Map_has k o = false ->
  enumeratedFrom lower (map fst o) = true ->
  enumeratedFrom lower (map fst (insertIndex n k v o)) = true.
Proof.
  intros Hk. revert lower. induction o as [ | [k' v'] o IH ]; intros lower Hlow Hfresh;
    cbn [insertIndex map fst enumeratedFrom].
  - intros _. now rewrite Hk, Hlow.
  - assert (Hne : k' <> k).
    { intros ->. unfold Map_has, Map_get in Hfresh. cbn [assoc] in Hfresh.
      now rewrite String.eqb_refl in Hfresh. }
    assert (Hfresh' : Map_has k o = false).
    { unfold Map_has, Map_get in *. cbn [assoc] in Hfresh.
      destruct (String.eqb_spec k' k); [ contradiction | exact Hfresh ]. }
    destruct (arrayIndex k') as [n' | ] eqn:E'.
    + intros H. apply andb_true_iff in H as [Hlow' Hrest].
      destruct (N.ltb_spec n' n) as [Hlt | Hge]; cbn [map fst enumeratedFrom].
      * rewrite E', Hlow'. cbn [andb]. apply IH; auto. now apply N.ltb_lt.
      * rewrite Hk, Hlow, E'. cbn [andb]. rewrite Hrest, andb_true_r. apply N.ltb_lt.
        assert (n <> n') by (intros ->; apply Hne; eapply arrayIndex_inj; eauto). lia.
    + intros H. cbn [map fst enumeratedFrom]. rewrite Hk, Hlow, E'. exact H.
Qed.

Lemma enumeratedFrom_append (keys : list string) k lower :
  arrayIndex k = None ->
  enumeratedFrom lower keys = true -> enumeratedFrom lower (keys ++ [k]) = true.
Proof.
  intros Hk. assert (Hnamed : negb (is_arrayIndex k) = true)
    by (unfold is_arrayIndex; now rewrite Hk).
  revert lower. induction keys as [ | k' keys IH ]; intros lower; cbn [app enumeratedFrom].
  - now rewrite Hk.
  - destruct (arrayIndex k') as [n' | ].
    + intros H. apply andb_true_iff in H as [-> H]. now apply IH.
    + intros H. rewrite forallb_app, H. cbn. now rewrite Hnamed.
Qed.

Lemma Object_set_enumerated k v o : enumerated o = true -> enumerated (Object_set k v o) = true.
Proof.
  unfold enumerated, Object_set. intros H. destruct (Map_has k o) eqn:Hhas.
  - now rewrite Map_set_keys.
  - destruct (arrayIndex k) as [n | ] eqn:Hk.
    + now apply enumeratedFrom_insertIndex.
    + rewrite map_app. now apply enumeratedFrom_append.
Qed.

(** An object built property by property enumerates its array indices
    first, in ascending order. *)
Lemma fromEntries_enumerated (l : list (string * V)) :
  enumerated (Object_fromEntries l) = true.
Proof.
  unfold Object_fromEntries.
  assert (H : forall o, enumerated o = true ->
                        enumerated (fold_left (fun o kv => Object_set (fst kv) (snd kv) o) l o)
                        = true).
  { induction l as [ | kv l IH ]; intros o Ho; cbn [fold_left]; [ exact Ho | ].
    now apply IH, Object_set_enumerated. }
  now apply H.
Qed.

(** Without array indices among the keys, enumeration order is insertion
    order. *)
Lemma fromEntries_named (l : list (string * V)) o :
  List.NoDup (map fst o ++ map fst l) ->
  forallb (fun kv => negb (is_arrayIndex (fst kv))) l = true ->
  fold_left (fun o kv => Object_set (fst kv) (snd kv) o) l o = (o ++ l)%list.
Proof.
  revert o. induction l as [ | [k v] l IH ]; intros o Hnd Hl; cbn [fold_left fst snd].
  - now rewrite app_nil_r.
  - cbn [map fst] in Hnd. pose proof (List.NoDup_remove _ _ _ Hnd) as [_ Hnotin].
    cbn [forallb fst] in Hl. apply andb_true_iff in Hl as [Hk Hl].
    assert (Hfresh : Map_has k o = false).
    { destruct (Map_has k o) eqn:E; [ | reflexivity ]. apply Map_has_In in E.
      exfalso. apply Hnotin, in_or_app. now left. }
    assert (Hset : Object_set k v o = (o ++ [(k, v)])%list).
    { unfold Object_set. rewrite Hfresh. unfold is_arrayIndex in Hk.
      destruct (arrayIndex k); [ discriminate Hk | reflexivity ]. }
    rewrite Hset, IH, <- app_assoc; [ reflexivity | | exact Hl ].
    rewrite map_app, <- app_assoc. exact Hnd.
Qed.

Lemma fromEntries_swap_index (before after : list (string * V)) k1 v1 k2 v2 :
  k1 <> k2 -> is_arrayIndex k1 || is_arrayIndex k2 = true ->
  Object_fromEntries (before ++ (k1, v1) :: (k2, v2) :: after) =
  Object_fromEntries (before ++ (k2, v2) :: (k1, v1) :: after).
Proof.
  intros Hne H. unfold Object_fromEntries. rewrite !fold_left_app. cbn [fold_left fst snd].
  f_equal.
  destruct (is_arrayIndex k1) eqn:H1, (is_arrayIndex k2) eqn:H2; try discriminate H.
  - symmetry. now apply Object_set_comm_index.
  - symmetry. now apply Object_set_comm_mixed.
  - now apply Object_set_comm_mixed.
Qed.

Lemma fromEntries_swap_named (before after : list (string * V)) k1 v1 k2 v2 :
  k1 <> k2 -> is_arrayIndex k1 = false -> is_arrayIndex k2 = false ->
  List.NoDup (map fst (before ++ (k1, v1) :: (k2, v2) :: after)) ->
  List.NoDup (map fst (before ++ (k2, v2) :: (k1, v1) :: after)) ->
  Object_fromEntries (before ++ (k1, v1) :: (k2, v2) :: after) <>
  Object_fromEntries (before ++ (k2, v2) :: (k1, v1) :: after).
Proof.
  intros Hne H1 H2 Hnd Hnd' E. apply (f_equal namedEntries) in E. unfold Object_fromEntries in E.
  rewrite !namedEntries_fold in E by assumption. cbn [namedEntries List.filter app] in E.
  unfold namedEntries in E. rewrite !List.filter_app in E. cbn [List.filter fst] in E.
  rewrite H1, H2 in E. cbn [negb] in E. apply app_inv_head in E. injection E as E _.
  contradiction.
Qed.

End EnumerationFacts.

(** ** Well-typed schemas never throw *)

























(** ** Registration is idempotent *)

Lemma entries_count {V : Type} k (m : list (string * V)) :
  List.NoDup (map fst m) ->
  length (List.filter (fun kv => String.eqb (fst kv) k) m) = if Map_has k m then 1 else 0.
Proof.
  unfold Map_has, Map_get. induction m as [ | [k' v] m IH ]; cbn; [ reflexivity | ].
  intros Hnd. apply List.NoDup_cons_iff in Hnd as [Hnotin Hnd]. specialize (IH Hnd).
  destruct (String.eqb_spec k' k) as [-> | _]; [ | exact IH ].
  cbn. apply Map_get_None_notin in Hnotin. unfold Map_get in Hnotin.
  rewrite Hnotin in IH. now rewrite IH.
Qed.

Lemma Map_get_app_fresh {V : Type} k (v : V) m :
  Map_get k m = None -> Map_get k (m ++ [(k, v)]) = Some v.
Proof.
  unfold Map_get. induction m as [ | [k' v'] m IH ]; cbn.
  - now rewrite String.eqb_refl.
  - destruct (String.eqb k' k); [ discriminate | exact IH ].
Qed.

Lemma NoDup_keys_app_fresh {V : Type} k (v : V) m :
  List.NoDup (map fst m) -> Map_get k m = None -> List.NoDup (map fst (m ++ [(k, v)])).
Proof.
  intros Hnd Hget. rewrite map_app. apply List.NoDup_app.
  - exact Hnd.
  - repeat constructor. intros [].
  - intros k' Hk [<- | []]. now apply Map_get_None_notin in Hget.
Qed.

Lemma Map_get_app {V : Type} k (m new : list (string * V)) v :
  Map_get k m = Some v -> Map_get k (m ++ new) = Some v.
Proof.
  unfold Map_get. induction m as [ | [k' v'] m IH ]; cbn; [ discriminate | ].
  destruct (String.eqb k' k); [ auto | exact IH ].
Qed.

Lemma steps_keys_unique this this' :
  List.NoDup (map fst (extractedSchemas this)) -> steps this this' ->
  List.NoDup (map fst (extractedSchemas this')).
Proof.
  intros Hnd. induction 1 as [ | this this1 s n this2 _ IH Hs He ]; [ exact Hnd | ].
  specialize (IH Hnd).
  destruct (extractNestedSchema_cases s this1) as (n' & this' & E & _ & _ & Hcases).
  rewrite E in He. injection He as -> ->.
  destruct Hcases as [(e & _ & -> & _) | (Hget & -> & _)]; [ exact IH | ].
  now apply NoDup_keys_app_fresh.
Qed.

(** C2 — Registration in the Type Table is idempotent per fingerprint: for
    two schemas with the same fingerprint, [extractNestedSchema] returns the
    same name for both, whatever is registered between the two calls; the
    table holds exactly one entry for that fingerprint, and the second call
    leaves the state (the entry created by the first call included) as it
    was.  The method takes no preferred name, so there is none to ignore:
    the entry keeps the schema and the name of the first registration. *)
Theorem extractNestedSchema_idempotent this s1 s2 :
  List.NoDup (map fst (extractedSchemas this)) ->
  JSON_stringify s1 = JSON_stringify s2 ->
  exists n this1 e,
    extractNestedSchema s1 this = Ok (n, this1)
    /\ entries_for (JSON_stringify s1) this1 = 1
    /\ Map_get (JSON_stringify s1) (extractedSchemas this1) = Some e
    /\ (Map_get (JSON_stringify s1) (extractedSchemas this) = None ->
        e = {| schema := s1; name := n |})
    /\ forall this2,
         steps this1 this2 ->
         extractNestedSchema s2 this2 = Ok (n, this2)
         /\ entries_for (JSON_stringify s1) this2 = 1
         /\ Map_get (JSON_stringify s1) (extractedSchemas this2) = Some e.
Proof.
  intros Hnd Hkey.
  destruct (extractNestedSchema_cases s1 this) as (n & this1 & E1 & Hcomp & Hn & Hcases).
  assert (Hfound : exists e,
             Map_get (JSON_stringify s1) (extractedSchemas this1) = Some e
             /\ List.NoDup (map fst (extractedSchemas this1))
             /\ (componentName_of this (JSON_stringify s1) = None -> n = name e)
             /\ (Map_get (JSON_stringify s1) (extractedSchemas this) = None ->
                 e = {| schema := s1; name := n |})).
  { destruct Hcases as [(e & Hget & -> & Hnm) | (Hget & Htab & _)].
    - exists e. repeat split; auto. congruence.
    - eexists. rewrite Htab. split; [ now apply Map_get_app_fresh | ].
      split; [ now apply NoDup_keys_app_fresh | ]. split; reflexivity. }
  destruct Hfound as (e & Hget1 & Hnd1 & Hnm & Hnew).
  assert (Hcount : forall this2,
             List.NoDup (map fst (extractedSchemas this2)) ->
             Map_get (JSON_stringify s1) (extractedSchemas this2) = Some e ->
             entries_for (JSON_stringify s1) this2 = 1).
  { intros this2 Hnd2 Hget2. unfold entries_for. rewrite entries_count by exact Hnd2.
    unfold Map_has. now rewrite Hget2. }
  exists n, this1, e.
  split; [ exact E1 | ]. split; [ now apply Hcount | ]. split; [ exact Hget1 | ].
  split; [ exact Hnew | ]. intros this2 H. split; [ | split ].
  - destruct (steps_grows _ _ H) as [new Hgrow].
    pose proof (steps_componentSchemas _ _ H) as Hcomp2.
    assert (Hget2 : Map_get (JSON_stringify s1) (extractedSchemas this2) = Some e)
      by (rewrite Hgrow; now apply Map_get_app).
    destruct (extractNestedSchema_cases s2 this2) as (n2 & this3 & E2 & _ & Hn2 & Hcases2).
    rewrite <- Hkey in Hn2, Hcases2.
    rewrite (componentName_of_stable _ _ _ Hcomp2),
            (componentName_of_stable _ _ _ Hcomp) in Hn2, Hcases2.
    destruct Hcases2 as [(e2 & Hget2' & -> & Hnm2) | (Hget2' & _)]; [ | congruence ].
    rewrite E2. do 2 f_equal.
    destruct (componentName_of this (JSON_stringify s1)) as [c | ]; [ congruence | ].
    rewrite Hnm2, Hnm by reflexivity. congruence.
  - apply Hcount; [ exact (steps_keys_unique _ _ Hnd1 H) | ].
    destruct (steps_grows _ _ H) as [new ->]. now apply Map_get_app.
  - destruct (steps_grows _ _ H) as [new ->]. now apply Map_get_app.
Qed.

Lemma extractNestedSchema_idempotent_witness :
  exists n this1 e,
    extractNestedSchema repository (reset ∅) = Ok (n, this1)
    /\ entries_for (JSON_stringify repository) this1 = 1
    /\ Map_get (JSON_stringify repository) (extractedSchemas this1) = Some e
    /\ (Map_get (JSON_stringify repository) (extractedSchemas (reset ∅)) = None ->
        e = {| schema := repository; name := n |})
    /\ forall this2,
         steps this1 this2 ->
         extractNestedSchema repository this2 = Ok (n, this2)
         /\ entries_for (JSON_stringify repository) this2 = 1
         /\ Map_get (JSON_stringify repository) (extractedSchemas this2) = Some e.
Proof.
  apply (extractNestedSchema_idempotent (reset ∅) repository repository).
  - cbn. constructor.
  - reflexivity.
Defined.

(** ** The extraction policy *)

(** C3, as stated, fails: an author-named object with two properties is not
    hoisted, although its fingerprint is in the Component Name Index. *)
Lemma shouldExtract_ignores_index :
  ~ (shouldExtractNestedSchema point = true <->
     spec_shouldExtract (reset (<[JSON_stringify point := "Point"]> ∅)) point).
Proof.
  intros [_ H]. enough (shouldExtractNestedSchema point = true) by discriminate.
  apply H. right; left. cbn [reset componentSchemas]. rewrite lookup_insert_eq. eauto.
Qed.

(** C3 (amended) — [shouldExtractNestedSchema] returns true if and only if
    [properties] is truthy and has at least 3 keys; it reads neither the
    Component Name Index nor the Type Table.  An object with 2 properties is
    never hoisted and an object with 3 properties always is, named or not. *)
Theorem shouldExtractNestedSchema_threshold s :
  (shouldExtractNestedSchema s = true <->
   exists properties,
     prop "properties" s = Some properties
     /\ truthy properties = true
     /\ 3 <= length (Object_keys properties))
  /\ (forall k1 v1 k2 v2,
        prop "properties" s = Some (JObj [(k1, v1); (k2, v2)]) ->
        shouldExtractNestedSchema s = false)
  /\ (forall k1 v1 k2 v2 k3 v3,
        prop "properties" s = Some (JObj [(k1, v1); (k2, v2); (k3, v3)]) ->
        shouldExtractNestedSchema s = true).
Proof.
  unfold shouldExtractNestedSchema, tprop. repeat split.
  - destruct (prop "properties" s) as [properties | ]; [ | discriminate ].
    destruct (truthy properties) eqn:Ht; [ | discriminate ].
    intros H. exists properties. repeat split; auto. now apply Nat.leb_le in H.
  - intros (properties & -> & -> & H). now apply Nat.leb_le.
  - intros k1 v1 k2 v2 ->. reflexivity.
  - intros k1 v1 k2 v2 k3 v3 ->. reflexivity.
Qed.

(** ** Empty enumerations *)

(** C9, as stated, fails: an enum with no value is not degraded to a
    primitive type; the type side emits the empty union and the validator
    side an [enum] of nothing. *)
Lemma empty_enum_not_degraded :
  ~ (exists t z this1 this2,
        schemaToTypeScript emptyEnum (reset ∅) = Ok (t, this1)
        /\ schemaToZodType emptyEnum (reset ∅) = Ok (z, this2)
        /\ generic_primitive t /\ generic_primitive z).
Proof.
  intros (t & z & this1 & this2 & Ht & _ & Hgen & _).
  vm_compute in Ht. injection Ht as <- _.
  unfold generic_primitive in Hgen. cbn in Hgen.
  repeat destruct Hgen as [Hgen | Hgen]; try discriminate Hgen. exact Hgen.
Qed.

(** C9 (amended) — For an enum schema whose value list is empty,
    [schemaToTypeScript] returns the empty union (the empty string, followed
    by [| null] when the schema is nullable) and [schemaToZodType] returns
    [enum([])]; neither throws nor changes the state, and no diagnostic is
    recorded, so generation continues. *)
Theorem empty_enum_synthesis s this :
  prop "enum" s = Some (JArr []) ->
  schemaToTypeScript s this =
    Ok (if truthy_opt (prop "nullable" s) then " | null" else "", this)
  /\ schemaToZodType s this =
       Ok (if truthy_opt (prop "nullable" s) then "enum([]).nullable()" else "enum([])", this).
Proof.
  intros Henum.
  assert (Hobj : exists fields, s = JObj fields).
  { destruct s; try discriminate Henum. eauto. }
  destruct Hobj as [fields ->].
  rewrite schemaToTypeScript_eq, schemaToZodType_eq.
  unfold schemaToTypeScript_body, schemaToZodType_body, tprop. rewrite Henum.
  cbn. destruct (truthy_opt (assoc "nullable" fields)); split; reflexivity.
Qed.

Lemma empty_enum_synthesis_witness :
  schemaToTypeScript emptyEnum (reset ∅) =
    Ok (if truthy_opt (prop "nullable" emptyEnum) then " | null" else "", reset ∅)
  /\ schemaToZodType emptyEnum (reset ∅) =
       Ok (if truthy_opt (prop "nullable" emptyEnum) then "enum([]).nullable()" else "enum([])",
           reset ∅).
Proof. apply (empty_enum_synthesis emptyEnum (reset ∅)). reflexivity. Defined.

(** ** Optional properties of an interface *)





(** The three lines of [Item]: [id] is required, [name] is not, [tag] is
    required and nullable. *)
Example generateInterface_item :
  generateInterface "Item" item 0 (reset ∅) =
  Ok ("export interface Item {" +:+ nl
        +:+ "  id: number;" +:+ nl
        +:+ "  name?: string;" +:+ nl
        +:+ "  tag?: string | null;" +:+ nl
        +:+ "}" +:+ nl,
      reset ∅).
Proof. vm_compute. reflexivity. Qed.

(** ** Declarations stay inside a run *)

Lemma interfaceProperty_preserves required indentStr entry :
  preserves (interfaceProperty required indentStr entry).
Proof.
  unfold interfaceProperty. repeat preserves_step. apply schemaToTypeScript_preserves.
Qed.

Lemma generateInterface_preserves n s indent : preserves (generateInterface n s indent).
Proof.
  unfold generateInterface. repeat preserves_step;
    try apply schemaToTypeScript_preserves.
  apply preserves_mapM, List.Forall_forall. intros entry _.
  apply interfaceProperty_preserves.
Qed.

Lemma zodProperty_preserves required entry : preserves (zodProperty required entry).
Proof.
  unfold zodProperty. repeat preserves_step. apply schemaToZodType_preserves.
Qed.

Lemma generateZodSchema_preserves n s : preserves (generateZodSchema n s).
Proof.
  unfold generateZodSchema. repeat preserves_step;
    try apply schemaToZodType_preserves.
  apply preserves_mapM, List.Forall_forall. intros entry _.
  apply zodProperty_preserves.
Qed.

Lemma responseDeclarations_preserves g : preserves (responseDeclarations g).
Proof.
  unfold responseDeclarations. repeat preserves_step.
  apply generateInterface_preserves.
Qed.

Lemma responseInterface_preserves g : preserves (responseInterface g).
Proof.
  unfold responseInterface. repeat preserves_step. apply responseDeclarations_preserves.
Qed.

Lemma nestedInterfaceDeclarations_preserves : preserves nestedInterfaceDeclarations.
Proof.
  unfold nestedInterfaceDeclarations. repeat preserves_step.
  apply preserves_mapM, List.Forall_forall. intros e _. apply generateInterface_preserves.
Qed.

Lemma nestedZodDeclarations_preserves : preserves nestedZodDeclarations.
Proof.
  unfold nestedZodDeclarations. repeat preserves_step.
  apply preserves_mapM, List.Forall_forall. intros e _. apply generateZodSchema_preserves.
Qed.

Lemma generateTypeScriptFiles_preserves tools : preserves (generateTypeScriptFiles tools).
Proof.
  unfold generateTypeScriptFiles. repeat preserves_step.
  - apply preserves_mapM, List.Forall_forall. intros t _.
    apply preserves_mapM, List.Forall_forall. intros p _. apply schemaToZodType_preserves.
  - apply preserves_mapM, List.Forall_forall. intros g _. apply responseInterface_preserves.
  - apply nestedInterfaceDeclarations_preserves.
  - apply nestedZodDeclarations_preserves.
Qed.

(** ** Names *)

Lemma clashing_state_reachable : reachable clashing_index clashing_state.
Proof.
  unfold reachable.
  eapply (steps_extract _ _ (obj3 "a" "b" "c")); [ | reflexivity | ].
  - eapply (steps_extract _ _ (obj3 "x" "y" "z")); [ apply steps_refl | reflexivity | ].
    vm_compute. reflexivity.
  - vm_compute. reflexivity.
Qed.

(** C6, as stated, fails: no suffix is ever appended, so a component called
    [NestedType1] and the first generated name meet on two fingerprints. *)
Lemma names_can_collide :
  ~ (forall this, reachable clashing_index this -> names_unique this).
Proof.
  intros H. specialize (H _ clashing_state_reachable).
  specialize (H (JSON_stringify (obj3 "x" "y" "z"))
                {| schema := obj3 "x" "y" "z"; name := "NestedType1" |}
                (JSON_stringify (obj3 "a" "b" "c"))
                {| schema := obj3 "a" "b" "c"; name := "NestedType1" |}).
  cbn [clashing_state extractedSchemas name In] in H.
  assert (E : JSON_stringify (obj3 "x" "y" "z") = JSON_stringify (obj3 "a" "b" "c"))
    by (apply H; auto).
  vm_compute in E. discriminate E.
Qed.

Lemma componentName_of_Some this k n :
  componentName_of this k = Some n -> componentSchemas this !! k = Some n /\ n <> "".
Proof.
  unfold componentName_of. destruct (componentSchemas this !! k) as [n' | ]; [ | discriminate ].
  destruct (String.eqb_spec n' ""); [ discriminate | ]. intros [= ->]. auto.
Qed.


(** C6 (amended) — In every state of a run, each name of the table is either
    the component name of its fingerprint or a generated name
    [NestedTypeN] with [N] at most the counter, nothing is appended to it,
    and two distinct fingerprints that both received generated names never
    share a name.  Distinct fingerprints can share a name only through the
    Component Name Index: when no two fingerprints share a component name
    and no component is called [NestedTypeN], all names are distinct. *)
Theorem generated_names_unique components this :
  reachable components this ->
  (forall k e, In (k, e) (extractedSchemas this) ->
     componentSchemas this !! k = Some (name e)
     \/ exists i, 1 <= i <= schemaCounter this /\ name e = fallbackName i)
  /\ (forall k1 e1 k2 e2,
        In (k1, e1) (extractedSchemas this) -> In (k2, e2) (extractedSchemas this) ->
        componentName_of this k1 = None -> componentName_of this k2 = None ->
        k1 <> k2 -> name e1 <> name e2)
  /\ (index_separated components -> names_unique this).
Proof.
  intros Hreach. pose proof (table_ok_reachable _ _ Hreach) as [Hnd Hfp Horig Hdist].
  pose proof (steps_componentSchemas _ _ Hreach) as Hcomp. cbn in Hcomp.
  repeat split.
  - intros k e Hin. specialize (Horig k e Hin).
    destruct (componentName_of this k) as [c | ] eqn:Hc; [ left | right; exact Horig ].
    apply componentName_of_Some in Hc as [Hc _]. congruence.
  - intros k1 e1 k2 e2 Hin1 Hin2 Hc1 Hc2 Hne Hnm. apply Hne. eauto.
  - intros [Hinj Hfresh] k1 e1 k2 e2 Hin1 Hin2 Hnm.
    pose proof (Horig k1 e1 Hin1) as H1. pose proof (Horig k2 e2 Hin2) as H2.
    destruct (componentName_of this k1) as [c1 | ] eqn:Hc1;
      destruct (componentName_of this k2) as [c2 | ] eqn:Hc2.
    + apply componentName_of_Some in Hc1 as [Hc1 _], Hc2 as [Hc2 _].
      rewrite Hcomp in Hc1, Hc2. apply (Hinj k1 k2 c1); congruence.
    + exfalso. destruct H2 as (i & _ & H2).
      apply componentName_of_Some in Hc1 as [Hc1 _]. rewrite Hcomp in Hc1.
      apply (Hfresh k1 i). congruence.
    + exfalso. destruct H1 as (i & _ & H1).
      apply componentName_of_Some in Hc2 as [Hc2 _]. rewrite Hcomp in Hc2.
      apply (Hfresh k2 i). congruence.
    + eauto.
Qed.

Lemma generated_names_unique_witness :
  (forall k e, In (k, e) (extractedSchemas clashing_state) ->
     componentSchemas clashing_state !! k = Some (name e)
     \/ exists i, 1 <= i <= schemaCounter clashing_state /\ name e = fallbackName i)
  /\ (forall k1 e1 k2 e2,
        In (k1, e1) (extractedSchemas clashing_state) ->
        In (k2, e2) (extractedSchemas clashing_state) ->
        componentName_of clashing_state k1 = None ->
        componentName_of clashing_state k2 = None ->
        k1 <> k2 -> name e1 <> name e2)
  /\ (index_separated clashing_index -> names_unique clashing_state).
Proof. apply (generated_names_unique clashing_index clashing_state), clashing_state_reachable. Defined.

(** ** Hoisted schemas on the type side and on the validator side *)





(** ** Component names take precedence *)




(** ** Response deduplication *)

















(** Two operations that return a string: the response block is one alias,
    to a name that is declared nowhere. *)
Example generate_primitive_response :
  generate ∅
    [ {| parameters := []; responseSchema := Some (JObj [("type", JStr "string")]);
         responseTypeName := "GetNameResponse" |};
      {| parameters := []; responseSchema := Some (JObj [("type", JStr "string")]);
         responseTypeName := "ListNameResponse" |} ] =
  Generated
    {| zodTypes := [[]; []];
       responseInterfaces := "export type ListNameResponse = GetNameResponse;";
       nestedZodSchemas := "" |}.
Proof. vm_compute. reflexivity. Qed.

(** The text of the whole run for two operations that return the component
    [Repository]: one declaration and two aliases. *)
Example generate_repository :
  generate repository_index
    [ {| parameters := []; responseSchema := Some repository;
         responseTypeName := "GetRepoResponse" |};
      {| parameters := []; responseSchema := Some repository;
         responseTypeName := "ListRepoResponse" |} ] =
  Generated
    {| zodTypes := [[]; []];
       responseInterfaces :=
         "export interface Repository {" +:+ nl
           +:+ "  id?: number;" +:+ nl
           +:+ "  name?: string;" +:+ nl
           +:+ "  private?: boolean;" +:+ nl
           +:+ "}" +:+ nl +:+ nl
           +:+ "export type GetRepoResponse = Repository;" +:+ nl
           +:+ "export type ListRepoResponse = Repository;";
       nestedZodSchemas := "" |}.
Proof. vm_compute. reflexivity. Qed.

(** A shape that is a response of its own and is hoisted later in the run,
    from inside another response, is declared twice: under the operation's
    name and under the generated name. *)
Example generate_shape_declared_twice :
  generate ∅
    [ {| parameters := []; responseSchema := Some repository;
         responseTypeName := "GetRepoResponse" |};
      {| parameters := [];
         responseSchema :=
           Some (JObj [("type", JStr "object");
                       ("properties",
                        JObj [("repo", repository);
                              ("count", JObj [("type", JStr "number")]);
                              ("total", JObj [("type", JStr "number")])])]);
         responseTypeName := "SearchResponse" |} ] =
  Generated
    {| zodTypes := [[]; []];
       responseInterfaces :=
         "export interface NestedType1 {" +:+ nl
           +:+ "  id?: number;" +:+ nl
           +:+ "  name?: string;" +:+ nl
           +:+ "  private?: boolean;" +:+ nl
           +:+ "}" +:+ nl +:+ nl +:+ nl
           +:+ "export interface GetRepoResponse {" +:+ nl
           +:+ "  id?: number;" +:+ nl
           +:+ "  name?: string;" +:+ nl
           +:+ "  private?: boolean;" +:+ nl
           +:+ "}" +:+ nl +:+ nl +:+ nl
           +:+ "export interface SearchResponse {" +:+ nl
           +:+ "  repo?: NestedType1;" +:+ nl
           +:+ "  count?: number;" +:+ nl
           +:+ "  total?: number;" +:+ nl
           +:+ "}" +:+ nl;
       nestedZodSchemas :=
         validatorDeclaration "NestedType1"
           ("  id: z.number().optional()," +:+ nl
              +:+ "  name: z.string().optional()," +:+ nl
              +:+ "  private: z.boolean().optional(),") |}.
Proof. vm_compute. reflexivity. Qed.

(** ** Validators follow the table *)







(** A run in which the response refers to the component [NestedType1] and to
    an unnamed schema: both properties have the type [NestedType1], and the
    validators declare [NestedType1Schema] twice. *)
Example generate_clashing_names :
  generate clashing_index
    [ {| parameters := [];
         responseSchema :=
           Some (JObj [("type", JStr "object");
                       ("properties",
                        JObj [("first", obj3 "a" "b" "c");
                              ("second", obj3 "x" "y" "z");
                              ("count", JObj [("type", JStr "number")])])]);
         responseTypeName := "GetPairResponse" |} ] =
  Generated
    {| zodTypes := [[]];
       responseInterfaces :=
         "export interface NestedType1 {" +:+ nl
           +:+ "  a?: string;" +:+ nl
           +:+ "  b?: string;" +:+ nl
           +:+ "  c?: string;" +:+ nl
           +:+ "}" +:+ nl +:+ nl
           +:+ "export interface NestedType1 {" +:+ nl
           +:+ "  x?: string;" +:+ nl
           +:+ "  y?: string;" +:+ nl
           +:+ "  z?: string;" +:+ nl
           +:+ "}" +:+ nl +:+ nl +:+ nl
           +:+ "export interface GetPairResponse {" +:+ nl
           +:+ "  first?: NestedType1;" +:+ nl
           +:+ "  second?: NestedType1;" +:+ nl
           +:+ "  count?: number;" +:+ nl
           +:+ "}" +:+ nl;
       nestedZodSchemas :=
         validatorDeclaration "NestedType1"
           ("  a: z.string().optional()," +:+ nl
              +:+ "  b: z.string().optional()," +:+ nl
              +:+ "  c: z.string().optional(),")
           +:+ nl +:+ nl
           +:+ validatorDeclaration "NestedType1"
                 ("  x: z.string().optional()," +:+ nl
                    +:+ "  y: z.string().optional()," +:+ nl
                    +:+ "  z: z.string().optional(),") |}.
Proof. vm_compute. reflexivity. Qed.




(** Hoistable schemas nested three deep: the innermost one is first met
    while the validators are generated, so [NestedType2Schema] refers to
    [NestedType3Schema], which is registered but never declared.  (The
    interface [NestedType2], first met while the nested interfaces are
    generated, is not declared either.) *)
Example generate_deep_nesting :
  generate ∅ [deepResponse] =
  Generated
    {| zodTypes := [[]];
       responseInterfaces :=
         "export interface NestedType1 {" +:+ nl
           +:+ "  middle?: NestedType2;" +:+ nl
           +:+ "  d?: string;" +:+ nl
           +:+ "  e?: string;" +:+ nl
           +:+ "}" +:+ nl +:+ nl +:+ nl
           +:+ "export interface GetDeepResponse {" +:+ nl
           +:+ "  outer?: NestedType1;" +:+ nl
           +:+ "}" +:+ nl;
       nestedZodSchemas :=
         validatorDeclaration "NestedType1"
           ("  middle: z.NestedType2Schema.optional()," +:+ nl
              +:+ "  d: z.string().optional()," +:+ nl
              +:+ "  e: z.string().optional(),")
           +:+ nl +:+ nl
           +:+ validatorDeclaration "NestedType2"
                 ("  inner: z.NestedType3Schema.optional()," +:+ nl
                    +:+ "  b: z.string().optional()," +:+ nl
                    +:+ "  c: z.string().optional(),") |}.
Proof. vm_compute. reflexivity. Qed.

Example deep_nesting_table :
  match generateTypeScriptFiles [deepResponse] (reset ∅) with
  | Ok (_, final) =>
      map (fun kv => name (snd kv)) (extractedSchemas final)
      = ["NestedType1"; "NestedType2"; "NestedType3"]
  | Throw _ => False
  end.
Proof. vm_compute. reflexivity. Qed.

(** With an [enum] on the items of an array, only the validator side
    hoists the items: the type side writes the union of the literals. *)
Example enum_items_hoisted_by_validator_only :
  schemaToTypeScript enumItems (reset ∅) = Ok ("'a' | 'b'[]", reset ∅)
  /\ exists this,
       schemaToZodType enumItems (reset ∅) = Ok ("array(NestedType1Schema)", this)
       /\ map (fun kv => name (snd kv)) (extractedSchemas this) = ["NestedType1"].
Proof. split; [ | eexists; split ]; vm_compute; reflexivity. Qed.

(** ** The fingerprint determines the schema *)

Lemma unquote1_QuoteJSONChar c x : unquote1 (QuoteJSONChar c +:+ x) = Some (c, x).
Proof. destruct c as [[] [] [] [] [] [] [] []]; reflexivity. Qed.

Lemma QuoteJSONChar_head c x : exists h t, QuoteJSONChar c +:+ x = String h t /\ h <> dquote.
Proof.
  destruct c as [[] [] [] [] [] [] [] []]; eexists _, _; (split; [ reflexivity | discriminate ]).
Qed.

Lemma QuoteJSONChar_inj c c' x x' :
  QuoteJSONChar c +:+ x = QuoteJSONChar c' +:+ x' -> c = c' /\ x = x'.
Proof.
  intros H. apply (f_equal unquote1) in H. rewrite !unquote1_QuoteJSONChar in H.
  injection H as -> ->. auto.
Qed.

Lemma QuoteJSONBody_inj s s' x x' :
  QuoteJSONBody s +:+ String dquote x = QuoteJSONBody s' +:+ String dquote x' ->
  s = s' /\ x = x'.
Proof.
  revert s'. induction s as [ | c s IH ]; intros [ | c' s' ]; cbn [QuoteJSONBody];
    rewrite ?append_assoc, ?append_nil_l.
  - intros [= ->]. auto.
  - intros H. destruct (QuoteJSONChar_head c' (QuoteJSONBody s' +:+ String dquote x'))
      as (h & t & E & Hh). rewrite E in H. injection H as <- _. contradiction.
  - intros H. destruct (QuoteJSONChar_head c (QuoteJSONBody s +:+ String dquote x))
      as (h & t & E & Hh). rewrite E in H. injection H as -> _. contradiction.
  - intros H. apply QuoteJSONChar_inj in H as [-> H]. apply IH in H as [-> ->]. auto.
Qed.

Lemma QuoteJSONString_inj s s' x x' :
  QuoteJSONString s +:+ x = QuoteJSONString s' +:+ x' -> s = s' /\ x = x'.
Proof.
  unfold QuoteJSONString, str1. rewrite !append_cons, !append_assoc, !append_cons, !append_nil_l.
  intros [= H]. now apply QuoteJSONBody_inj.
Qed.

Lemma digits_inj d d' x x' :
  NilEmpty.string_of_uint d +:+ x = NilEmpty.string_of_uint d' +:+ x' ->
  delimited x -> delimited x' -> d = d' /\ x = x'.
Proof.
  intros H Hx Hx'. revert d' H.
  induction d as [ | d IH | d IH | d IH | d IH | d IH | d IH | d IH | d IH | d IH | d IH ];
    intros [ | d' | d' | d' | d' | d' | d' | d' | d' | d' | d' ];
    cbn [NilEmpty.string_of_uint]; rewrite ?append_cons, ?append_nil_l; intros H;
    try (injection H as H; apply IH in H as [-> ->]; auto; fail);
    try (split; [ reflexivity | exact H ]);
    try discriminate H;
    try (subst x; cbn in Hx; destruct Hx as [Hx | [Hx | Hx]]; discriminate Hx);
    try (subst x'; cbn in Hx'; destruct Hx' as [Hx' | [Hx' | Hx']]; discriminate Hx').
Qed.

Lemma to_int_shape z :
  exists u, u <> Decimal.Nil /\ (Z.to_int z = Decimal.Pos u \/ Z.to_int z = Decimal.Neg u).
Proof.
  pose proof (DecimalZ.to_of (Z.to_int z)) as H. rewrite DecimalZ.of_to in H.
  destruct (Z.to_int z) as [d | d]; cbn [Decimal.norm] in H.
  - exists d. split; [ | now left ]. injection H as ->. apply unorm_nonnil.
  - destruct (Decimal.nzhead d) eqn:Hd; try discriminate H;
      exists d; (split; [ | now right ]); injection H as ->; discriminate.
Qed.

Lemma digits_head u x :
  u <> Decimal.Nil ->
  exists c t, NilEmpty.string_of_uint u +:+ x = String c t /\ is_digit c = true.
Proof.
  destruct u; [ contradiction | .. ]; intros _; cbn [NilEmpty.string_of_uint];
    rewrite append_cons; eexists _, _; (split; [ reflexivity | reflexivity ]).
Qed.

Lemma Number_toString_head z x :
  exists c t, Number_toString z +:+ x = String c t /\ (c = "-"%char \/ is_digit c = true).
Proof.
  unfold Number_toString. destruct (to_int_shape z) as (u & Hu & [-> | ->]);
    cbn [NilZero.string_of_int]; unfold NilZero.string_of_uint.
  - destruct (digits_head u x Hu) as (c & t & E & Hc).
    destruct u; [ contradiction | .. ]; eauto.
  - rewrite append_cons. eauto.
Qed.

Lemma Number_toString_inj z z' x x' :
  Number_toString z +:+ x = Number_toString z' +:+ x' ->
  delimited x -> delimited x' -> z = z' /\ x = x'.
Proof.
  unfold Number_toString. intros H Hx Hx'.
  destruct (to_int_shape z) as (u & Hu & Hz), (to_int_shape z') as (u' & Hu' & Hz').
  assert (Hnz : forall d, d <> Decimal.Nil -> NilZero.string_of_uint d = NilEmpty.string_of_uint d).
  { intros [ | | | | | | | | | | ]; try reflexivity. contradiction. }
  assert (E : Z.to_int z = Z.to_int z' /\ x = x').
  { destruct Hz as [Hz | Hz], Hz' as [Hz' | Hz']; rewrite Hz, Hz' in H |- *;
      cbn [NilZero.string_of_int] in H; rewrite ?Hnz in H by assumption;
      rewrite ?append_cons in H.
    - apply digits_inj in H as [-> ->]; auto.
    - destruct (digits_head u x Hu) as (c & t & E & Hc). rewrite E in H.
      injection H as -> _. discriminate Hc.
    - destruct (digits_head u' x' Hu') as (c & t & E & Hc). rewrite E in H.
      injection H as <- _. discriminate Hc.
    - injection H as H. apply digits_inj in H as [-> ->]; auto. }
  destruct E as [E ->]. split; [ now apply DecimalZ.to_int_inj | reflexivity ].
Qed.

Lemma JSON_stringify_head v x :
  exists c t, JSON_stringify v +:+ x = String c t /\ kind_of_head c = kind v.
Proof.
  destruct v as [ | [] | n | s | elems | fields ]; cbn [JSON_stringify kind];
    try (rewrite append_cons; eexists _, _; split; reflexivity).
  - destruct (Number_toString_head n x) as (c & t & E & Hc). exists c, t. split; [ exact E | ].
    destruct Hc as [-> | Hc]; [ reflexivity | ].
    destruct c as [[] [] [] [] [] [] [] []]; try discriminate Hc; reflexivity.
  - unfold QuoteJSONString. rewrite append_cons. eexists _, _. split; reflexivity.
Qed.

Lemma join_cons_app {A : Type} (f : A -> string) a l y :
  join "," (map f (a :: l)) +:+ y =
  f a +:+ match l with
          | [] => y
          | _ :: _ => "," +:+ join "," (map f l) +:+ y
          end.
Proof. destruct l; cbn [map join]; [ reflexivity | ]. now rewrite !append_assoc. Qed.

Lemma join_inj {A : Type} (f : A -> string) (close : ascii) (l : list A) :
  close = "]"%char \/ close = "}"%char ->
  Forall (fun a => forall a' r r',
              f a +:+ r = f a' +:+ r' -> delimited r -> delimited r' -> a = a' /\ r = r') l ->
  (forall a r, exists c t, f a +:+ r = String c t /\ c <> close) ->
  forall l' x x',
    join "," (map f l) +:+ String close x = join "," (map f l') +:+ String close x' ->
    l = l' /\ x = x'.
Proof.
  intros Hclose Hinj Hhead.
  assert (Hdelim : forall (t : list A) x,
             delimited match t with
                       | [] => String close x
                       | _ :: _ => "," +:+ join "," (map f t) +:+ String close x
                       end).
  { intros [ | ? ? ] x; cbn; [ destruct Hclose; auto | now left ]. }
  induction Hinj as [ | a l Ha _ IH ]; intros [ | a' l' ] x x'.
  - cbn. intros [= ->]. auto.
  - rewrite join_cons_app. cbn [map join]. rewrite append_nil_l. intros H.
    destruct (Hhead a' match l' with
                       | [] => String close x'
                       | _ :: _ => "," +:+ join "," (map f l') +:+ String close x'
                       end) as (c & t & E & Hc).
    rewrite E in H. injection H as -> _. contradiction.
  - rewrite join_cons_app. cbn [map join]. rewrite append_nil_l. intros H.
    destruct (Hhead a match l with
                      | [] => String close x
                      | _ :: _ => "," +:+ join "," (map f l) +:+ String close x
                      end) as (c & t & E & Hc).
    rewrite E in H. injection H as <- _. contradiction.
  - rewrite !join_cons_app. intros H.
    apply Ha in H as [<- H]; [ | apply Hdelim | apply Hdelim ].
    destruct l as [ | b l ], l' as [ | b' l' ].
    + injection H as ->. auto.
    + rewrite append_cons in H. injection H as H _.
      destruct Hclose; subst close; discriminate H.
    + rewrite append_cons in H. injection H as H _.
      destruct Hclose; subst close; discriminate H.
    + apply append_inv_head in H. apply IH in H as [-> ->]. auto.
Qed.

Lemma JSON_stringify_inj_delimited v :
  forall v' x x',
    JSON_stringify v +:+ x = JSON_stringify v' +:+ x' ->
    delimited x -> delimited x' -> v = v' /\ x = x'.
Proof.
  induction v as [ | b | n | s | elems IH | fields IH ] using json_ind';
    intros v' x x' H Hx Hx';
    (assert (Hkind : kind v' = kind _)
      by (destruct (JSON_stringify_head v' x') as (c' & t' & E' & Hc');
          match type of H with
          | JSON_stringify ?v +:+ _ = _ =>
              destruct (JSON_stringify_head v x) as (c & t & E & Hc)
          end;
          rewrite E, E' in H; injection H as -> _; rewrite <- Hc'; exact Hc));
    destruct v' as [ | b' | n' | s' | elems' | fields' ]; try discriminate Hkind; clear Hkind;
    cbn [JSON_stringify] in H.
  - apply append_inv_head in H. auto.
  - destruct b, b'; rewrite ?append_cons in H; try discriminate H;
      injection H as H; auto.
  - apply Number_toString_inj in H as [-> ->]; auto.
  - apply QuoteJSONString_inj in H as [-> ->]; auto.
  - rewrite !append_assoc, !append_cons, !append_nil_l in H. injection H as H.
    apply (join_inj JSON_stringify "]"%char) in H as [-> ->]; auto.
    intros a r. destruct (JSON_stringify_head a r) as (c & t & E & Hc).
    exists c, t. split; [ exact E | ]. intros ->. destruct a; discriminate Hc.
  - rewrite !append_assoc, !append_cons, !append_nil_l in H. injection H as H.
    apply (join_inj (fun kv => QuoteJSONString (fst kv) +:+ ":" +:+ JSON_stringify (snd kv))
                    "}"%char) in H as [-> ->]; auto.
    + eapply List.Forall_impl; [ | exact IH ]. cbn beta.
      intros [k a] Ha [k' a'] r r'. cbn [fst snd] in Ha |- *. rewrite !append_assoc.
      intros H1 Hr Hr'. apply QuoteJSONString_inj in H1 as [<- H1].
      apply append_inv_head in H1. apply Ha in H1 as [<- <-]; auto.
    + intros [k a] r. cbn [fst]. unfold QuoteJSONString. rewrite !append_cons.
      eexists _, _. split; [ reflexivity | discriminate ].
Qed.

Theorem JSON_stringify_inj v v' : JSON_stringify v = JSON_stringify v' -> v = v'.
Proof.
  intros H. apply (JSON_stringify_inj_delimited v v' "" ""); cbn; auto.
  now rewrite !append_nil_r.
Qed.

(** ** The fingerprint is the serialization, property order included *)

(** C1, as stated, fails: two nodes that differ only in the order in which
    their properties were inserted have different fingerprints. *)
Lemma fingerprint_order_dependent :
  ~ (forall s1 s2, struct_eq s1 s2 -> JSON_stringify s1 = JSON_stringify s2).
Proof.
  intros H.
  assert (E : JSON_stringify pair_ab = JSON_stringify pair_ba).
  { apply H.
    apply (struct_eq_field "properties" _ _ [("type", JStr "object")] []).
    apply (struct_eq_swap "a" _ "b" _ [] []). discriminate. }
  vm_compute in E. discriminate E.
Qed.

Lemma extractComponentNames_fold (entries : list (string * json)) (m0 : gmap string string)
    k n :
  fold_left
    (fun (componentMap : gmap string string) (entry : string * json) =>
       if truthy (snd entry) && is_object (snd entry)
       then <[JSON_stringify (snd entry) := fst entry]> componentMap
       else componentMap)
    entries m0 !! k = Some n ->
  m0 !! k = Some n \/ exists s, In (n, s) entries /\ k = JSON_stringify s.
Proof.
  revert m0. induction entries as [ | [n' s'] entries IH ]; intros m0; cbn [fold_left fst snd].
  - auto.
  - intros H. apply IH in H as [H | (s & Hin & ->)].
    + destruct (truthy s' && is_object s'); [ | now left ].
      destruct (decide (JSON_stringify s' = k)) as [<- | Hne].
      * rewrite lookup_insert_eq in H. injection H as ->. right. exists s'. split; [ now left | reflexivity ].
      * rewrite lookup_insert_ne in H by exact Hne. now left.
    + right. exists s. split; [ now right | reflexivity ].
Qed.

(** C1 (amended) — The fingerprint, computed by [JSON.stringify] in
    [extractComponentNames] and in [extractNestedSchema], is deterministic
    (it is a function of the node) and, on nodes whose numbers are safe
    integers, it identifies the node together with the order in which its
    properties are enumerated: two nodes have the same fingerprint if and
    only if they are the same tree, with the same properties, in the same
    enumeration order, and the same order of [required].  For a node built
    by defining its properties one after the other, as a parser does, the
    names that are array indices (['1'], ['2']) are enumerated first, in
    ascending numeric order, and the other names after them, in the order
    of their insertion.  So inserting two properties in the other order
    changes the fingerprint when neither name is an array index, and does
    not show in the fingerprint when the name of one of them is. *)
Theorem fingerprint_determines_schema :
  (forall s1 s2,
     safe_integers s1 = true -> safe_integers s2 = true ->
     (JSON_stringify s1 = JSON_stringify s2 <-> s1 = s2))
  /\ (forall entries : list (string * json),
        enumerated (Object_fromEntries entries) = true
        /\ (List.NoDup (map fst entries) ->
            namedEntries (Object_fromEntries entries) = namedEntries entries
            /\ (forallb (fun kv => negb (is_arrayIndex (fst kv))) entries = true ->
                Object_fromEntries entries = entries)))
  /\ (forall before k1 (v1 : json) k2 (v2 : json) after,
        List.NoDup (map fst (before ++ (k1, v1) :: (k2, v2) :: after)) ->
        is_arrayIndex k1 = false -> is_arrayIndex k2 = false ->
        JSON_stringify (JObj (Object_fromEntries (before ++ (k1, v1) :: (k2, v2) :: after))) <>
        JSON_stringify (JObj (Object_fromEntries (before ++ (k2, v2) :: (k1, v1) :: after))))
  /\ (forall before k1 (v1 : json) k2 (v2 : json) after,
        k1 <> k2 -> is_arrayIndex k1 || is_arrayIndex k2 = true ->
        JSON_stringify (JObj (Object_fromEntries (before ++ (k1, v1) :: (k2, v2) :: after))) =
        JSON_stringify (JObj (Object_fromEntries (before ++ (k2, v2) :: (k1, v1) :: after))))
  /\ (forall s this n this',
        extractNestedSchema s this = Ok (n, this') ->
        Map_has (JSON_stringify s) (extractedSchemas this') = true)
  /\ (forall api index k n,
        extractComponentNames api = Ok index -> index !! k = Some n ->
        exists components schemas s,
          prop "components" api = Some components
          /\ prop "schemas" components = Some schemas
          /\ In (n, s) (Object_entries schemas)
          /\ k = JSON_stringify s).
Proof.
  split; [ | split; [ | split; [ | split; [ | split ] ] ] ].
  - intros s1 s2 _ _. split; [ apply JSON_stringify_inj | now intros -> ].
  - intros entries. split; [ apply fromEntries_enumerated | ]. intros Hnd. split.
    + exact (namedEntries_fold entries [] Hnd).
    + intros Hnamed. exact (fromEntries_named entries [] Hnd Hnamed).
  - intros before k1 v1 k2 v2 after Hnd H1 H2 H. apply JSON_stringify_inj in H.
    injection H as H.
    assert (Hne : k1 <> k2).
    { pose proof Hnd as Hnd1. rewrite map_app in Hnd1. cbn [map fst] in Hnd1.
      apply List.NoDup_remove_2 in Hnd1.
      intros ->. apply Hnd1, in_or_app. right. now left. }
    assert (Hnd' : List.NoDup (map fst (before ++ (k2, v2) :: (k1, v1) :: after))).
    { eapply Permutation_NoDup; [ | exact Hnd ].
      rewrite !map_app. cbn [map fst]. apply Permutation_app_head, perm_swap. }
    exact (fromEntries_swap_named before after k1 v1 k2 v2 Hne H1 H2 Hnd Hnd' H).
  - intros before k1 v1 k2 v2 after Hne Hindex.
    now rewrite (fromEntries_swap_index before after k1 v1 k2 v2).
  - intros s this n this' E.
    destruct (extractNestedSchema_cases s this) as (n' & this1 & E' & _ & _ & Hcases).
    rewrite E' in E. injection E as -> ->. unfold Map_has.
    destruct Hcases as [(e & Hget & -> & _) | (Hget & Htab & _)].
    + now rewrite Hget.
    + now rewrite Htab, (Map_get_app_fresh _ _ _ Hget).
  - intros api index k n. unfold extractComponentNames.
    destruct (js_in "components" api) as [hasComponents | ]; [ | discriminate ].
    cbn [bindR]. destruct hasComponents; [ | intros [= <-]; now rewrite lookup_empty ].
    unfold tprop. destruct (prop "components" api) as [components | ] eqn:Hcomponents;
      [ | intros [= <-]; now rewrite lookup_empty ].
    destruct (truthy components); [ | intros [= <-]; now rewrite lookup_empty ].
    destruct (js_in "schemas" components) as [hasSchemas | ]; [ | discriminate ].
    cbn [bindR]. destruct hasSchemas; [ | intros [= <-]; now rewrite lookup_empty ].
    destruct (prop "schemas" components) as [schemas | ] eqn:Hschemas; [ | discriminate ].
    intros Hindex Hk. exists components, schemas.
    assert (Hfold : exists s, In (n, s) (Object_entries schemas) /\ k = JSON_stringify s).
    { destruct schemas; try discriminate Hindex; injection Hindex as <-;
        first [ now rewrite lookup_empty in Hk
              | apply extractComponentNames_fold in Hk as [Hk | Hk];
                [ now rewrite lookup_empty in Hk | exact Hk ] ]. }
    destruct Hfold as (s & Hin & ->). exists s. auto.
Qed.

Lemma fingerprint_determines_schema_witness :
  (JSON_stringify pair_ab = JSON_stringify pair_ab <-> pair_ab = pair_ab)
  /\ JSON_stringify (JObj (Object_fromEntries [("a", JStr "x"); ("b", JStr "y")])) <>
     JSON_stringify (JObj (Object_fromEntries [("b", JStr "y"); ("a", JStr "x")]))
  /\ JSON_stringify (JObj (Object_fromEntries [("2", JStr "x"); ("1", JStr "y")])) =
     JSON_stringify (JObj (Object_fromEntries [("1", JStr "y"); ("2", JStr "x")])).
Proof.
  destruct fingerprint_determines_schema as (Hsame & _ & Hnamed & Hindex & _).
  split; [ exact (Hsame pair_ab pair_ab eq_refl eq_refl) | split ].
  - apply (Hnamed [] "a" (JStr "x") "b" (JStr "y") []); [ | reflexivity | reflexivity ].
    repeat constructor; cbn; intuition discriminate.
  - apply (Hindex [] "2" (JStr "x") "1" (JStr "y") []); [ discriminate | reflexivity ].
Defined.

(** ** Circular schemas abort the run *)

(** The serialization of a circular schema throws wherever it is computed:
    in the loop over the responses and in [extractNestedSchema]. *)
Lemma groupResponses_cyclic tools responseSchemaMap :
  Exists (fun t => exists v, fst t = Some v /\ Cyclic.truthy v = true /\ Cyclic.tree v = None)
         tools ->
  exists e, groupResponses Cyclic.JSON_stringify Cyclic.truthy tools responseSchemaMap = Throw e.
Proof.
  intros H. revert responseSchemaMap.
  induction H as [ t tools (v & Hv & Ht & Hcyc) | t tools _ IH ]; intros m; cbn [groupResponses].
  - unfold addResponse. rewrite Hv, Ht. unfold Cyclic.JSON_stringify. rewrite Hcyc.
    cbn [bindR]. eauto.
  - destruct (addResponse Cyclic.JSON_stringify Cyclic.truthy t m) as [m' | e]; cbn [bindR];
      [ apply IH | eauto ].
Qed.

(** C8 — on a schema that refers to its own shape, the code diverges from
    the claim: [JSON.stringify] throws a [TypeError] in the loop that groups
    the responses (and in [extractNestedSchema]), no [try] surrounds it
    before the one of [generate], and the run ends in a [GenerationError]
    instead of a degraded type and a warning. *)
Theorem cyclic_schema_aborts_generation :
  (forall (A : Type) (rest : list (string * responseGroup Cyclic.value) -> result A),
      Cyclic.generate [(Some Cyclic.node, "GetNodeResponse")] rest =
      GenerationError "Failed to generate MCP server"
                      (TypeError "Converting circular structure to JSON"))
  /\ (forall this,
        Cyclic.extractNestedSchema Cyclic.node this =
        Throw (TypeError "Converting circular structure to JSON")).
Proof. split; reflexivity. Qed.

(** ** Names of tools and of the server *)

Ltac each_unit c := destruct c as [[] [] [] [] [] [] [] []].

Section SeparatorFacts.
Variable sep : ascii.

Lemma kept_sep : kept sep sep = true.
Proof. unfold kept. rewrite Ascii.eqb_refl. apply orb_true_r. Qed.

Lemma replaceOthers_kept s : all_units (kept sep) (replaceOthers sep s) = true.
Proof.
  induction s as [ | c s IH ]; [ reflexivity | ]. cbn [replaceOthers all_units].
  rewrite IH, andb_true_r. destruct (kept sep c) eqn:E; [ exact E | apply kept_sep ].
Qed.

Lemma squeeze_kept s :
  all_units (kept sep) s = true -> all_units (kept sep) (squeeze sep s) = true.
Proof.
  induction s as [ | c s IH ]; [ reflexivity | ]. cbn [all_units squeeze].
  intros [Hc Hs]%andb_true_iff. specialize (IH Hs).
  destruct (Ascii.eqb c sep); [ destruct s as [ | d s' ] | ].
  - cbn. now rewrite Hc.
  - destruct (Ascii.eqb d sep); [ exact IH | ]. cbn [all_units]. now rewrite Hc, IH.
  - cbn [all_units]. now rewrite Hc, IH.
Qed.

Lemma squeeze_starts s : starts sep (squeeze sep s) = starts sep s.
Proof.
  induction s as [ | c s IH ]; [ reflexivity | ]. cbn [squeeze].
  destruct (Ascii.eqb c sep) eqn:Ec; [ destruct s as [ | d s' ] | ].
  - reflexivity.
  - destruct (Ascii.eqb d sep) eqn:Ed.
    + rewrite IH. cbn. now rewrite Ec, Ed.
    + reflexivity.
  - reflexivity.
Qed.

(** After [squeeze] no two separators are adjacent. *)
Lemma squeeze_doubled s : doubled sep (squeeze sep s) = false.
Proof.
  induction s as [ | c s IH ]; [ reflexivity | ]. cbn [squeeze].
  destruct (Ascii.eqb c sep) eqn:Ec; [ destruct s as [ | d s' ] | ].
  - reflexivity.
  - destruct (Ascii.eqb d sep) eqn:Ed; [ exact IH | ].
    pose proof (squeeze_starts (String d s')) as Hst. cbn [starts] in Hst. rewrite Ed in Hst.
    cbn [doubled]. destruct (squeeze sep (String d s')) as [ | e r ] eqn:Er; [ reflexivity | ].
    cbn [starts] in Hst. rewrite Hst, andb_false_r. exact IH.
  - cbn [doubled]. destruct (squeeze sep s) as [ | e r ] eqn:Er; [ reflexivity | ].
    rewrite Ec. exact IH.
Qed.

Lemma dropFirst_kept s :
  all_units (kept sep) s = true -> all_units (kept sep) (dropFirst sep s) = true.
Proof.
  destruct s as [ | c s ]; [ reflexivity | ]. cbn [dropFirst all_units].
  intros [Hc Hs]%andb_true_iff. destruct (Ascii.eqb c sep); [ exact Hs | ].
  cbn [all_units]. now rewrite Hc, Hs.
Qed.

Lemma dropFirst_doubled s : doubled sep s = false -> doubled sep (dropFirst sep s) = false.
Proof.
  destruct s as [ | c s ]; [ reflexivity | ]. cbn [dropFirst]. intros H.
  destruct (Ascii.eqb c sep); [ | exact H ].
  cbn [doubled] in H. destruct s as [ | d s' ]; [ reflexivity | ].
  now apply orb_false_iff in H as [_ H].
Qed.

Lemma dropFirst_starts s : doubled sep s = false -> starts sep (dropFirst sep s) = false.
Proof.
  destruct s as [ | c s ]; [ reflexivity | ]. cbn [dropFirst]. intros H.
  destruct (Ascii.eqb c sep) eqn:Ec; [ | cbn; exact Ec ].
  cbn [doubled] in H. destruct s as [ | d s' ]; [ reflexivity | ].
  apply orb_false_iff in H as [H _]. rewrite Ec in H. exact H.
Qed.

Lemma dropLast_kept s :
  all_units (kept sep) s = true -> all_units (kept sep) (dropLast sep s) = true.
Proof.
  induction s as [ | c s IH ]; [ reflexivity | ]. cbn [dropLast all_units].
  intros [Hc Hs]%andb_true_iff. destruct s as [ | d s' ].
  - destruct (Ascii.eqb c sep); [ reflexivity | ]. cbn. now rewrite Hc.
  - cbn [all_units]. rewrite Hc. exact (IH Hs).
Qed.

Lemma dropLast_starts s :
  doubled sep s = false -> starts sep s = false -> starts sep (dropLast sep s) = false.
Proof.
  destruct s as [ | c s ]; [ reflexivity | ]. cbn [dropLast starts]. intros _ Hc.
  destruct s as [ | d s' ]; [ now rewrite Hc | ]. exact Hc.
Qed.

Lemma dropLast_doubled s : doubled sep s = false -> doubled sep (dropLast sep s) = false.
Proof.
  induction s as [ | c s IH ]; [ reflexivity | ]. intros H. cbn [dropLast].
  destruct s as [ | d s' ]; [ now destruct (Ascii.eqb c sep) | ].
  cbn [doubled] in H. apply orb_false_iff in H as [Hcd Hs]. specialize (IH Hs).
  cbn [doubled]. destruct (dropLast sep (String d s')) as [ | e r ] eqn:Er; [ reflexivity | ].
  rewrite IH, orb_false_r.
  assert (e = d) as ->.
  { cbn [dropLast] in Er. destruct s' as [ | d' s'' ].
    - destruct (Ascii.eqb d sep); [ discriminate | now injection Er ].
    - now injection Er. }
  exact Hcd.
Qed.

Lemma dropLast_ends s : doubled sep s = false -> ends sep (dropLast sep s) = false.
Proof.
  induction s as [ | c s IH ]; [ reflexivity | ]. intros H. cbn [dropLast].
  destruct s as [ | d s' ].
  - destruct (Ascii.eqb c sep) eqn:Ec; [ reflexivity | cbn; exact Ec ].
  - cbn [doubled] in H. apply orb_false_iff in H as [Hcd Hs]. specialize (IH Hs).
    cbn [ends]. destruct (dropLast sep (String d s')) as [ | e r ] eqn:Er; [ | exact IH ].
    cbn [dropLast] in Er. destruct s' as [ | d' s'' ]; [ | discriminate ].
    destruct (Ascii.eqb d sep) eqn:Ed; [ | discriminate ].
    rewrite andb_true_r in Hcd. exact Hcd.
Qed.

(** The three replacements always end in a normal string. *)
Lemma normalize_normal s :
  normal sep (trimOne sep (squeeze sep (replaceOthers sep s))) = true.
Proof.
  set (t := squeeze sep (replaceOthers sep s)).
  assert (Hk : all_units (kept sep) t = true) by apply squeeze_kept, replaceOthers_kept.
  assert (Hd : doubled sep t = false) by apply squeeze_doubled.
  unfold normal, trimOne.
  rewrite dropLast_kept by now apply dropFirst_kept.
  rewrite dropLast_doubled by now apply dropFirst_doubled.
  rewrite dropLast_starts by (try apply dropFirst_doubled; try apply dropFirst_starts; exact Hd).
  rewrite dropLast_ends by now apply dropFirst_doubled.
  reflexivity.
Qed.

Lemma replaceOthers_id s : all_units (kept sep) s = true -> replaceOthers sep s = s.
Proof.
  induction s as [ | c s IH ]; [ reflexivity | ]. cbn [all_units replaceOthers].
  intros [Hc Hs]%andb_true_iff. now rewrite Hc, IH.
Qed.

Lemma squeeze_id s : doubled sep s = false -> squeeze sep s = s.
Proof.
  induction s as [ | c s IH ]; [ reflexivity | ]. cbn [doubled squeeze]. intros H.
  destruct s as [ | d s' ]; [ now destruct (Ascii.eqb c sep) | ].
  apply orb_false_iff in H as [Hcd Hs]. rewrite (IH Hs).
  destruct (Ascii.eqb c sep); [ | reflexivity ]. cbn in Hcd. now rewrite Hcd.
Qed.

Lemma dropLast_id s : ends sep s = false -> dropLast sep s = s.
Proof.
  induction s as [ | c s IH ]; [ reflexivity | ]. cbn [ends dropLast]. intros H.
  destruct s as [ | d s' ]; [ now rewrite H | ]. now rewrite (IH H).
Qed.

Lemma dropFirst_id s : starts sep s = false -> dropFirst sep s = s.
Proof. destruct s as [ | c s ]; [ reflexivity | ]. cbn. now intros ->. Qed.

Lemma normal_inv s :
  normal sep s = true ->
  all_units (kept sep) s = true /\ doubled sep s = false
  /\ starts sep s = false /\ ends sep s = false.
Proof.
  unfold normal. intros [[[H1 H2]%andb_true_iff H3]%andb_true_iff H4]%andb_true_iff.
  apply negb_true_iff in H2, H3, H4. auto.
Qed.

(** They leave a normal string as it is. *)
Lemma normalize_id s :
  normal sep s = true -> trimOne sep (squeeze sep (replaceOthers sep s)) = s.
Proof.
  intros (Hk & Hd & Hs & He)%normal_inv. unfold trimOne.
  now rewrite replaceOthers_id, squeeze_id, dropFirst_id, dropLast_id.
Qed.

(** A normal string without letters or digits is empty. *)
Lemma normal_keep_empty s :
  normal sep s = true -> keep_units is_lower_or_digit s = "" -> s = "".
Proof.
  intros (Hk & _ & Hs & _)%normal_inv. destruct s as [ | c s ]; [ reflexivity | ].
  cbn [keep_units all_units starts] in *. apply andb_true_iff in Hk as [Hc _].
  unfold kept in Hc. fold (is_lower_or_digit c) in Hc. rewrite Hs, orb_false_r in Hc.
  now rewrite Hc.
Qed.

(** They only add, merge and remove separators. *)
Section Content.
Hypothesis sep_other : is_lower_or_digit sep = false.

Lemma is_sep c : Ascii.eqb c sep = true -> is_lower_or_digit c = false.
Proof. intros ->%Ascii.eqb_eq. exact sep_other. Qed.

Lemma replaceOthers_keep s :
  keep_units is_lower_or_digit (replaceOthers sep s) = keep_units is_lower_or_digit s.
Proof.
  induction s as [ | c s IH ]; [ reflexivity | ]. cbn [replaceOthers keep_units].
  unfold kept. fold (is_lower_or_digit c). destruct (is_lower_or_digit c) eqn:Ec.
  - cbn [orb]. now rewrite Ec, IH.
  - cbn [orb]. destruct (Ascii.eqb c sep) eqn:E; [ now rewrite Ec | now rewrite sep_other ].
Qed.

Lemma squeeze_keep s :
  keep_units is_lower_or_digit (squeeze sep s) = keep_units is_lower_or_digit s.
Proof.
  induction s as [ | c s IH ]; [ reflexivity | ]. cbn [squeeze keep_units].
  destruct (Ascii.eqb c sep) eqn:Ec; [ destruct s as [ | d s' ] | ].
  - reflexivity.
  - rewrite (is_sep _ Ec). destruct (Ascii.eqb d sep); [ exact IH | ].
    cbn [keep_units]. rewrite (is_sep _ Ec). exact IH.
  - cbn [keep_units]. now rewrite IH.
Qed.

Lemma dropFirst_keep s :
  keep_units is_lower_or_digit (dropFirst sep s) = keep_units is_lower_or_digit s.
Proof.
  destruct s as [ | c s ]; [ reflexivity | ]. cbn [dropFirst keep_units].
  destruct (Ascii.eqb c sep) eqn:Ec; [ now rewrite (is_sep _ Ec) | reflexivity ].
Qed.

Lemma dropLast_keep s :
  keep_units is_lower_or_digit (dropLast sep s) = keep_units is_lower_or_digit s.
Proof.
  induction s as [ | c s IH ]; [ reflexivity | ]. cbn [dropLast].
  destruct s as [ | d s' ].
  - destruct (Ascii.eqb c sep) eqn:Ec; [ cbn; now rewrite (is_sep _ Ec) | reflexivity ].
  - cbn [keep_units] in *. now rewrite IH.
Qed.

Lemma normalize_keep s :
  keep_units is_lower_or_digit (trimOne sep (squeeze sep (replaceOthers sep s)))
  = keep_units is_lower_or_digit s.
Proof.
  unfold trimOne. now rewrite dropLast_keep, dropFirst_keep, squeeze_keep, replaceOthers_keep.
Qed.

End Content.

End SeparatorFacts.

Lemma kept_underscore_fixed c :
  kept "_" c = true -> is_upper c = false /\ toLowerCase_unit c = c.
Proof. each_unit c; vm_compute; intros H; try discriminate H; split; reflexivity. Qed.

Lemma kept_hyphen_fixed c :
  kept "-" c = true -> is_upper c = false /\ toLowerCase_unit c = c.
Proof. each_unit c; vm_compute; intros H; try discriminate H; split; reflexivity. Qed.

Lemma toLowerCase_id (p : ascii -> bool) s :
  (forall c, p c = true -> toLowerCase_unit c = c) ->
  all_units p s = true -> toLowerCase s = s.
Proof.
  intros Hp. induction s as [ | c s IH ]; [ reflexivity | ]. cbn [all_units toLowerCase].
  intros [Hc Hs]%andb_true_iff. now rewrite (Hp c Hc), IH.
Qed.

Lemma underscoreCapitals_id (p : ascii -> bool) s :
  (forall c, p c = true -> is_upper c = false) ->
  all_units p s = true -> underscoreCapitals s = s.
Proof.
  intros Hp. induction s as [ | c s IH ]; [ reflexivity | ]. cbn [all_units underscoreCapitals].
  intros [Hc Hs]%andb_true_iff. now rewrite (Hp c Hc), IH.
Qed.

Lemma toSnakeCase_normal str : normal "_" (toSnakeCase str) = true.
Proof. apply normalize_normal. Qed.

Lemma toSnakeCase_id str : normal "_" str = true -> toSnakeCase str = str.
Proof.
  intros H. unfold toSnakeCase. pose proof (normal_inv _ _ H) as (Hk & _).
  rewrite (underscoreCapitals_id (kept "_")), (toLowerCase_id (kept "_")); try assumption.
  - now apply normalize_id.
  - intros c Hc. now apply kept_underscore_fixed.
  - intros c Hc. now apply kept_underscore_fixed.
Qed.

Lemma sanitizeName_normal n : normal "-" (sanitizeName n) = true.
Proof. apply normalize_normal. Qed.

(** X1 — [toSnakeCase] always returns a snake-case name: lower-case
    letters, digits and underscores only, no underscore first or last, and
    no two underscores in a row. *)
Theorem toSnakeCase_snake_case str : normal "_" (toSnakeCase str) = true.
Proof. apply normalize_normal. Qed.

(** X2 — [toSnakeCase] is idempotent, and the strings it leaves unchanged
    are exactly the snake-case names. *)
Theorem toSnakeCase_fixed_points str :
  toSnakeCase (toSnakeCase str) = toSnakeCase str
  /\ (toSnakeCase str = str <-> normal "_" str = true).
Proof.
  split; [ apply toSnakeCase_id, toSnakeCase_normal | ]. split.
  - intros <-. apply toSnakeCase_normal.
  - apply toSnakeCase_id.
Qed.

Lemma underscoreCapitals_keep s :
  keep_units is_lower_or_digit (toLowerCase (underscoreCapitals s))
  = keep_units is_lower_or_digit (toLowerCase s).
Proof.
  induction s as [ | c s IH ]; [ reflexivity | ]. cbn [underscoreCapitals].
  destruct (is_upper c); cbn [toLowerCase keep_units]; now rewrite IH.
Qed.

(** X3 — [toSnakeCase] drops and reorders no letter and no digit: the
    letters and digits of the result are those of the lower-cased input, in
    the same order; only underscores are added, merged or removed. *)
Theorem toSnakeCase_keeps_letters_and_digits str :
  keep_units is_lower_or_digit (toSnakeCase str)
  = keep_units is_lower_or_digit (toLowerCase str).
Proof.
  unfold toSnakeCase. rewrite normalize_keep by reflexivity. apply underscoreCapitals_keep.
Qed.

(** X4 — [sanitizeName] always returns a slug: lower-case letters, digits
    and hyphens only, no hyphen first or last, and no two hyphens in a row;
    and it returns a slug unchanged. *)
Theorem sanitizeName_slug name_ :
  normal "-" (sanitizeName name_) = true
  /\ (normal "-" name_ = true -> sanitizeName name_ = name_).
Proof.
  split; [ apply normalize_normal | ].
  intros H. unfold sanitizeName. pose proof (normal_inv _ _ H) as (Hk & _).
  rewrite (toLowerCase_id (kept "-")); try assumption.
  - now apply normalize_id.
  - intros c Hc. now apply kept_hyphen_fixed.
Qed.

Lemma sanitizeName_slug_witness :
  sanitizeName "GitHub v3 REST API" = "github-v3-rest-api"
  /\ normal "-" (sanitizeName "github-v3-rest-api") = true
  /\ sanitizeName "github-v3-rest-api" = "github-v3-rest-api".
Proof.
  destruct (sanitizeName_slug "github-v3-rest-api") as [Hslug Hsame].
  split; [ reflexivity | split; [ exact Hslug | apply Hsame; reflexivity ] ].
Defined.

Lemma toLowerCase_alphanumeric c :
  is_lower_or_digit (toLowerCase_unit c) = is_alphanumeric c.
Proof. each_unit c; vm_compute; reflexivity. Qed.

Lemma keep_units_empty p s :
  keep_units p s = "" <-> all_units (fun c => negb (p c)) s = true.
Proof.
  induction s as [ | c s IH ]; [ easy | ]. cbn [keep_units all_units].
  destruct (p c); cbn [negb andb]; [ split; discriminate | exact IH ].
Qed.

Lemma all_units_toLowerCase s :
  all_units (fun c => negb (is_lower_or_digit c)) (toLowerCase s)
  = all_units (fun c => negb (is_alphanumeric c)) s.
Proof.
  induction s as [ | c s IH ]; [ reflexivity | ]. cbn [toLowerCase all_units].
  now rewrite IH, toLowerCase_alphanumeric.
Qed.

(** X5 — [sanitizeName] returns the empty string exactly when the
    lower-cased argument holds no letter of [a-z] and no digit; so the
    result is not empty whenever the argument holds a letter of [A-Za-z] or
    a digit, and an API title made of punctuation and spaces gives an empty
    server name. *)
Theorem sanitizeName_empty name_ :
  (sanitizeName name_ = ""
   <-> all_units (fun c => negb (is_lower_or_digit c)) (toLowerCase name_) = true)
  /\ (all_units (fun c => negb (is_alphanumeric c)) name_ = false -> sanitizeName name_ <> "").
Proof.
  assert (Hkeep : keep_units is_lower_or_digit (sanitizeName name_)
                  = keep_units is_lower_or_digit (toLowerCase name_)).
  { unfold sanitizeName. now rewrite normalize_keep. }
  assert (Hiff : sanitizeName name_ = ""
                 <-> all_units (fun c => negb (is_lower_or_digit c)) (toLowerCase name_) = true).
  { rewrite <- keep_units_empty, <- Hkeep. split.
    - now intros ->.
    - intros H. exact (normal_keep_empty "-" _ (sanitizeName_normal name_) H). }
  split; [ exact Hiff | ].
  intros H E. apply Hiff in E. rewrite all_units_toLowerCase in E. congruence.
Qed.

Lemma sanitizeName_empty_witness :
  sanitizeName "GitHub v3" <> "" /\ sanitizeName "(...)" = "".
Proof.
  split.
  - exact (proj2 (sanitizeName_empty "GitHub v3") eq_refl).
  - exact (proj2 (proj1 (sanitizeName_empty "(...)")) eq_refl).
Defined.

(** X23 — [toSnakeCase] returns the empty string exactly when the
    lower-cased argument holds no letter of [a-z] and no digit; so the
    result is not empty whenever the argument holds a letter of [A-Za-z] or
    a digit, and an [operationId] made of punctuation gives a tool without
    a name. *)
Theorem toSnakeCase_empty str :
  (toSnakeCase str = ""
   <-> all_units (fun c => negb (is_lower_or_digit c)) (toLowerCase str) = true)
  /\ (all_units (fun c => negb (is_alphanumeric c)) str = false -> toSnakeCase str <> "").
Proof.
  assert (Hkeep : keep_units is_lower_or_digit (toSnakeCase str)
                  = keep_units is_lower_or_digit (toLowerCase str)).
  { unfold toSnakeCase. rewrite normalize_keep by reflexivity. apply underscoreCapitals_keep. }
  assert (Hiff : toSnakeCase str = ""
                 <-> all_units (fun c => negb (is_lower_or_digit c)) (toLowerCase str) = true).
  { rewrite <- keep_units_empty, <- Hkeep. split.
    - now intros ->.
    - intros H. exact (normal_keep_empty "_" _ (toSnakeCase_normal str) H). }
  split; [ exact Hiff | ].
  intros H E. apply Hiff in E. rewrite all_units_toLowerCase in E. congruence.
Qed.

Lemma toSnakeCase_empty_witness :
  toSnakeCase "getUser" <> "" /\ toSnakeCase "$.-" = "".
Proof.
  split.
  - exact (proj2 (toSnakeCase_empty "getUser") eq_refl).
  - exact (proj2 (proj1 (toSnakeCase_empty "$.-")) eq_refl).
Defined.

Lemma toUpperCase_letter_back l :
  is_lower l = true ->
  is_upper (toUpperCase_letter l) = true /\ toLowerCase_unit (toUpperCase_letter l) = l.
Proof. each_unit l; vm_compute; intros H; try discriminate H; split; reflexivity. Qed.

(** Putting an underscore before each capital and lower-casing undoes
    [camelCase] on the characters of a snake-case name. *)
Lemma camelCase_back n : forall t,
  String.length t <= n ->
  all_units (kept "_") t = true ->
  toLowerCase (underscoreCapitals (camelCase t)) = t.
Proof.
  induction n as [ | n IH ]; intros [ | c s ] Hlen Hk; try reflexivity; cbn [String.length] in Hlen;
    [ lia | ].
  cbn [all_units] in Hk. apply andb_true_iff in Hk as [Hc Hs].
  destruct (kept_underscore_fixed c Hc) as [Hup Hlow].
  assert (Hplain : toLowerCase (underscoreCapitals (String c (camelCase s))) = String c s).
  { cbn [underscoreCapitals]. rewrite Hup. cbn [toLowerCase]. rewrite Hlow.
    f_equal. apply IH; [ lia | exact Hs ]. }
  cbn [camelCase]. destruct (Ascii.eqb c "_") eqn:Ec; [ | exact Hplain ].
  destruct s as [ | l s' ]; [ apply Ascii.eqb_eq in Ec as ->; reflexivity | ].
  destruct (is_lower l) eqn:El; [ | exact Hplain ].
  destruct (toUpperCase_letter_back l El) as [Hu Hl].
  cbn [underscoreCapitals]. rewrite Hu. cbn [toLowerCase]. rewrite Hl.
  apply Ascii.eqb_eq in Ec as ->. f_equal. f_equal.
  cbn [all_units] in Hs. apply andb_true_iff in Hs as [_ Hs'].
  apply IH; [ cbn [String.length] in Hlen; lia | exact Hs' ].
Qed.

(** X6 — [toSnakeCase] undoes the [camelCase] helper on every snake-case
    name, so the helper gives distinct identifiers to distinct tool names. *)
Theorem camelCase_toSnakeCase t :
  normal "_" t = true -> toSnakeCase (camelCase t) = t.
Proof.
  intros H. unfold toSnakeCase. pose proof (normal_inv _ _ H) as (Hk & _).
  rewrite (camelCase_back (String.length t)) by (try lia; exact Hk).
  now apply normalize_id.
Qed.

Lemma camelCase_toSnakeCase_witness :
  camelCase "get_user_by_id" = "getUserById"
  /\ toSnakeCase (camelCase "get_user_by_id") = "get_user_by_id".
Proof. split; [ reflexivity | apply (camelCase_toSnakeCase "get_user_by_id"); reflexivity ]. Defined.

(** ** Endpoints and tools *)

Lemma bindR_Ok {A B : Type} (r : result A) (k : A -> result B) b :
  bindR r k = Ok b <-> exists a, r = Ok a /\ k a = Ok b.
Proof.
  destruct r as [a | e]; cbn [bindR]; split.
  - eauto.
  - now intros (a' & [= ->] & H).
  - discriminate.
  - now intros (a' & [=] & _).
Qed.

Lemma mapR_Ok {A B : Type} (f : A -> result B) l ys :
  mapR f l = Ok ys -> Forall2 (fun x y => f x = Ok y) l ys.
Proof.
  revert ys. induction l as [ | x l IH ]; cbn [mapR]; intros ys.
  - intros [= <-]. constructor.
  - intros (y & Hy & (ys' & Hys & [= <-])%bindR_Ok)%bindR_Ok. constructor; auto.
Qed.

Lemma mapR_returns {A B : Type} (f : A -> result B) l :
  Forall (fun x => exists y, f x = Ok y) l -> exists ys, mapR f l = Ok ys.
Proof.
  induction 1 as [ | x l [y Hy] _ [ys IH] ]; cbn [mapR]; [ eauto | ].
  rewrite Hy, IH. cbn [bindR]. eauto.
Qed.

Lemma generateToolName_normal e : normal "_" (generateToolName e) = true.
Proof.
  unfold generateToolName. destruct (endpoint_operationId e) as [id | ];
    [ destruct (String.eqb id "") | ]; apply toSnakeCase_normal.
Qed.

Lemma find_first {A : Type} (f : A -> string) (l : list A) (x : A) :
  List.NoDup (map f l) -> In x l ->
  List.find (fun y => String.eqb (f y) (f x)) l = Some x.
Proof.
  induction l as [ | y l IH ]; [ easy | ]. cbn [map List.find].
  intros [Hy Hl]%List.NoDup_cons_iff [-> | Hin].
  - now rewrite String.eqb_refl.
  - destruct (String.eqb_spec (f y) (f x)) as [E | _]; [ | now apply IH ].
    exfalso. apply Hy. rewrite E. now apply in_map.
Qed.

(** X7 — when no two endpoints of the API get the same tool name,
    [findEndpointForTool] gives back, for the name generated from an
    endpoint, that very endpoint. *)
Theorem findEndpointForTool_generateToolName endpoints e :
  List.NoDup (map generateToolName endpoints) ->
  In e endpoints ->
  findEndpointForTool (generateToolName e) endpoints = Some e.
Proof. apply find_first. Qed.

Lemma findEndpointForTool_generateToolName_witness :
  map generateToolName [getUser; listUsers] = ["get_user"; "get_users"]
  /\ findEndpointForTool (generateToolName listUsers) [getUser; listUsers] = Some listUsers.
Proof.
  split; [ reflexivity | ].
  apply (findEndpointForTool_generateToolName [getUser; listUsers] listUsers).
  - apply List.NoDup_cons; [ intros [H | []]; discriminate H | ].
    apply List.NoDup_cons; [ intros [] | apply List.NoDup_nil ].
  - right. left. reflexivity.
Defined.

Lemma removeAll_alphanumeric s :
  all_units (kept "_") s = true -> all_units is_lower_or_digit (removeAll "_" s) = true.
Proof.
  induction s as [ | c s IH ]; [ reflexivity | ]. cbn [all_units removeAll].
  intros [Hc Hs]%andb_true_iff. unfold kept in Hc. fold (is_lower_or_digit c) in Hc.
  destruct (Ascii.eqb c "_"); [ now apply IH | ].
  rewrite orb_false_r in Hc. cbn [all_units]. now rewrite Hc, IH.
Qed.

(** X8 — the name of every tool [endpointToTool] builds is a snake-case
    name, and its handler consists of lower-case letters and digits only. *)
Theorem endpointToTool_names endpoint t :
  endpointToTool endpoint = Ok t ->
  normal "_" (tool_name t) = true /\ all_units is_lower_or_digit (tool_handler t) = true.
Proof.
  unfold endpointToTool. intros (params & _ & [= <-])%bindR_Ok. cbn [tool_name tool_handler].
  pose proof (generateToolName_normal endpoint) as H. split; [ exact H | ].
  apply removeAll_alphanumeric. now apply normal_inv in H.
Qed.

Lemma endpointToTool_names_witness :
  match endpointToTool updateItem with
  | Ok t =>
      tool_name t = "update_item" /\ tool_handler t = "updateitem"
      /\ normal "_" (tool_name t) = true
      /\ all_units is_lower_or_digit (tool_handler t) = true
  | Throw _ => False
  end.
Proof.
  destruct (endpointToTool updateItem) as [t | e] eqn:E; [ | vm_compute in E; discriminate E ].
  destruct (endpointToTool_names updateItem t E) as [Hname Hhandler].
  split; [ | split; [ | split; [ exact Hname | exact Hhandler ] ] ];
    vm_compute in E; injection E as <-; reflexivity.
Defined.

Lemma schemaToType_cases s : In (schemaToType s) parameterTypes.
Proof.
  unfold schemaToType, parameterTypes.
  repeat match goal with |- context [if ?b then _ else _] => destruct b end; cbn; tauto.
Qed.

Lemma typeToJsonSchemaType_id t : In t parameterTypes -> typeToJsonSchemaType t = t.
Proof. cbn. intros [<- | [<- | [<- | [<- | [<- | []]]]]]; reflexivity. Qed.

Lemma bodyParameter_Ok required entry p :
  bodyParameter required entry = Ok p ->
  tp_name p = fst entry
  /\ param_type (tp_fields p) = schemaToType (snd entry)
  /\ param_enum (tp_fields p) = prop "enum" (snd entry)
  /\ param_items (tp_fields p) = prop "items" (snd entry)
  /\ includes required (fst entry) = Ok (tp_required p)
  /\ truthy (tp_description p) = true.
Proof.
  unfold bodyParameter.
  intros (d & Hd & (r & Hr & [= <-])%bindR_Ok)%bindR_Ok. cbn. repeat split; auto.
  destruct d as [d | ]; [ destruct (truthy d) eqn:E; [ exact E | ] | ]; cbn;
    destruct (fst entry); reflexivity.
Qed.

(** What [extractParameters] returns: the declared parameters, then those
    of the body. *)
Lemma extractParameters_Ok endpoint params :
  extractParameters endpoint = Ok params ->
  exists required entries fromBody,
    params = (map declaredParameter (endpoint_parameters endpoint) ++ fromBody)%list
    /\ Forall2 (fun x y => bodyParameter required x = Ok y) entries fromBody.
Proof.
  unfold extractParameters.
  assert (Hnone : forall r,
             r = Ok (map declaredParameter (endpoint_parameters endpoint)) ->
             r = Ok params ->
             exists required entries fromBody,
               params = (map declaredParameter (endpoint_parameters endpoint) ++ fromBody)%list
               /\ Forall2 (fun x y => bodyParameter required x = Ok y) entries fromBody).
  { intros r -> [= <-]. exists JNull, [], []. rewrite app_nil_r. split; [ reflexivity | constructor ]. }
  destruct (endpoint_requestBody endpoint) as [b | ]; [ | now apply Hnone ].
  destruct (truthy (body_content b)); [ | now apply Hnone ].
  destruct (bodyContent (body_content b)) as [content | ]; [ | now apply Hnone ].
  destruct (truthy content && is_object content); [ | now apply Hnone ].
  destruct (prop "schema" content) as [s | ]; [ | now apply Hnone ].
  intros (p & Hp & H)%bindR_Ok. destruct p as [ps | ]; [ | now apply (Hnone _ eq_refl) ].
  destruct (truthy ps); [ | now apply (Hnone _ eq_refl) ].
  apply bindR_Ok in H as (fromBody & Hmap & [= <-]).
  exists (required_or_empty s), (Object_entries ps), fromBody. split; [ reflexivity | ].
  now apply mapR_Ok.
Qed.

Lemma extractParameters_types endpoint params p :
  extractParameters endpoint = Ok params -> In p params ->
  In (param_type (tp_fields p)) parameterTypes /\ truthy (tp_description p) = true.
Proof.
  intros (required & entries & fromBody & -> & Hbody)%extractParameters_Ok
         [(param & <- & _)%in_map_iff | Hin]%in_app_iff.
  - split; [ apply schemaToType_cases | ]. cbn.
    unfold or_string. destruct (parameter_description param) as [d | ].
    + destruct (String.eqb_spec d "") as [-> | Hd].
      * destruct (parameter_name param); reflexivity.
      * destruct d; [ congruence | reflexivity ].
    + destruct (parameter_name param); reflexivity.
  - induction Hbody as [ | x y entries fromBody Hxy _ IH ]; [ easy | ].
    destruct Hin as [<- | Hin]; [ | now apply IH ].
    apply bodyParameter_Ok in Hxy as (_ & -> & _ & _ & _ & Hd).
    split; [ apply schemaToType_cases | exact Hd ].
Qed.

(** X9 — every parameter [extractParameters] returns has one of the five
    types [string], [number], [boolean], [object] and [array] (never
    [integer]), which [typeToJsonSchemaType] maps to itself, and a
    truthy description. *)
Theorem extractParameters_jsonSchemaType endpoint params p :
  extractParameters endpoint = Ok params -> In p params ->
  In (param_type (tp_fields p)) ["string"; "number"; "boolean"; "object"; "array"]
  /\ typeToJsonSchemaType (param_type (tp_fields p)) = param_type (tp_fields p)
  /\ truthy (tp_description p) = true.
Proof.
  intros H Hin. destruct (extractParameters_types _ _ _ H Hin) as [Ht Hd].
  repeat split; [ exact Ht | now apply typeToJsonSchemaType_id | exact Hd ].
Qed.

Lemma extractParameters_jsonSchemaType_witness :
  match extractParameters updateItem with
  | Ok params =>
      map tp_name params = ["id"; "id"; "name"; "tag"]
      /\ Forall (fun p =>
                   In (param_type (tp_fields p)) ["string"; "number"; "boolean"; "object"; "array"]
                   /\ typeToJsonSchemaType (param_type (tp_fields p)) = param_type (tp_fields p)
                   /\ truthy (tp_description p) = true)
                params
  | Throw _ => False
  end.
Proof.
  destruct (extractParameters updateItem) as [params | e] eqn:E;
    [ | vm_compute in E; discriminate E ].
  split.
  - vm_compute in E. injection E as <-. reflexivity.
  - apply List.Forall_forall. intros p Hin.
    exact (extractParameters_jsonSchemaType updateItem params p E Hin).
Defined.

(** X10 — the validator of a parameter that is not an array and has no
    enum is [string()], [number()], [boolean()] or [record(z.unknown())]:
    it never refers to a named schema, whatever properties the parameter's
    schema had, and computing it leaves the table as it is. *)
Theorem parameter_validator_plain endpoint params p this :
  extractParameters endpoint = Ok params -> In p params ->
  truthy_opt (param_enum (tp_fields p)) = false ->
  param_type (tp_fields p) <> "array" ->
  exists zodType,
    schemaToZodType (parameterSchema (tp_fields p)) this = Ok (zodType, this)
    /\ In zodType ["string()"; "number()"; "boolean()"; "record(z.unknown())"].
Proof.
  intros H Hin Henum Harr. destruct (extractParameters_types _ _ _ H Hin) as [Ht _].
  destruct (tp_fields p) as [t enum items]. cbn in *.
  unfold parameterSchema. cbn [param_type param_enum param_items]. rewrite Henum.
  destruct Ht as [<- | [<- | [<- | [<- | [<- | []]]]]]; try congruence;
    destruct (truthy_opt items); vm_compute; eexists; (split; [ reflexivity | tauto ]).
Qed.

Lemma parameter_validator_plain_witness :
  exists zodType,
    schemaToZodType
      (parameterSchema (tp_fields (declaredParameter
         {| parameter_name := "filter";
            parameter_in := "query";
            parameter_required := false;
            parameter_description := None;
            parameter_schema := repository |})))
      (reset repository_index) = Ok (zodType, reset repository_index)
    /\ In zodType ["string()"; "number()"; "boolean()"; "record(z.unknown())"].
Proof.
  set (p := {| parameter_name := "filter";
               parameter_in := "query";
               parameter_required := false;
               parameter_description := None;
               parameter_schema := repository |}).
  apply (parameter_validator_plain
           {| endpoint_path := "/repositories";
              endpoint_method := "GET";
              endpoint_operationId := None;
              endpoint_summary := None;
              endpoint_description := None;
              endpoint_tags := [];
              endpoint_parameters := [p];
              endpoint_requestBody := None;
              endpoint_responses := ∅;
              endpoint_security := None;
              endpoint_deprecated := false |}
           [declaredParameter p] (declaredParameter p) (reset repository_index)).
  - reflexivity.
  - left. reflexivity.
  - reflexivity.
  - intros H. vm_compute in H. discriminate H.
Defined.

(** *** The input schema of a tool *)


Lemma find_rev_map (params : list toolParameter) n :
  List.find (fun kv : string * toolParameter => String.eqb (fst kv) n)
            (rev (map (fun p => (tp_name p, p)) params)) =
  option_map (fun p => (tp_name p, p))
             (List.find (fun p => String.eqb (tp_name p) n) (rev params)).
Proof.
  rewrite <- map_rev. induction (rev params) as [ | p l IH ]; [ reflexivity | ].
  cbn [map List.find fst]. destruct (String.eqb (tp_name p) n); [ reflexivity | exact IH ].
Qed.

(** X11 — the property the input schema of a tool holds under a name is
    the last parameter [extractParameters] returned with that name: a
    property of the request body replaces a path or query parameter of the
    same name. *)
Theorem tool_property_last_declared endpoint params t n :
  extractParameters endpoint = Ok params ->
  endpointToTool endpoint = Ok t ->
  Map_get n (tool_properties t) =
  List.find (fun p => String.eqb (tp_name p) n) (rev params).
Proof.
  intros Hp. unfold endpointToTool. rewrite Hp. cbn [bindR]. intros [= <-].
  cbn [tool_properties]. unfold Object_fromEntries. rewrite Object_fold_get, find_rev_map.
  destruct (List.find _ (rev params)); reflexivity.
Qed.

Lemma tool_property_last_declared_witness :
  match extractParameters updateItem, endpointToTool updateItem with
  | Ok params, Ok t =>
      map tp_name params = ["id"; "id"; "name"; "tag"]
      /\ map fst (tool_properties t) = ["id"; "name"; "tag"]
      /\ Map_get "id" (tool_properties t) =
         List.find (fun p => String.eqb (tp_name p) "id") (rev params)
      /\ option_map tp_description (Map_get "id" (tool_properties t)) =
         Some (JStr "id from request body")
  | _, _ => False
  end.
Proof.
  destruct (extractParameters updateItem) as [params | e] eqn:Ep;
    [ | vm_compute in Ep; discriminate Ep ].
  destruct (endpointToTool updateItem) as [t | e] eqn:Et;
    [ | vm_compute in Et; discriminate Et ].
  pose proof (tool_property_last_declared updateItem params t "id" Ep Et) as Hlast.
  split; [ | split; [ | split; [ exact Hlast | ] ] ];
    vm_compute in Ep, Et; injection Ep as <-; injection Et as <-; reflexivity.
Defined.

Lemma tool_properties_keys params n :
  Map_has n (Object_fromEntries (map (fun p => (tp_name p, p)) params)) = true
  <-> In n (map tp_name params).
Proof.
  unfold Map_has, Object_fromEntries. rewrite Object_fold_get, find_rev_map.
  destruct (List.find (fun p => String.eqb (tp_name p) n) (rev params)) as [p | ] eqn:E;
    cbn [option_map Map_get assoc].
  - apply List.find_some in E as [Hin <-%String.eqb_eq]. apply in_rev in Hin.
    split; [ intros _; now apply in_map | reflexivity ].
  - split; [ discriminate | ]. intros (p & <- & Hin)%in_map_iff. apply in_rev in Hin.
    pose proof (List.find_none _ _ E p Hin) as Hp. cbn in Hp.
    now rewrite String.eqb_refl in Hp.
Qed.

(** X12 — the input schema of a tool is consistent: no property name
    occurs twice, the property names are exactly the names of the
    parameters [extractParameters] returned, and every name listed in
    [required] is the name of a property. *)
Theorem tool_input_schema_consistent endpoint params t :
  extractParameters endpoint = Ok params ->
  endpointToTool endpoint = Ok t ->
  List.NoDup (map fst (tool_properties t))
  /\ (forall n, Map_has n (tool_properties t) = true <-> In n (map tp_name params))
  /\ (forall n, In n (tool_required t) -> Map_has n (tool_properties t) = true).
Proof.
  intros Hp. unfold endpointToTool. rewrite Hp. cbn [bindR]. intros [= <-].
  cbn [tool_properties tool_required]. split; [ | split ].
  - apply Object_fold_NoDup. constructor.
  - apply tool_properties_keys.
  - intros n (p & <- & [Hin _]%List.filter_In)%in_map_iff.
    apply tool_properties_keys. now apply in_map.
Qed.

Lemma tool_input_schema_consistent_witness :
  match extractParameters updateItem, endpointToTool updateItem with
  | Ok params, Ok t =>
      map tp_name params = ["id"; "id"; "name"; "tag"]
      /\ tool_required t = ["id"; "id"; "tag"]
      /\ List.NoDup (map fst (tool_properties t))
      /\ (forall n, Map_has n (tool_properties t) = true <-> In n (map tp_name params))
      /\ (forall n, In n (tool_required t) -> Map_has n (tool_properties t) = true)
  | _, _ => False
  end.
Proof.
  destruct (extractParameters updateItem) as [params | e] eqn:Ep;
    [ | vm_compute in Ep; discriminate Ep ].
  destruct (endpointToTool updateItem) as [t | e] eqn:Et;
    [ | vm_compute in Et; discriminate Et ].
  split; [ vm_compute in Ep; injection Ep as <-; reflexivity | ].
  split; [ vm_compute in Et; injection Et as <-; reflexivity | ].
  exact (tool_input_schema_consistent updateItem params t Ep Et).
Defined.

(** ** From the parser to the generator *)

Lemma fold_insert_lookup {A V : Type} (f : A -> V) (l : list (string * A))
    (m0 : gmap string V) k r :
  fold_left (fun m e => <[fst e := f (snd e)]> m) l m0 !! k = Some r ->
  (exists a, In (k, a) l /\ r = f a) \/ m0 !! k = Some r.
Proof.
  revert m0. induction l as [ | [k' a] l IH ]; intros m0; cbn [fold_left]; [ auto | ].
  intros [(a' & Hin & ->) | H]%IH.
  - left. exists a'. split; [ now right | reflexivity ].
  - cbn [fst snd] in H. destruct (decide (k' = k)) as [-> | Hne].
    + rewrite lookup_insert_eq in H. injection H as <-. left. exists a. split; [ now left | reflexivity ].
    + rewrite lookup_insert_ne in H by exact Hne. now right.
Qed.

Lemma fold_insert_other {A V : Type} (f : A -> V) (l : list (string * A))
    (m0 : gmap string V) k :
  ~ In k (map fst l) ->
  fold_left (fun m e => <[fst e := f (snd e)]> m) l m0 !! k = m0 !! k.
Proof.
  revert m0. induction l as [ | [k' a] l IH ]; intros m0 Hk; cbn [fold_left]; [ reflexivity | ].
  rewrite IH by (intros H; apply Hk; now right). cbn [fst snd].
  apply lookup_insert_ne. intros ->. apply Hk. now left.
Qed.

Lemma fold_insert_unique {A V : Type} (f : A -> V) (l : list (string * A))
    (m0 : gmap string V) k a :
  List.NoDup (map fst l) -> In (k, a) l ->
  fold_left (fun m e => <[fst e := f (snd e)]> m) l m0 !! k = Some (f a).
Proof.
  revert m0. induction l as [ | [k' a'] l IH ]; intros m0; [ easy | ].
  cbn [map fst fold_left]. intros [Hk Hl]%List.NoDup_cons_iff [[= -> ->] | Hin].
  - rewrite fold_insert_other by exact Hk. cbn [fst snd]. apply lookup_insert_eq.
  - now apply IH.
Qed.

Lemma or_json_truthy v d : truthy d = true -> truthy (or_json v d) = true.
Proof.
  intros Hd. unfold or_json. destruct v as [x | ]; [ | exact Hd ].
  destruct (truthy x) eqn:E; [ exact E | exact Hd ].
Qed.

(** X13 — for an operation of an OpenAPI 2.0 document, the request body
    contributes no parameter: [parseV2Operation] stores the body schema
    itself under ['application/json'], where [extractParameters] looks for a
    property called [schema]; unless the body schema has one, the tool gets
    the declared parameters (the body parameter among them) and nothing
    else. *)
Theorem swagger2_body_properties_dropped path method operation :
  (forall p schema_,
      In p (or_default [] (v2_parameters operation)) ->
      p_in p = "body" ->
      p_schema p = Some schema_ ->
      prop "schema" schema_ = None) ->
  extractParameters (parseV2Operation path method operation) =
  Ok (map declaredParameter (map parseV2Parameter (or_default [] (v2_parameters operation)))).
Proof.
  intros Hno. unfold extractParameters.
  cbn [parseV2Operation endpoint_requestBody endpoint_parameters].
  destruct (v2_parameters operation) as [ps | ]; [ | reflexivity ].
  destruct (List.find (fun p => String.eqb (p_in p) "body") ps) as [b | ] eqn:Hfind;
    [ | reflexivity ].
  apply List.find_some in Hfind as [Hin Hbody%String.eqb_eq]. cbn [or_default] in Hno.
  cbn [body_content truthy]. unfold bodyContent, tprop. cbn [prop assoc].
  rewrite String.eqb_refl.
  rewrite (or_json_truthy (p_schema b) (JObj []) eq_refl).
  rewrite (or_json_truthy (p_schema b) (JObj []) eq_refl). cbn [andb].
  destruct (is_object (or_json (p_schema b) (JObj []))); [ | reflexivity ].
  assert (Hschema : prop "schema" (or_json (p_schema b) (JObj [])) = None).
  { unfold or_json. destruct (p_schema b) as [x | ] eqn:Hx; [ | reflexivity ].
    destruct (truthy x); [ exact (Hno b x Hin Hbody Hx) | reflexivity ]. }
  now rewrite Hschema.
Qed.

Lemma swagger2_body_properties_dropped_witness :
  Object_keys (or_default JNull (prop "properties" item)) = ["id"; "name"; "tag"]
  /\ match extractParameters (parseV2Operation "/items" "POST" addItem_v2) with
     | Ok params => map tp_name params = ["body"]
     | Throw _ => False
     end.
Proof.
  split; [ reflexivity | ].
  rewrite (swagger2_body_properties_dropped "/items" "POST" addItem_v2).
  - reflexivity.
  - intros p schema_ [<- | []] _ [= <-]. reflexivity.
Defined.

Lemma Forall2_names required entries fromBody :
  Forall2 (fun x y => bodyParameter required x = Ok y) entries fromBody ->
  map tp_name fromBody = map fst entries.
Proof.
  induction 1 as [ | x y entries fromBody Hxy _ IH ]; [ reflexivity | ].
  cbn [map]. apply bodyParameter_Ok in Hxy as (-> & _). now rewrite IH.
Qed.

(** X14 — for an operation of an OpenAPI 3 document with a JSON request
    body whose schema is typed as the casts declare, [extractParameters]
    returns, and every property of the body schema becomes a parameter of
    that name, after the declared parameters and in the order of the
    properties. *)
Theorem openapi3_body_properties path method operation body content media schema_ properties :
  v3_requestBody operation = Some body ->
  v3_body_content body = Some content ->
  tprop "application/json" content = Some media ->
  is_object media = true ->
  prop "schema" media = Some schema_ ->
  tprop "properties" schema_ = Some properties ->
  fields_typed schema_ = true ->
  exists fromBody,
    extractParameters (parseV3Operation path method operation) =
      Ok (map declaredParameter
              (map parseV3Parameter (or_default [] (v3_parameters operation))) ++ fromBody)%list
    /\ map tp_name fromBody = Object_keys properties.
Proof.
  intros Hbody Hcontent Hmedia Hobj Hschema Hprops Htyped.
  unfold extractParameters. cbn [parseV3Operation endpoint_requestBody endpoint_parameters].
  rewrite Hbody. cbn [body_content]. rewrite Hcontent.
  assert (Htc : truthy content = true).
  { unfold tprop in Hmedia. destruct content; try discriminate Hmedia. reflexivity. }
  assert (Hoj : or_json (Some content) (JObj []) = content) by (unfold or_json; now rewrite Htc).
  rewrite !Hoj, Htc. unfold bodyContent. rewrite Hmedia.
  assert (Htm : truthy media = true).
  { unfold tprop in Hmedia. destruct (prop "application/json" content); [ | discriminate ].
    destruct (truthy j) eqn:E; [ | discriminate ]. now injection Hmedia as <-. }
  rewrite Htm, Hobj. cbn [andb]. rewrite Hschema.
  assert (Hread : read "properties" schema_ = Ok (Some properties)
                  /\ truthy properties = true).
  { unfold tprop in Hprops. destruct schema_; try discriminate Hprops.
    cbn [read]. destruct (prop "properties" (JObj fields)) as [ps | ]; [ | discriminate ].
    destruct (truthy ps) eqn:E; [ | discriminate ]. now injection Hprops as <-. }
  destruct Hread as [-> Htp]. cbn [bindR]. rewrite Htp.
  unfold fields_typed in Htyped. rewrite Hprops in Htyped.
  apply andb_true_iff in Htyped as [[[_ Hreq]%andb_true_iff _]%andb_true_iff Hnull].
  assert (Hrequired : exists reqs, required_or_empty schema_ = JArr reqs).
  { unfold required_or_empty. destruct (tprop "required" schema_) as [[ | | | | reqs | ] | ];
      try discriminate Hreq; eauto. }
  destruct Hrequired as [reqs ->].
  destruct (mapR_returns (bodyParameter (JArr reqs)) (Object_entries properties)) as [fromBody E].
  { rewrite forallb_forall in Hnull. apply List.Forall_forall. intros entry Hin.
    specialize (Hnull entry Hin). unfold bodyParameter. cbn [includes].
    destruct (snd entry); try discriminate Hnull; cbn [read bindR]; eauto. }
  rewrite E. cbn [bindR]. exists fromBody. split; [ reflexivity | ].
  apply mapR_Ok in E. unfold Object_keys. now apply Forall2_names in E.
Qed.

Lemma openapi3_body_properties_witness :
  exists fromBody,
    extractParameters (parseV3Operation "/items/{id}" "PUT" updateItem_v3) =
      Ok (map declaredParameter
              (map parseV3Parameter (or_default [] (v3_parameters updateItem_v3))) ++ fromBody)%list
    /\ map tp_name fromBody = ["id"; "name"; "tag"].
Proof.
  exact (openapi3_body_properties "/items/{id}" "PUT" updateItem_v3
           {| v3_body_required := Some true; v3_body_content := Some jsonItem |}
           jsonItem (JObj [("schema", item)]) item
           (JObj [("id", JObj [("type", JStr "number")]);
                  ("name", JObj [("type", JStr "string")]);
                  ("tag", JObj [("type", JStr "string"); ("nullable", JBool true)])])
           eq_refl eq_refl eq_refl eq_refl eq_refl eq_refl eq_refl).
Defined.

Lemma jsonSchemaOf_v2 responses code :
  (forall c resp schema_,
      In (c, resp) responses -> v2_response_schema resp = Some schema_ ->
      prop "schema" schema_ = None) ->
  jsonSchemaOf (parseV2Responses responses !! code) = None.
Proof.
  intros Hno. unfold parseV2Responses.
  destruct (fold_left _ responses ∅ !! code) as [r | ] eqn:E; [ | reflexivity ].
  apply (fold_insert_lookup parseV2Response) in E as [(resp & Hin & ->) | E];
    [ | now rewrite lookup_empty in E ].
  cbn. specialize (Hno code resp).
  destruct (v2_response_schema resp) as [s | ]; [ | reflexivity ].
  destruct (truthy s) eqn:Hs; [ | reflexivity ]. cbn.
  unfold optional_chain. destruct s; try reflexivity. now apply Hno.
Qed.

(** X15 — for an operation of an OpenAPI 2.0 document the generator finds
    no response schema, so no response type is generated: [parseV2Responses]
    stores the schema itself under ['application/json'], where the generator
    reads the property [schema] of what it finds there. *)
Theorem swagger2_response_schema_unseen path method operation :
  (forall code resp schema_,
      In (code, resp) (v2_responses operation) ->
      v2_response_schema resp = Some schema_ ->
      prop "schema" schema_ = None) ->
  responseSchemaOf (Some (parseV2Operation path method operation)) = None.
Proof.
  intros Hno. unfold responseSchemaOf. cbn [parseV2Operation endpoint_responses].
  now rewrite !jsonSchemaOf_v2.
Qed.

Lemma swagger2_response_schema_unseen_witness :
  v2_responses addItem_v2 =
    [("200", {| v2_response_description := "The item"; v2_response_schema := Some item |})]
  /\ responseSchemaOf (Some (parseV2Operation "/items" "POST" addItem_v2)) = None.
Proof.
  split; [ reflexivity | ].
  apply (swagger2_response_schema_unseen "/items" "POST" addItem_v2).
  intros code resp schema_ [[= <- <-] | []] [= <-]. reflexivity.
Defined.

(** X16 — for an operation of an OpenAPI 3 document the generator finds
    the schema of the JSON content of the 200 response, when it is truthy. *)
Theorem openapi3_response_schema_seen path method operation resp content media s :
  List.NoDup (map fst (v3_responses operation)) ->
  In ("200", resp) (v3_responses operation) ->
  v3_response_content resp = Some content ->
  optional_chain "application/json" content = Some media ->
  optional_chain "schema" media = Some s ->
  truthy s = true ->
  responseSchemaOf (Some (parseV3Operation path method operation)) = Some s.
Proof.
  intros Hnd Hin Hc Hm Hs Ht. unfold responseSchemaOf.
  cbn [parseV3Operation endpoint_responses]. unfold parseV3Responses.
  rewrite (fold_insert_unique parseV3Response _ _ _ _ Hnd Hin).
  cbn [jsonSchemaOf parseV3Response response_content]. now rewrite Hc, Hm, Hs, Ht.
Qed.

Lemma openapi3_response_schema_seen_witness :
  responseSchemaOf (Some (parseV3Operation "/items/{id}" "PUT" updateItem_v3)) = Some item.
Proof.
  apply (openapi3_response_schema_seen "/items/{id}" "PUT" updateItem_v3
           {| v3_response_description := "The item"; v3_response_content := Some jsonItem |}
           jsonItem (JObj [("schema", item)]) item).
  - apply List.NoDup_cons; [ intros [] | apply List.NoDup_nil ].
  - left. reflexivity.
  - reflexivity.
  - reflexivity.
  - reflexivity.
  - reflexivity.
Defined.

(** ** Authentication *)

(** X17 — [parseV3Auth] throws exactly when [securitySchemes] is truthy and
    either holds no entry or its first entry is [null]; on a list without
    entries [parseV2Auth] answers [{ type: 'none' }] instead.  An OpenAPI 3
    document with an empty [securitySchemes] object therefore fails to
    parse. *)
Theorem parseV3Auth_throws securitySchemes :
  ((exists e, parseV3Auth securitySchemes = Throw e) <->
   (exists schemes,
       securitySchemes = Some schemes /\ truthy schemes = true
       /\ match Object_entries schemes with
          | [] => True
          | (_, first) :: _ => first = JNull
          end))
  /\ (forall schemes,
        securitySchemes = Some schemes -> Object_entries schemes = [] ->
        parseV2Auth securitySchemes = Ok noAuth).
Proof.
  split; [ split | ].
  - intros [e H]. unfold parseV3Auth in H.
    destruct securitySchemes as [schemes | ]; [ | discriminate H ].
    exists schemes. destruct (truthy schemes); [ | discriminate H ].
    split; [ reflexivity | split; [ reflexivity | ] ].
    unfold firstEntry in H. destruct (Object_entries schemes) as [ | [k first] rest ];
      [ exact I | ].
    cbn [bindR] in H. destruct first; cbn [read bindR] in H; try reflexivity;
      repeat match type of H with
             | context [if ?b then _ else _] => destruct b
             | context [match ?x with _ => _ end] => destruct x
             end; discriminate H.
  - intros (schemes & -> & Ht & Hfirst). unfold parseV3Auth, firstEntry. rewrite Ht.
    destruct (Object_entries schemes) as [ | [k first] rest ]; cbn [negb bindR]; [ eauto | ].
    subst first. cbn [read bindR]. eauto.
  - intros schemes -> He. unfold parseV2Auth, Object_keys. rewrite He. cbn [map length Nat.eqb].
    now rewrite orb_true_r.
Qed.

Lemma parseV3Auth_throws_witness :
  (exists e, parseV3Auth (Some (JObj [])) = Throw e)
  /\ parseV2Auth (Some (JObj [])) = Ok noAuth.
Proof.
  destruct (parseV3Auth_throws (Some (JObj []))) as [[_ Hthrows] Hv2].
  split; [ | exact (Hv2 (JObj []) eq_refl eq_refl) ].
  apply Hthrows. exists (JObj []). repeat split.
Defined.

(** ** More on runs *)

Lemma fallbackNames_steps this this' :
  steps this this' ->
  fallbackNames this = map fallbackName (seq 1 (schemaCounter this)) ->
  fallbackNames this' = map fallbackName (seq 1 (schemaCounter this')).
Proof.
  induction 1 as [ | this this1 s n this2 _ IH Hs He ]; [ auto | ]. intros H0.
  specialize (IH H0).
  destruct (extractNestedSchema_cases s this1) as (n' & this' & E & Hc & _ & Hcases).
  rewrite E in He. injection He as -> ->.
  destruct Hcases as [(e & _ & -> & _) | (_ & Htab & Hcount)]; [ exact IH | ].
  unfold fallbackNames in *. rewrite Htab, List.filter_app, map_app.
  rewrite (List.filter_ext _ (fun kv => match componentName_of this1 (fst kv) with
                                         | Some _ => false | None => true end))
    by (intros kv; now rewrite (componentName_of_stable _ _ _ Hc)).
  rewrite IH. cbn [List.filter fst].
  rewrite (componentName_of_stable _ _ _ Hc).
  destruct (componentName_of this1 (JSON_stringify s)).
  - rewrite Hcount. cbn [map]. apply app_nil_r.
  - destruct Hcount as [-> ->]. cbn [map snd name]. now rewrite seq_S, map_app.
Qed.

(** X18 — in every state of a run the generated names are numbered without
    gaps in the order of first registration: the entries of the table that
    have no component name are called [NestedType1], [NestedType2], ... up
    to [schemaCounter], in the order of the table. *)
Theorem fallback_names_consecutive components this :
  reachable components this ->
  fallbackNames this = map fallbackName (seq 1 (schemaCounter this)).
Proof. intros H. now apply (fallbackNames_steps _ _ H). Qed.

Lemma fallback_names_consecutive_witness :
  fallbackNames clashing_state = ["NestedType1"]
  /\ fallbackNames clashing_state = map fallbackName (seq 1 (schemaCounter clashing_state)).
Proof.
  split; [ vm_compute; reflexivity | ].
  exact (fallback_names_consecutive clashing_index clashing_state clashing_state_reachable).
Defined.

(** X19 — [generateTypeScriptFiles] only appends to the table: when it
    returns, the entries the table held are still there, unchanged and in
    the same order, before the new ones, and the component index is the
    same. *)
Theorem generateTypeScriptFiles_only_appends tools this data this' :
  generateTypeScriptFiles tools this = Ok (data, this') ->
  componentSchemas this' = componentSchemas this
  /\ exists new, extractedSchemas this' = (extractedSchemas this ++ new)%list.
Proof.
  intros H%generateTypeScriptFiles_preserves.
  split; [ now apply steps_componentSchemas | now apply steps_grows ].
Qed.

Lemma generateTypeScriptFiles_only_appends_witness :
  match generateTypeScriptFiles [listRepositories] (reset repository_index) with
  | Ok (data, this') =>
      map (fun kv => name (snd kv)) (extractedSchemas this') = ["Repository"]
      /\ componentSchemas this' = componentSchemas (reset repository_index)
      /\ exists new,
           extractedSchemas this' = (extractedSchemas (reset repository_index) ++ new)%list
  | Throw _ => False
  end.
Proof.
  destruct (generateTypeScriptFiles [listRepositories] (reset repository_index))
    as [[data this'] | e] eqn:E; [ | vm_compute in E; discriminate E ].
  split; [ vm_compute in E; injection E as <- <-; reflexivity | ].
  exact (generateTypeScriptFiles_only_appends _ _ _ _ E).
Defined.

Section Grouping.
Context {S : Type} (stringify : S -> result string) (truthyS : S -> bool).

Lemma allNames_push k (e : responseGroup S) n m :
  Map_get k m = Some e ->
  Permutation (allNames (Map_set k {| names := names e ++ [n]; group_schema := group_schema e |} m))
              (allNames m ++ [n]).
Proof.
  unfold Map_get, allNames. induction m as [ | [k' e'] m IH ]; cbn [assoc Map_set]; [ discriminate | ].
  destruct (String.eqb k' k).
  - intros [= ->]. cbn [map concat snd names]. rewrite <- !app_assoc.
    apply Permutation_app_head, Permutation_app_comm.
  - intros H. cbn [map concat snd]. rewrite <- app_assoc. apply Permutation_app_head, IH, H.
Qed.

Lemma addResponse_names t m m' :
  addResponse stringify truthyS t m = Ok m' ->
  Permutation (allNames m') (allNames m ++ (if hasResponse truthyS t then [snd t] else [])).
Proof.
  unfold addResponse, hasResponse. destruct (fst t) as [s | ];
    [ destruct (truthyS s) | ]; try (intros [= <-]; now rewrite app_nil_r).
  destruct (stringify s) as [k | ]; cbn [bindR]; [ | discriminate ].
  destruct (Map_get k m) as [e | ] eqn:E; intros [= <-].
  - now apply allNames_push.
  - rewrite (Map_set_fresh _ _ _ E). unfold allNames. rewrite map_app, concat_app.
    cbn. rewrite ?app_nil_r. reflexivity.
Qed.

Lemma groupResponses_names tools m m' :
  groupResponses stringify truthyS tools m = Ok m' ->
  Permutation (allNames m')
              (allNames m ++ map snd (List.filter (hasResponse truthyS) tools)).
Proof.
  revert m. induction tools as [ | t tools IH ]; intros m; cbn [groupResponses].
  - intros [= <-]. now rewrite app_nil_r.
  - destruct (addResponse stringify truthyS t m) as [m1 | ] eqn:E; cbn [bindR]; [ | discriminate ].
    intros H%IH. rewrite H. apply addResponse_names in E. rewrite E, <- app_assoc.
    apply Permutation_app_head. cbn [List.filter]. destruct (hasResponse truthyS t); reflexivity.
Qed.

End Grouping.

(** X20 — the loop that groups the responses loses and invents no name:
    when it returns, the names of all the groups together are the
    [responseTypeName]s of the tools that have a response schema, each as
    often as it occurs among them. *)
Theorem groupResponses_keeps_every_name {S : Type} (stringify : S -> result string)
    (truthyS : S -> bool) tools responseSchemaMap :
  groupResponses stringify truthyS tools [] = Ok responseSchemaMap ->
  Permutation (concat (map names (Map_values responseSchemaMap)))
              (map snd (List.filter (hasResponse truthyS) tools)).
Proof.
  intros H%groupResponses_names. unfold Map_values. rewrite map_map. exact H.
Qed.

Lemma groupResponses_keeps_every_name_witness :
  match groupResponses (fun s => Ok (JSON_stringify s)) truthy
          [(Some repository, "GetRepository"); (None, "DeleteRepository");
           (Some point, "GetPoint"); (Some repository, "CreateRepository")] [] with
  | Ok responseSchemaMap =>
      map names (Map_values responseSchemaMap) =
        [["GetRepository"; "CreateRepository"]; ["GetPoint"]]
      /\ Permutation (concat (map names (Map_values responseSchemaMap)))
                     ["GetRepository"; "GetPoint"; "CreateRepository"]
  | Throw _ => False
  end.
Proof.
  destruct (groupResponses (fun s => Ok (JSON_stringify s)) truthy
              [(Some repository, "GetRepository"); (None, "DeleteRepository");
               (Some point, "GetPoint"); (Some repository, "CreateRepository")] [])
    as [m | e] eqn:E; [ | vm_compute in E; discriminate E ].
  split; [ vm_compute in E; injection E as <-; reflexivity | ].
  exact (groupResponses_keeps_every_name _ truthy _ m E).
Defined.

Lemma index_fold_other (entries : list (string * json)) (m0 : gmap string string) k :
  (forall n s, In (n, s) entries -> JSON_stringify s <> k) ->
  fold_left
    (fun (componentMap : gmap string string) (entry : string * json) =>
       if truthy (snd entry) && is_object (snd entry)
       then <[JSON_stringify (snd entry) := fst entry]> componentMap
       else componentMap)
    entries m0 !! k = m0 !! k.
Proof.
  revert m0. induction entries as [ | [n s] entries IH ]; intros m0 H; cbn [fold_left fst snd];
    [ reflexivity | ].
  rewrite IH by (intros n' s' Hin; apply (H n' s'); now right).
  destruct (truthy s && is_object s); [ | reflexivity ].
  apply lookup_insert_ne. apply (H n s). now left.
Qed.

(** X21 — in the component index the last component of a shape gives the
    name: a component schema is indexed under its own name unless a later
    component has the same schema, and then all of them go by the later
    name. *)
Theorem component_index_last_wins api index components schemas before n s after :
  extractComponentNames api = Ok index ->
  tprop "components" api = Some components ->
  prop "schemas" components = Some schemas ->
  Object_entries schemas = (before ++ (n, s) :: after)%list ->
  truthy s && is_object s = true ->
  (forall n', ~ In (n', s) after) ->
  index !! JSON_stringify s = Some n.
Proof.
  intros Hindex Hcomponents Hschemas Hentries Hs Hlast.
  unfold extractComponentNames in Hindex.
  assert (Hin : js_in "components" api = Ok true).
  { unfold tprop in Hcomponents. destruct api; try discriminate Hcomponents.
    cbn [prop] in Hcomponents. cbn [js_in]. now destruct (assoc "components" fields). }
  rewrite Hin in Hindex. cbn [bindR] in Hindex. rewrite Hcomponents in Hindex.
  assert (Hin' : js_in "schemas" components = Ok true).
  { destruct components; try discriminate Hschemas.
    cbn [prop] in Hschemas. cbn [js_in]. now rewrite Hschemas. }
  rewrite Hin' in Hindex. cbn [bindR] in Hindex. rewrite Hschemas in Hindex.
  assert (Hfold : index =
            fold_left
              (fun (componentMap : gmap string string) (entry : string * json) =>
                 if truthy (snd entry) && is_object (snd entry)
                 then <[JSON_stringify (snd entry) := fst entry]> componentMap
                 else componentMap)
              (Object_entries schemas) ∅).
  { destruct schemas; try (now injection Hindex); try discriminate Hindex.
    all: destruct before; discriminate Hentries. }
  rewrite Hfold, Hentries, fold_left_app. cbn [fold_left fst snd]. rewrite Hs.
  rewrite index_fold_other; [ apply lookup_insert_eq | ].
  intros n' s' Hin2 E. apply JSON_stringify_inj in E as ->. exact (Hlast n' Hin2).
Qed.

Lemma component_index_last_wins_witness :
  match extractComponentNames twoNames with
  | Ok index => index !! JSON_stringify repository = Some "Owner"
  | Throw _ => False
  end.
Proof.
  destruct (extractComponentNames twoNames) as [index | e] eqn:E;
    [ | vm_compute in E; discriminate E ].
  apply (component_index_last_wins twoNames index
           (JObj [("schemas", JObj [("User", repository); ("Owner", repository)])])
           (JObj [("User", repository); ("Owner", repository)])
           [("User", repository)] "Owner" repository []).
  - exact E.
  - reflexivity.
  - reflexivity.
  - reflexivity.
  - reflexivity.
  - intros n' [].
Defined.


(** A schema may call its properties [description], [enum] or [required]:
    it is typed as the casts declare all the same. *)
Example well_typed_property_names : well_typed review = true.
Proof. reflexivity. Qed.


